(** * biblio-ai-agent: extraction and enhancement pipeline

    A shallow embedding of the TypeScript sources, named as their imports
    name them:
      - extraction/llmBatchExtractor.ts  (model-backed extractor)
      - extraction/masterTable.ts        (record store)
      - extraction/orchestrator.ts       (extraction jobs)
      - enhancement/orchestrator.ts      (enhancement jobs)
      - enhancement/affiliationFinder.ts (tiered affiliation resolver)
    followed by the properties of the specification stated over it.

    Conventions.  A JavaScript string is a [string]: a sequence of code
    units, here the code units below 256 (ASCII and Latin-1), on which
    [toLowerCase], [\w] and [\s] are modelled exactly.  Values whose static
    type is [any] (parsed JSON) are [JsValue]s.  A computation that can raise
    is a [Completion]; a computation that talks to the outside world threads
    the log of what it did.  Reading and writing the files of the store and
    of the jobs is taken to succeed. *)

From Stdlib Require Import Bool Arith Lia List ZArith Ascii String DecimalString.
Import ListNotations.
Open Scope string_scope.
Set Warnings "-abstract-large-number".

(* ================================================================== *)
(** * Part I: definitions *)
(* ================================================================== *)

(** ** JavaScript strings *)

Module JsString.

Definition code (c : ascii) : nat := nat_of_ascii c.

Definition between (lo hi : nat) (c : ascii) : bool :=
  ((lo <=? code c) && (code c <=? hi))%nat.

(** [\s]: TAB, LF, VT, FF, CR, SPACE and NBSP. *)
Definition isWhiteSpace (c : ascii) : bool :=
  between 9 13 c || (code c =? 32)%nat || (code c =? 160)%nat.

(** [\w]: [A-Za-z0-9_]. *)
Definition isWordChar (c : ascii) : bool :=
  between 48 57 c || between 65 90 c || (code c =? 95)%nat || between 97 122 c.

Definition isDigit (c : ascii) : bool := between 48 57 c.

Definition toLowerChar (c : ascii) : ascii :=
  if between 65 90 c || between 192 214 c || between 216 222 c
  then ascii_of_nat (code c + 32) else c.

Fixpoint toLowerCase (s : string) : string :=
  match s with
  | EmptyString => EmptyString
  | String c r => String (toLowerChar c) (toLowerCase r)
  end.

(** [s.replace(/[...]/g, '')] for a character class [p]. *)
Fixpoint removeAll (p : ascii -> bool) (s : string) : string :=
  match s with
  | EmptyString => EmptyString
  | String c r => if p c then removeAll p r else String c (removeAll p r)
  end.

(** [s.replace(/[...]/g, ' ')] for a character class [p]. *)
Fixpoint blankAll (p : ascii -> bool) (s : string) : string :=
  match s with
  | EmptyString => EmptyString
  | String c r => String (if p c then " "%char else c) (blankAll p r)
  end.

(** [s.replace(/\s+/g, ' ')]; [inRun] tells that the previous code unit
    belonged to the run of white space being replaced. *)
Fixpoint collapseFrom (inRun : bool) (s : string) : string :=
  match s with
  | EmptyString => EmptyString
  | String c r =>
      if isWhiteSpace c
      then (if inRun then collapseFrom true r
            else String " "%char (collapseFrom true r))
      else String c (collapseFrom false r)
  end.

Definition collapseWhiteSpace (s : string) : string := collapseFrom false s.

Fixpoint trimStart (s : string) : string :=
  match s with
  | EmptyString => EmptyString
  | String c r => if isWhiteSpace c then trimStart r else s
  end.

Fixpoint trimEnd (s : string) : string :=
  match s with
  | EmptyString => EmptyString
  | String c r =>
      match trimEnd r with
      | EmptyString => if isWhiteSpace c then EmptyString else String c EmptyString
      | r' => String c r'
      end
  end.

Definition trim (s : string) : string := trimEnd (trimStart s).

(** [s.includes(needle)]. *)
Fixpoint includes (s needle : string) : bool :=
  prefix needle s ||
  match s with
  | EmptyString => false
  | String _ r => includes r needle
  end.

Fixpoint drop (n : nat) (s : string) : string :=
  match n, s with
  | O, _ => s
  | S _, EmptyString => EmptyString
  | S k, String _ r => drop k r
  end.

Fixpoint take (n : nat) (s : string) : string :=
  match n, s with
  | O, _ => EmptyString
  | S _, EmptyString => EmptyString
  | S k, String c r => String c (take k r)
  end.

(** First offset at or after [pos] at which [needle] occurs, [s] being the
    text from offset [pos] on. *)
Fixpoint findFrom (needle s : string) (pos : nat) : option nat :=
  if prefix needle s then Some pos
  else match s with
       | EmptyString => None
       | String _ r => findFrom needle r (S pos)
       end.

(** [s.indexOf(needle, from)]: the start is clamped to [0 .. s.length], the
    result is [-1] when there is no occurrence. *)
Definition indexOf (s needle : string) (from : Z) : Z :=
  let k := Nat.min (Z.to_nat from) (length s) in
  match findFrom needle (drop k s) k with
  | Some i => Z.of_nat i
  | None => (-1)%Z
  end.

(** [needle] occurs in [s] at offset [k]. *)
Definition occursAt (needle s : string) (k : nat) : Prop :=
  prefix needle (drop k s) = true.

(** [s.substring(a, b)] for [0 <= a] and [0 <= b]: the smaller index is the
    start. *)
Definition substring (a b : nat) (s : string) : string :=
  take (Nat.max a b - Nat.min a b) (drop (Nat.min a b) s).

(** ["\n\n"]. *)
Definition LF : ascii := "010"%char.
Definition doubleNewline : string := String LF (String LF EmptyString).

(** [arr.join(sep)] on strings. *)
Fixpoint join (sep : string) (parts : list string) : string :=
  match parts with
  | [] => EmptyString
  | [x] => x
  | x :: rest => x ++ sep ++ join sep rest
  end.

(** [String(n)] for a natural number. *)
Definition natToString (n : nat) : string :=
  NilEmpty.string_of_uint (Nat.to_uint n).

(** [s.split(sep)] for a one-character separator. *)
Fixpoint split (sep : ascii) (s : string) : list string :=
  match s with
  | EmptyString => [EmptyString]
  | String c r =>
      if Ascii.eqb c sep then EmptyString :: split sep r
      else match split sep r with
           | h :: t => String c h :: t
           | [] => [String c EmptyString]
           end
  end.

(** Truthiness of a string. *)
Definition nonEmpty (s : string) : bool :=
  match s with EmptyString => false | _ => true end.

End JsString.

(** ** Values of static type [any], and completions *)

Module Js.
Import JsString.

(** What [JSON.parse] can build, and [undefined] for what is absent.
    A number is kept as an integer: the code modelled here only tests numbers
    for being zero and for strict equality. *)
#[warnings="-register-all"]
Inductive JsValue : Type :=
| JUndefined
| JNull
| JBool (b : bool)
| JNum (n : Z)
| JStr (s : string)
| JArr (items : list JsValue)
| JObj (fields : list (string * JsValue)).

(** A computation either completes normally or throws an [Error] with a
    message. *)
Inductive Completion (A : Type) : Type :=
| Normal (a : A)
| Throw (message : string).
Arguments Normal {A} a.
Arguments Throw {A} message.

Definition bind {A B} (c : Completion A) (k : A -> Completion B) : Completion B :=
  match c with
  | Normal a => k a
  | Throw m => Throw m
  end.

Definition truthy (v : JsValue) : bool :=
  match v with
  | JUndefined | JNull => false
  | JBool b => b
  | JNum n => negb (n =? 0)%Z
  | JStr s => nonEmpty s
  | JArr _ | JObj _ => true
  end.

(** [a || b]. *)
Definition or (a b : JsValue) : JsValue := if truthy a then a else b.

Fixpoint lookup (k : string) (fields : list (string * JsValue)) : JsValue :=
  match fields with
  | [] => JUndefined
  | (k', v) :: rest => if String.eqb k k' then v else lookup k rest
  end.

(** [v.k] for a [v] that is neither [null] nor [undefined], and for the
    property names the code reads: none of them is defined on the prototypes
    of strings, numbers, booleans or arrays. *)
Definition member (v : JsValue) (k : string) : JsValue :=
  match v with
  | JObj fields => lookup k fields
  | _ => JUndefined
  end.

(** [v.k] in general. *)
Definition get (v : JsValue) (k : string) : Completion JsValue :=
  match v with
  | JUndefined | JNull => Throw "TypeError: Cannot read properties of undefined"
  | _ => Normal (member v k)
  end.

(** [v.toLowerCase()]. *)
Definition callToLowerCase (v : JsValue) : Completion string :=
  match v with
  | JStr s => Normal (toLowerCase s)
  | JUndefined | JNull => Throw "TypeError: Cannot read properties of undefined"
  | _ => Throw "TypeError: toLowerCase is not a function"
  end.

End Js.

Notation "x <- c ;; k" := (Js.bind c (fun x => k))
  (at level 61, c at next level, right associativity).

(** ** The reference record (types-simple.ts)

    The interface declares strings; at run time the fields hold whatever the
    model output or the persisted JSON held, so each field is a [JsValue].
    An absent [firstAuthorAffiliation] is [JUndefined]. *)

Module Types.
Import Js.

Record ExtractedReference : Type := mkReference {
  citationKey : JsValue;
  firstAuthor : JsValue;
  otherAuthors : JsValue;
  title : JsValue;
  year : JsValue;
  publisherJournal : JsValue;
  volumeIssue : JsValue;
  pages : JsValue;
  extraNotes : JsValue;
  isbn : JsValue;
  firstAuthorAffiliation : JsValue;
  referenceRaw : JsValue;
  confidence : JsValue;
  extractionMethod : JsValue
}.

Definition setAffiliation (r : ExtractedReference) (a : JsValue) : ExtractedReference :=
  mkReference (citationKey r) (firstAuthor r) (otherAuthors r) (title r) (year r)
              (publisherJournal r) (volumeIssue r) (pages r) (extraNotes r) (isbn r)
              a (referenceRaw r) (confidence r) (extractionMethod r).

End Types.

(** ** Record store (extraction/masterTable.ts) *)

Module MasterTable.
Import JsString Js Types.

(** The persisted collection, the content of [references.json];
    [loadMasterTable] yields it ([[]] when nothing was saved yet) and
    [saveMasterTable] replaces it. *)
Definition Collection := list ExtractedReference.

(** The replacements and the trimming of [normalizeText], after its first
    step [text.toLowerCase()]. *)
Definition stripLowered (lowered : string) : string :=
  trim (removeAll (fun c => negb (isWordChar c || isWhiteSpace c))
                  (collapseWhiteSpace lowered)).

(** [normalizeText(text)]: its first step is a method call. *)
Definition normalizeText (text : JsValue) : Completion string :=
  lowered <- callToLowerCase text ;;
  Normal (stripLowered lowered).

(** A [Set<string>] with [add] and [has]. *)
Definition StringSet := list string.
Definition has (s : StringSet) (x : string) : bool := existsb (String.eqb x) s.
Definition add (s : StringSet) (x : string) : StringSet := x :: s.

(** The two statements that register one record in the lookup sets. *)
Definition register (ref : ExtractedReference) (sets : StringSet * StringSet)
  : Completion (StringSet * StringSet) :=
  let '(existingKeys, existingRawTexts) := sets in
  existingKeys' <-
    (if truthy (citationKey ref)
     then (k <- callToLowerCase (citationKey ref) ;; Normal (add existingKeys k))
     else Normal existingKeys) ;;
  existingRawTexts' <-
    (if truthy (referenceRaw ref)
     then (t <- normalizeText (referenceRaw ref) ;; Normal (add existingRawTexts t))
     else Normal existingRawTexts) ;;
  Normal (existingKeys', existingRawTexts').

(** [existing.forEach(ref => ...)]. *)
Fixpoint registerAll (existing : list ExtractedReference) (sets : StringSet * StringSet)
  : Completion (StringSet * StringSet) :=
  match existing with
  | [] => Normal sets
  | ref :: rest => sets' <- register ref sets ;; registerAll rest sets'
  end.

(** [(newRef.citationKey && existingKeys.has(...)) ||
     (newRef.referenceRaw && existingRawTexts.has(...))], as a boolean. *)
Definition isDuplicate (newRef : ExtractedReference) (sets : StringSet * StringSet)
  : Completion bool :=
  let '(existingKeys, existingRawTexts) := sets in
  byKey <-
    (if truthy (citationKey newRef)
     then (k <- callToLowerCase (citationKey newRef) ;; Normal (has existingKeys k))
     else Normal false) ;;
  if byKey then Normal true
  else if truthy (referenceRaw newRef)
       then (t <- normalizeText (referenceRaw newRef) ;; Normal (has existingRawTexts t))
       else Normal false.

Record MergeStats : Type := mkStats {
  added : nat;
  duplicates : nat;
  total : nat
}.

Record MergeState : Type := mkMergeState {
  existing : list ExtractedReference;
  sets : StringSet * StringSet;
  addedCount : nat;
  duplicateCount : nat
}.

(** The body of [for (const newRef of newReferences)]. *)
Definition mergeStep (st : MergeState) (newRef : ExtractedReference)
  : Completion MergeState :=
  dup <- isDuplicate newRef (sets st) ;;
  if dup
  then Normal (mkMergeState (existing st) (sets st) (addedCount st) (S (duplicateCount st)))
  else
    sets' <- register newRef (sets st) ;;
    Normal (mkMergeState (existing st ++ [newRef])%list sets' (S (addedCount st)) (duplicateCount st)).

Fixpoint mergeLoop (newReferences : list ExtractedReference) (st : MergeState)
  : Completion MergeState :=
  match newReferences with
  | [] => Normal st
  | newRef :: rest => st' <- mergeStep st newRef ;; mergeLoop rest st'
  end.

(** What the exports of [saveMasterTable] come to for a collection: the CSV
    text of json2csv, the CSV file and the workbook of ExcelJS.  They complete
    or throw, depending on the records. *)
Definition Exporter := Collection -> Completion unit.

(** [saveMasterTable(references)].  The file references.json is written
    first and holds [references] from then on; a collection that is not empty
    is then exported, and a failure of the exports is rethrown.  The file
    system itself is taken to work. *)
Definition saveMasterTable (exports : Exporter) (references : Collection)
  : Completion unit :=
  match references with
  | [] => Normal tt
  | _ => exports references
  end.

(** [addToMasterTable(newReferences)] run on the persisted collection
    [table]: the completion, and the collection persisted afterwards.  The
    table is saved only when the loops complete, and it is persisted also when
    the save then throws. *)
Definition addToMasterTable (exports : Exporter) (newReferences : list ExtractedReference)
    (table : Collection) : Completion MergeStats * Collection :=
  match (sets0 <- registerAll table ([], []) ;;
         mergeLoop newReferences (mkMergeState table sets0 0 0)) with
  | Normal st =>
      ((_ <- saveMasterTable exports (existing st) ;;
        Normal (mkStats (addedCount st) (duplicateCount st) (List.length (existing st)))),
       existing st)
  | Throw m => (Throw m, table)
  end.

(** The collections that call hands to [saveMasterTable], which writes them
    to references.json. *)
Definition writes (newReferences : list ExtractedReference) (table : Collection)
  : list Collection :=
  match (sets0 <- registerAll table ([], []) ;;
         mergeLoop newReferences (mkMergeState table sets0 0 0)) with
  | Normal st => [existing st]
  | Throw _ => []
  end.

End MasterTable.

(** ** Job status, shared by both orchestrators *)

Module Job.

Inductive Status : Type := processing | completed | failed.

End Job.

(** ** Tiered affiliation resolver (enhancement/affiliationFinder.ts) *)

Module AffiliationFinder.
Import JsString.

(** What [findAffiliation] resolves to; [affiliation] is [string | null]. *)
Inductive Confidence : Type := high | medium | low.
Inductive Source : Type :=
| SemanticScholar | Perplexity | OpenAlex | NoSource | ErrorSource | SkippedHistorical.

Record AffiliationResult : Type := mkAffiliationResult {
  affiliation : option string;
  confidence : Confidence;
  source : Source
}.

(** [cleanText]: punctuation to blanks, white space collapsed, trimmed. *)
Definition cleanText (text : string) : string :=
  trim (collapseWhiteSpace (blankAll (fun c => negb (isWordChar c || isWhiteSpace c)) text)).

Definition normalizeAuthorName (name : string) : string :=
  trim (collapseWhiteSpace
          (removeAll (fun c => negb (isWordChar c || isWhiteSpace c))
                     (toLowerCase name))).

(** [parts[0]?.[0] || '']. *)
Definition firstInitial (parts : list string) : string :=
  match parts with
  | String c _ :: _ => String c EmptyString
  | _ => EmptyString
  end.

(** [parts[parts.length - 1]]. *)
Definition lastPart (parts : list string) : string := last parts EmptyString.

Definition authorsMatch (name1 name2 : string) : bool :=
  let n1 := normalizeAuthorName name1 in
  let n2 := normalizeAuthorName name2 in
  if String.eqb n1 n2 then true
  else if includes n1 n2 || includes n2 n1 then true
  else
    let parts1 := split " "%char n1 in
    let parts2 := split " "%char n2 in
    let lastName1 := lastPart parts1 in
    let lastName2 := lastPart parts2 in
    if negb (String.eqb lastName1 lastName2) then false
    else
      let firstInit1 := firstInitial parts1 in
      let firstInit2 := firstInitial parts2 in
      if nonEmpty firstInit1 && nonEmpty firstInit2
         && negb (String.eqb firstInit1 firstInit2)
      then false
      else true.

(** The matching rule as a proposition: equal after normalization, or one
    normalized name contains the other, or equal last tokens with first
    initials that do not contradict each other. *)
Definition matchRule (name1 name2 : string) : Prop :=
  let n1 := normalizeAuthorName name1 in
  let n2 := normalizeAuthorName name2 in
  let parts1 := split " "%char n1 in
  let parts2 := split " "%char n2 in
  n1 = n2 \/
  includes n1 n2 = true \/ includes n2 n1 = true \/
  (lastPart parts1 = lastPart parts2 /\
   (firstInitial parts1 = EmptyString \/ firstInitial parts2 = EmptyString \/
    firstInitial parts1 = firstInitial parts2)).

(** *** The three tiers

    The lookup services are consumed through [fetch]; a response is modelled
    by the fields the code reads from its JSON body. *)

(** [parseInt(s)]: leading white space, a sign, ["0x"] for base 16, then the
    longest run of digits; [None] is [NaN]. *)
Definition digitValue (radix : nat) (c : ascii) : option nat :=
  let n := code c in
  let v := if between 48 57 c then Some (n - 48)
           else if between 97 102 c then Some (n - 87)
           else if between 65 70 c then Some (n - 55)
           else None in
  match v with
  | Some d => if (d <? radix)%nat then Some d else None
  | None => None
  end.

Fixpoint digitsValue (radix : nat) (acc : option Z) (s : string) : option Z :=
  match s with
  | EmptyString => acc
  | String c r =>
      match digitValue radix c with
      | Some d =>
          digitsValue radix
            (Some (match acc with Some a => a | None => 0 end * Z.of_nat radix + Z.of_nat d)%Z) r
      | None => acc
      end
  end.

Definition hasHexPrefix (s : string) : bool :=
  prefix "0x" s || prefix "0X" s.

Definition parseInt (s : string) : option Z :=
  let t := trimStart s in
  let '(negative, body) :=
    match t with
    | String "-"%char r => (true, r)
    | String "+"%char r => (false, r)
    | _ => (false, t)
    end in
  let magnitude :=
    if hasHexPrefix body then digitsValue 16 None (drop 2 body)
    else digitsValue 10 None body in
  option_map (fun m => if negative then (- m)%Z else m) magnitude.

(** Truthiness of a number that may be [NaN]. *)
Definition truthyNumber (n : option Z) : bool :=
  match n with
  | Some z => negb (z =? 0)%Z
  | None => false
  end.

(** What [fetch] and the reading of the body come to. *)
Inductive Response (A : Type) : Type :=
| FetchRejects
| NotOk (status : nat)
| BodyUnreadable
| Body (data : A).
Arguments FetchRejects {A}.
Arguments NotOk {A} status.
Arguments BodyUnreadable {A}.
Arguments Body {A} data.

Inductive Request : Type :=
| SemanticScholarSearch (query : string)
| SemanticScholarAuthor (authorId : string)
| PerplexityChat (authorName title year : string)
| OpenAlexWorks (search : string) (yearFilter : option string).

(** What a run does to the outside world, oldest first. *)
Inductive NetEvent : Type :=
| Delay (ms : nat)
| Fetch (request : Request).

Definition NetLog := list NetEvent.

(** Semantic Scholar: a paper of [data.data], an author of [paper.authors];
    [s2_year] is the integer the reply writes for [year]. *)
Record S2Author : Type := mkS2Author {
  s2_name : option string;
  s2_authorId : option string
}.

Record S2Paper : Type := mkS2Paper {
  s2_year : option Z;
  s2_authors : option (list S2Author)
}.

(** OpenAlex: a work of [data.results], its authorships and institutions. *)
Record Institution : Type := mkInstitution {
  display_name : string;
  country_code : option string
}.

Record Authorship : Type := mkAuthorship {
  author_display_name : option string;
  institutions : option (list Institution)
}.

Record Work : Type := mkWork {
  authorships : option (list Authorship)
}.

(** The services, each reply possibly depending on what happened before.
    [perplexityAnswer] is what [searchPerplexity] makes of the reply to its
    one request, after cleaning and validating the answer text. *)
Record Network : Type := mkNetwork {
  paperSearch : NetLog -> string -> Response (option (list S2Paper));
  authorDetails : NetLog -> string -> Response (option (list string));
  perplexityAnswer : NetLog -> string -> string -> string -> option string;
  worksSearch : NetLog -> string -> option string -> Response (option (list Work))
}.

Record Config : Type := mkConfig {
  PERPLEXITY_API_KEY : string
}.

(** [x || ''] for an optional string. *)
Definition orEmpty (x : option string) : string :=
  match x with Some s => s | None => EmptyString end.

Definition getSemanticScholarAuthorAffiliation (net : Network) (authorId : option string)
    (log : NetLog) : option string * NetLog :=
  match authorId with
  | None => (None, log)
  | Some id =>
      if nonEmpty id
      then
        let log' := (log ++ [Fetch (SemanticScholarAuthor id)])%list in
        match authorDetails net log id with
        | Body (Some (first :: _)) => (Some first, log')
        | _ => (None, log')
        end
      else (None, log)
  end.

(** [for (const author of paper.authors)]. *)
Fixpoint scanAuthors (net : Network) (authorName : string) (authors : list S2Author)
    (log : NetLog) : option string * NetLog :=
  match authors with
  | [] => (None, log)
  | author :: rest =>
      if authorsMatch authorName (orEmpty (s2_name author))
      then
        match getSemanticScholarAuthorAffiliation net (s2_authorId author) log with
        | (Some a, log') =>
            if nonEmpty a then (Some a, log') else scanAuthors net authorName rest log'
        | (None, log') => scanAuthors net authorName rest log'
        end
      else scanAuthors net authorName rest log
  end.

(** The numbers of the year check are IEEE 754 doubles: [parseInt] and
    [JSON.parse] give the double nearest to the integer that is written, and
    the difference of two doubles is the double nearest to their exact
    difference.  [Finite z] is the double whose value is the integer [z]. *)
Inductive Double : Type :=
| Finite (z : Z)
| PosInfinity
| NegInfinity
| NaN.

(** The double nearest to an integer, ties going to the even significand;
    integers up to [2^53] in magnitude are doubles themselves, larger ones
    keep 53 significant bits, and the result overflows at [2^1024]. *)
Definition toDouble (z : Z) : Double :=
  let a := Z.abs z in
  if (a <=? 2 ^ 53)%Z then Finite z
  else
    let e := (Z.log2 a - 52)%Z in
    let q := (a / 2 ^ e)%Z in
    let r := (a mod 2 ^ e)%Z in
    let half := (2 ^ (e - 1))%Z in
    let q' := if (half <? r)%Z || ((r =? half)%Z && Z.odd q) then (q + 1)%Z else q in
    let m := (q' * 2 ^ e)%Z in
    if (2 ^ 1024 <=? m)%Z
    then (if (z <? 0)%Z then NegInfinity else PosInfinity)
    else Finite (if (z <? 0)%Z then (- m)%Z else m).

(** The number a parsed integer is; [None] is [NaN]. *)
Definition asDouble (n : option Z) : Double :=
  match n with
  | Some z => toDouble z
  | None => NaN
  end.

(** [x - y] on doubles with integer values. *)
Definition subtract (x y : Double) : Double :=
  match x, y with
  | NaN, _ => NaN
  | _, NaN => NaN
  | Finite a, Finite b => toDouble (a - b)
  | Finite _, PosInfinity => NegInfinity
  | Finite _, NegInfinity => PosInfinity
  | PosInfinity, PosInfinity => NaN
  | NegInfinity, NegInfinity => NaN
  | PosInfinity, _ => PosInfinity
  | NegInfinity, _ => NegInfinity
  end.

(** [Math.abs(x) > 1]. *)
Definition exceedsOne (x : Double) : bool :=
  match x with
  | Finite z => (1 <? Z.abs z)%Z
  | PosInfinity | NegInfinity => true
  | NaN => false
  end.

(** [year && paper.year && Math.abs(parseInt(year) - paper.year) > 1]. *)
Definition yearMismatch (year : string) (paperYear : option Z) : bool :=
  nonEmpty year && truthyNumber paperYear &&
  exceedsOne (subtract (asDouble (parseInt year)) (asDouble paperYear)).

(** [for (const paper of data.data)]. *)
Fixpoint scanPapers (net : Network) (authorName year : string) (papers : list S2Paper)
    (log : NetLog) : option string * NetLog :=
  match papers with
  | [] => (None, log)
  | paper :: rest =>
      if yearMismatch year (s2_year paper) then scanPapers net authorName year rest log
      else
        match s2_authors paper with
        | Some authors =>
            match scanAuthors net authorName authors log with
            | (Some a, log') => (Some a, log')
            | (None, log') => scanPapers net authorName year rest log'
            end
        | None => scanPapers net authorName year rest log
        end
  end.

Definition searchSemanticScholar (net : Network) (authorName title year : string)
    (log : NetLog) : option string * NetLog :=
  let cleanTitle := substring 0 200 (cleanText title) in
  let log1 := (log ++ [Delay 1000])%list in
  let log2 := (log1 ++ [Fetch (SemanticScholarSearch cleanTitle)])%list in
  match paperSearch net log1 cleanTitle with
  | Body (Some papers) => scanPapers net authorName year papers log2
  | _ => (None, log2)
  end.

Definition searchPerplexity (cfg : Config) (net : Network) (authorName title year : string)
    (log : NetLog) : option string * NetLog :=
  if nonEmpty (PERPLEXITY_API_KEY cfg)
  then (perplexityAnswer net log authorName title year,
        (log ++ [Fetch (PerplexityChat authorName title year)])%list)
  else (None, log).

(** [`${institutionName}${country}`]. *)
Definition affiliationText (institution : Institution) : string :=
  display_name institution ++
  match country_code institution with
  | Some cc => if nonEmpty cc then " (" ++ cc ++ ")" else EmptyString
  | None => EmptyString
  end.

(** [for (const authorship of work.authorships)]. *)
Fixpoint scanAuthorships (targetAuthor : string) (list_ : list Authorship) : option string :=
  match list_ with
  | [] => None
  | authorship :: rest =>
      let authorName := orEmpty (author_display_name authorship) in
      if authorsMatch targetAuthor authorName
      then match institutions authorship with
           | Some (institution :: _) => Some (affiliationText institution)
           | _ => scanAuthorships targetAuthor rest
           end
      else scanAuthorships targetAuthor rest
  end.

(** The authorships a work lists, none when the field is missing. *)
Definition listedAuthorships (work : Work) : list Authorship :=
  match authorships work with Some l => l | None => [] end.

Definition extractAffiliationFromWork (work : Work) (targetAuthor : string) : option string :=
  match authorships work with
  | None | Some [] => None
  | Some list_ => scanAuthorships targetAuthor list_
  end.

Definition searchOpenAlex (net : Network) (authorName title year : string)
    (log : NetLog) : option string * NetLog :=
  let cleanTitle := cleanText title in
  let yearFilter := if nonEmpty year then Some year else None in
  let log' := (log ++ [Fetch (OpenAlexWorks cleanTitle yearFilter)])%list in
  match worksSearch net log cleanTitle yearFilter with
  | Body (Some (work :: _)) => (extractAffiliationFromWork work authorName, log')
  | _ => (None, log')
  end.

Definition truthyResult (r : option string) : bool :=
  match r with Some s => nonEmpty s | None => false end.

(** [findAffiliation(authorName, paperTitle, year)]. *)
Definition findAffiliation (cfg : Config) (net : Network)
    (authorName paperTitle year : string) (log : NetLog) : AffiliationResult * NetLog :=
  if negb (nonEmpty authorName) || negb (nonEmpty paperTitle)
  then (mkAffiliationResult None low OpenAlex, log)
  else
    let yearNum := parseInt year in
    if truthyNumber yearNum
       && match yearNum with Some y => (y <? 1900)%Z | None => false end
    then (mkAffiliationResult None low SkippedHistorical, log)
    else
      let '(semanticResult, log1) := searchSemanticScholar net authorName paperTitle year log in
      if truthyResult semanticResult
      then (mkAffiliationResult semanticResult high SemanticScholar, log1)
      else
        let '(perplexityResult, log2) :=
          if nonEmpty (PERPLEXITY_API_KEY cfg)
          then searchPerplexity cfg net authorName paperTitle year log1
          else (None, log1) in
        if truthyResult perplexityResult
        then (mkAffiliationResult perplexityResult high Perplexity, log2)
        else
          let '(openalexResult, log3) := searchOpenAlex net authorName paperTitle year log2 in
          if truthyResult openalexResult
          then (mkAffiliationResult openalexResult medium OpenAlex, log3)
          else (mkAffiliationResult None low OpenAlex, log3).

End AffiliationFinder.

(** ** Enhancement orchestrator (enhancement/orchestrator.ts) *)

Module Enhancement.
Import JsString Js Types MasterTable AffiliationFinder.

Record EnhancementJob : Type := mkJob {
  jobId : string;
  status : Job.Status;
  progress : nat;
  totalReferences : nat;
  processedReferences : nat;
  enhancedReferences : nat;
  error : option string;
  createdAt : string;
  completedAt : option string
}.

(** The surroundings of a run, over a type [W] of states of the outside
    world: the resolver (which never rejects: it returns a result whatever
    happens), the clock, [Math.round(((i + 1) / n) * 100)], a
    floating-point computation, and the exports of the master table (which
    may throw). *)
Record Env (W : Type) : Type := mkEnv {
  findAffiliation : JsValue -> JsValue -> JsValue -> W -> AffiliationResult * W;
  now : W -> string;
  percent : nat -> nat -> nat;
  exportTable : Exporter
}.
Arguments findAffiliation {W}.
Arguments now {W}.
Arguments percent {W}.
Arguments exportTable {W}.

(** [a === b] for values read from two records of one parsed collection;
    [sameRecord] tells that the two records are one object, the only way for
    two arrays or two objects met there to be identical. *)
Definition strictEquals (sameRecord : bool) (a b : JsValue) : bool :=
  match a, b with
  | JUndefined, JUndefined => true
  | JNull, JNull => true
  | JBool x, JBool y => Bool.eqb x y
  | JNum x, JNum y => (x =? y)%Z
  | JStr x, JStr y => String.eqb x y
  | JArr _, JArr _ => sameRecord
  | JObj _, JObj _ => sameRecord
  | _, _ => false
  end.

(** [references.filter(ref => !ref.firstAuthorAffiliation && ref.firstAuthor)];
    the array holds the very objects of [references], named here by their
    index in it. *)
Definition needs (ref : ExtractedReference) : bool :=
  negb (truthy (firstAuthorAffiliation ref)) && truthy (firstAuthor ref).

Fixpoint needsEnhancementFrom (i : nat) (references : list ExtractedReference) : list nat :=
  match references with
  | [] => []
  | ref :: rest =>
      if needs ref then i :: needsEnhancementFrom (S i) rest
      else needsEnhancementFrom (S i) rest
  end.

Definition needsEnhancement (references : list ExtractedReference) : list nat :=
  needsEnhancementFrom 0 references.

(** [references.findIndex(r => r.citationKey && ref.citationKey &&
    r.citationKey === ref.citationKey)], [ref] being the object at index
    [target]; [None] is [-1]. *)
Fixpoint findIndexFrom (i target : nat) (ref : ExtractedReference)
    (references : list ExtractedReference) : option nat :=
  match references with
  | [] => None
  | r :: rest =>
      if truthy (citationKey r) && truthy (citationKey ref)
         && strictEquals (i =? target)%nat (citationKey r) (citationKey ref)
      then Some i
      else findIndexFrom (S i) target ref rest
  end.

(** [references[i].firstAuthorAffiliation = a]. *)
Fixpoint assignAffiliation (i : nat) (a : JsValue) (references : list ExtractedReference)
  : list ExtractedReference :=
  match references, i with
  | [], _ => []
  | r :: rest, O => setAffiliation r a :: rest
  | r :: rest, S k => r :: assignAffiliation k a rest
  end.

(** The argument of the progress line,
    [ref.citationKey || ref.title?.substring(0, 50)]: the call throws when
    [title] is neither nullish nor a string. *)
Definition progressLabel (ref : ExtractedReference) : Completion unit :=
  if truthy (citationKey ref) then Normal tt
  else match title ref with
       | JUndefined | JNull | JStr _ => Normal tt
       | _ => Throw "ref.title?.substring is not a function"
       end.

Definition placeholder : ExtractedReference :=
  mkReference JUndefined JUndefined JUndefined JUndefined JUndefined JUndefined
              JUndefined JUndefined JUndefined JUndefined JUndefined JUndefined
              JUndefined JUndefined.

(** State of the loop over [needsEnhancement]. *)
Record LoopState (W : Type) : Type := mkLoop {
  references : list ExtractedReference;
  enhanced : nat;
  job : EnhancementJob;
  calls : list (JsValue * JsValue * JsValue);
  world : W
}.
Arguments mkLoop {W}.
Arguments references {W}.
Arguments enhanced {W}.
Arguments job {W}.
Arguments calls {W}.
Arguments world {W}.

Definition setProgress (j : EnhancementJob) (processed enhancedNow pct : nat) : EnhancementJob :=
  mkJob (jobId j) (status j) pct (totalReferences j) processed enhancedNow
        (error j) (createdAt j) (completedAt j).

(** One iteration, for the [i]-th element (from 0) of the [n] elements of
    [needsEnhancement], the object at index [target] of [references]. *)
Definition enhanceOne {W} (env : Env W) (n i target : nat) (st : LoopState W)
  : Completion unit * LoopState W :=
  let ref := nth target (references st) placeholder in
  match progressLabel ref with
  | Throw m => (Throw m, st)
  | Normal _ =>
      let '(result, w') :=
        findAffiliation env (firstAuthor ref) (title ref) (year ref) (world st) in
      let calls' := (calls st ++ [(firstAuthor ref, title ref, year ref)])%list in
      let '(references', enhanced') :=
        match affiliation result with
        | Some a =>
            if nonEmpty a
            then match findIndexFrom 0 target ref (references st) with
                 | Some refIndex =>
                     (assignAffiliation refIndex (JStr a) (references st), S (enhanced st))
                 | None => (references st, enhanced st)
                 end
            else (references st, enhanced st)
        | None => (references st, enhanced st)
        end in
      (Normal tt,
       mkLoop references' enhanced'
              (setProgress (job st) (S i) enhanced' (percent env (S i) n))
              calls' w')
  end.

Fixpoint enhanceLoop {W} (env : Env W) (n i : nat) (targets : list nat) (st : LoopState W)
  : Completion unit * LoopState W :=
  match targets with
  | [] => (Normal tt, st)
  | target :: rest =>
      match enhanceOne env n i target st with
      | (Normal _, st') => enhanceLoop env n (S i) rest st'
      | (Throw m, st') => (Throw m, st')
      end
  end.

(** What a run leaves behind: the job as a poll sees it, the persisted
    collection, the collections handed to [saveMasterTable] (and written by it
    to references.json), the resolver calls made, and how
    [processEnhancement] completed. *)
Record Run (W : Type) : Type := mkRun {
  finalJob : EnhancementJob;
  table : Collection;
  saved : list Collection;
  resolverCalls : list (JsValue * JsValue * JsValue);
  finalWorld : W;
  completion : Completion unit
}.
Arguments mkRun {W}.
Arguments finalJob {W}.
Arguments table {W}.
Arguments saved {W}.
Arguments resolverCalls {W}.
Arguments finalWorld {W}.
Arguments completion {W}.

Definition setTotal (j : EnhancementJob) (t : nat) : EnhancementJob :=
  mkJob (jobId j) (status j) (progress j) t (processedReferences j)
        (enhancedReferences j) (error j) (createdAt j) (completedAt j).

Definition markCompleted (j : EnhancementJob) (at_ : string) : EnhancementJob :=
  mkJob (jobId j) Job.completed 100 (totalReferences j) (processedReferences j)
        (enhancedReferences j) (error j) (createdAt j) (Some at_).

Definition markFailed (j : EnhancementJob) (message at_ : string) : EnhancementJob :=
  mkJob (jobId j) Job.failed (progress j) (totalReferences j) (processedReferences j)
        (enhancedReferences j) (Some message) (createdAt j) (Some at_).

(** [processEnhancement(jobId)] for a registered job [j0], on the persisted
    collection [table0]. *)
Definition processEnhancement {W} (env : Env W) (j0 : EnhancementJob)
    (table0 : Collection) (w0 : W) : Run W :=
  let refs := table0 in                                   (* loadMasterTable() *)
  let j1 := setTotal j0 (List.length refs) in
  match refs with
  | [] =>
      let m := "No references found in master table" in
      mkRun (markFailed j1 m (now env w0)) table0 [] [] w0 (Throw m)
  | _ =>
      let targets := needsEnhancement refs in
      match targets with
      | [] => mkRun (markCompleted j1 (now env w0)) table0 [] [] w0 (Normal tt)
      | _ =>
          match enhanceLoop env (List.length targets) 0 targets
                            (mkLoop refs 0 j1 [] w0) with
          | (Normal _, st) =>
              (* saveMasterTable(references): the table is written, then exported *)
              match saveMasterTable (exportTable env) (references st) with
              | Normal _ =>
                  mkRun (markCompleted (job st) (now env (world st)))
                        (references st) [references st] (calls st) (world st) (Normal tt)
              | Throw m =>
                  mkRun (markFailed (job st) m (now env (world st)))
                        (references st) [references st] (calls st) (world st) (Throw m)
              end
          | (Throw m, st) =>
              mkRun (markFailed (job st) m (now env (world st)))
                    table0 [] (calls st) (world st) (Throw m)
          end
      end
  end.

(** [startEnhancement()]: registers the job and runs [processEnhancement]
    in the background; a rejection is recorded on the job once more. *)
Definition newJob (id at_ : string) : EnhancementJob :=
  mkJob id Job.processing 0 0 0 0 None at_ None.

Definition startEnhancement {W} (env : Env W) (id : string)
    (table0 : Collection) (w0 : W) : string * Run W :=
  let r := processEnhancement env (newJob id (now env w0)) table0 w0 in
  match completion r with
  | Normal _ => (id, r)
  | Throw m =>
      (id, mkRun (markFailed (finalJob r) m (now env (finalWorld r)))
                 (table r) (saved r) (resolverCalls r) (finalWorld r) (Normal tt))
  end.

End Enhancement.

(** ** Model-backed extractor (extraction/llmBatchExtractor.ts) *)

Module LlmBatchExtractor.
Import JsString Js Types.

(** What [openai.chat.completions.create] comes back with: a rejection, or a
    response whose [choices[0]?.message?.content] is a string or is absent. *)
Inductive ModelReply : Type :=
| Rejects (message : string)
| Replies (content : option string).

(** The log of the user messages sent to the model, oldest first. *)
Definition CallLog := list string.

(** The surroundings: the client ([None] when no API key is configured), with
    a reply that may depend on the calls made before, and [JSON.parse]. *)
Record Runtime : Type := mkRuntime {
  openai : option (CallLog -> string -> ModelReply);
  JSON_parse : string -> Completion JsValue
}.

Definition maxChars : nat := 15000.

Definition userContent (textToProcess : string) : string :=
  "Extract all bibliographic references from the following text:"
    ++ doubleNewline ++ textToProcess.

(** [content.match(/\[[\s\S]*\]/)?.[0]]: from the first ['['] to the last
    [']'] after it. *)
Fixpoint uptoLastBracket (s : string) : option string :=
  match s with
  | EmptyString => None
  | String c r =>
      match uptoLastBracket r with
      | Some t => Some (String c t)
      | None => if Ascii.eqb c "]"%char then Some (String c EmptyString) else None
      end
  end.

Fixpoint matchBracketed (s : string) : option string :=
  match s with
  | EmptyString => None
  | String c r =>
      if Ascii.eqb c "["%char
      then option_map (String c) (uptoLastBracket r)
      else matchBracketed r
  end.

(** [JSON.parse(content)] and the recovery ladder of its [catch]. *)
Definition parseWithRecovery (rt : Runtime) (content : string) : Completion JsValue :=
  match JSON_parse rt content with
  | Normal parsed => Normal parsed
  | Throw e =>
      match JSON_parse rt (trim content ++ "]}") with
      | Normal parsed => Normal parsed
      | Throw _ =>
          match matchBracketed content with
          | Some m =>
              match JSON_parse rt m with
              | Normal arr => Normal (JObj [("references", arr)])
              | Throw _ => Throw ("Invalid JSON response from LLM (tried recovery): " ++ e)
              end
          | None => Throw ("Invalid JSON response from LLM (tried recovery): " ++ e)
          end
      end
  end.

(** "Handle both direct array and wrapped object formats". *)
Definition referencesArrayOf (parsed : JsValue) : Completion (list JsValue) :=
  match parsed with
  | JArr items => Normal items
  | _ =>
      refs <- get parsed "references" ;;
      match refs with
      | JArr items => Normal items
      | _ =>
          its <- get parsed "items" ;;
          match its with
          | JArr items => Normal items
          | _ => Throw "LLM did not return an array of references"
          end
      end
  end.

(** The callback of [referencesArray.map]: reading a property of [ref]
    throws when [ref] is [null], and only then. *)
Definition toReference (ref : JsValue) (index : nat) : Completion ExtractedReference :=
  _ <- get ref "citationKey" ;;
  Normal {|
    citationKey :=
      or (member ref "citationKey")
         (or (member ref "key") (JStr ("Ref-" ++ natToString (index + 1))));
    firstAuthor := or (member ref "firstAuthor") (or (member ref "first_author") (JStr ""));
    otherAuthors := or (member ref "otherAuthors") (or (member ref "other_authors") (JStr ""));
    title := or (member ref "title") (JStr "");
    year := or (member ref "year") (JStr "");
    publisherJournal :=
      or (member ref "publisherJournal")
         (or (member ref "publisher") (or (member ref "journal") (JStr "")));
    volumeIssue := or (member ref "volumeIssue") (or (member ref "volume") (JStr ""));
    pages := or (member ref "pages") (JStr "");
    extraNotes := or (member ref "extraNotes") (or (member ref "notes") (JStr ""));
    isbn := or (member ref "isbn") (JStr "");
    firstAuthorAffiliation := JUndefined;
    referenceRaw := or (member ref "referenceRaw") (or (member ref "raw") (JStr ""));
    confidence := JStr "high";
    extractionMethod := JStr "llm"
  |}.

Fixpoint mapReferences (referencesArray : list JsValue) (index : nat)
  : Completion (list ExtractedReference) :=
  match referencesArray with
  | [] => Normal []
  | ref :: rest =>
      r <- toReference ref index ;;
      rs <- mapReferences rest (S index) ;;
      Normal (r :: rs)
  end.

(** The predicate of "Filter out any invalid references". *)
Definition isValid (ref : ExtractedReference) : Completion bool :=
  if truthy (citationKey ref)
  then
    lowered <- callToLowerCase (citationKey ref) ;;
    if includes lowered "unknown" then Normal false
    else Normal (truthy (or (title ref) (firstAuthor ref)))
  else Normal false.

Fixpoint filterValid (references : list ExtractedReference)
  : Completion (list ExtractedReference) :=
  match references with
  | [] => Normal []
  | ref :: rest =>
      keep <- isValid ref ;;
      rs <- filterValid rest ;;
      Normal (if keep then ref :: rs else rs)
  end.

(** The path for a text within the budget: one call, then parsing, mapping
    and filtering; the second component is the call log afterwards. *)
Definition extractOnce (rt : Runtime) (create : CallLog -> string -> ModelReply)
    (fullText : string) (log : CallLog) : Completion (list ExtractedReference) * CallLog :=
  let message := userContent fullText in
  let log' := (log ++ [message])%list in
  match create log message with
  | Rejects m => (Throw m, log')
  | Replies None => (Throw "No response from LLM", log')
  | Replies (Some content) =>
      if nonEmpty content
      then (parsed <- parseWithRecovery rt content ;;
            referencesArray <- referencesArrayOf parsed ;;
            references <- mapReferences referencesArray 0 ;;
            filterValid references,
            log')
      else (Throw "No response from LLM", log')
  end.

(** The position at which the chunk starting at [currentPos] ends: the
    statements of the loop body that compute [endPos]. *)
Definition chunkEnd (fullText : string) (chunkSize currentPos : nat) : nat :=
  let endPos := Nat.min (currentPos + chunkSize) (length fullText) in
  if (endPos <? length fullText)%nat
  then
    let nextBreak := indexOf fullText doubleNewline (Z.of_nat endPos - 500) in
    if ((nextBreak >? Z.of_nat endPos - 500) && (nextBreak <? Z.of_nat endPos + 500))%Z
    then Z.to_nat nextBreak
    else endPos
  else endPos.

(** The [while] loop of [extractInChunks]; [None] when [fuel] iterations
    were not enough. *)
Fixpoint splitLoop (fuel : nat) (fullText : string) (chunkSize currentPos : nat)
  : option (list string) :=
  if (currentPos <? length fullText)%nat
  then
    match fuel with
    | O => None
    | S fuel' =>
        let endPos := chunkEnd fullText chunkSize currentPos in
        option_map (cons (substring currentPos endPos fullText))
                   (splitLoop fuel' fullText chunkSize endPos)
    end
  else Some [].

(** "Deduplicate across chunks": the [filter] with the [seen] set. *)
Fixpoint dedupe (seen : list string) (allReferences : list ExtractedReference)
  : Completion (list ExtractedReference) :=
  match allReferences with
  | [] => Normal []
  | ref :: rest =>
      key <- callToLowerCase (citationKey ref) ;;
      if existsb (String.eqb key) seen
      then dedupe seen rest
      else (rs <- dedupe (key :: seen) rest ;; Normal (ref :: rs))
  end.

Section Chunks.
(** [extract] stands for the recursive call
    [extractAllReferencesWithLLM(chunks[i])]; it yields [None] when the
    recursion was cut off. *)
Variable extract : string -> CallLog -> option (list ExtractedReference * CallLog).

Fixpoint extractEach (chunks : list string) (log : CallLog)
  : option (list ExtractedReference * CallLog) :=
  match chunks with
  | [] => Some ([], log)
  | chunk :: rest =>
      match extract chunk log with
      | None => None
      | Some (chunkRefs, log') =>
          match extractEach rest log' with
          | None => None
          | Some (others, log'') => Some ((chunkRefs ++ others)%list, log'')
          end
      end
  end.

Definition extractInChunks (fullText : string) (chunkSize : nat) (log : CallLog)
  : option (Completion (list ExtractedReference) * CallLog) :=
  match splitLoop (length fullText) fullText chunkSize 0 with
  | None => None
  | Some chunks =>
      match extractEach chunks log with
      | None => None
      | Some (allReferences, log') => Some (dedupe [] allReferences, log')
      end
  end.
End Chunks.

(** [extractAllReferencesWithLLM(fullText)]: the references it resolves to
    and the call log afterwards.  [depth] bounds the nesting of the recursion
    through [extractInChunks]; [None] when it was not enough. *)
Fixpoint extractAllReferencesWithLLM (depth : nat) (rt : Runtime) (fullText : string)
    (log : CallLog) : option (list ExtractedReference * CallLog) :=
  match openai rt with
  | None => Some ([], log)
  | Some create =>
      let attempt : option (Completion (list ExtractedReference) * CallLog) :=
        if (maxChars <? length fullText)%nat
        then
          match depth with
          | O => None
          | S depth' =>
              extractInChunks (extractAllReferencesWithLLM depth' rt) fullText maxChars log
          end
        else Some (extractOnce rt create fullText log) in
      match attempt with
      | None => None
      | Some (Normal validReferences, log') => Some (validReferences, log')
      | Some (Throw _, log') => Some ([], log')
      end
  end.

End LlmBatchExtractor.

(** ** Extraction orchestrator (extraction/orchestrator.ts) *)

Module Orchestrator.
Import JsString Js Types MasterTable LlmBatchExtractor.

Record ExtractionJob : Type := mkJob {
  jobId : string;
  status : Job.Status;
  progress : nat;
  totalReferences : nat;
  extractedReferences : list ExtractedReference;
  error : option string;
  createdAt : string;
  completedAt : option string
}.

(** An entry of the in-memory [jobProgress] map. *)
Record Progress : Type := mkProgress {
  p_status : Job.Status;
  p_progress : nat;
  currentStep : string
}.

Record ExtractionRequest : Type := mkRequest {
  pdfBuffer : option string
}.

(** A page as [extractPdfSmart] returns it. *)
Record Page : Type := mkPage {
  page : nat;
  text : string;
  isOcr : bool
}.

(** The surroundings: the model runtime, the page-text collaborator (which
    may throw), [randomUUID()], the clock, and the exports of the master
    table (which may throw). *)
Record Env : Type := mkEnv {
  runtime : Runtime;
  extractPdfSmart : string -> Completion (list Page);
  randomUUID : string;
  now : string;
  exportTable : Exporter
}.

(** Everything a job can touch: the job files ([saveJob] / [loadJob]), the
    [jobProgress] map, the persisted master table with the collections handed
    to [saveMasterTable] (and written by it to references.json), and the log
    of model calls. *)
Record World : Type := mkWorld {
  jobFiles : list (string * ExtractionJob);
  jobProgress : list (string * Progress);
  masterTable : Collection;
  tableSaves : list Collection;
  modelCalls : CallLog
}.

Fixpoint loadFrom {A} (files : list (string * A)) (id : string) : option A :=
  match files with
  | [] => None
  | (k, v) :: rest => if String.eqb id k then Some v else loadFrom rest id
  end.

Definition loadJob (w : World) (id : string) : option ExtractionJob :=
  loadFrom (jobFiles w) id.

Definition saveJob (job : ExtractionJob) (w : World) : World :=
  mkWorld ((jobId job, job) :: jobFiles w) (jobProgress w) (masterTable w)
          (tableSaves w) (modelCalls w).

Definition getProgress (w : World) (id : string) : option Progress :=
  loadFrom (jobProgress w) id.

Definition updateJobProgress (id : string) (st : Job.Status) (pct : nat) (step : string)
    (w : World) : World :=
  mkWorld (jobFiles w) ((id, mkProgress st pct step) :: jobProgress w) (masterTable w)
          (tableSaves w) (modelCalls w).

Definition withModelCalls (log : CallLog) (w : World) : World :=
  mkWorld (jobFiles w) (jobProgress w) (masterTable w) (tableSaves w) log.

Definition withMasterTable (table : Collection) (w : World) : World :=
  mkWorld (jobFiles w) (jobProgress w) table (tableSaves w ++ [table])%list (modelCalls w).

(** [pages.map(p => p.text).join('\n\n')]. *)
Definition fullTextOf (pages : list Page) : string :=
  join doubleNewline (map text pages).

(** [processExtraction(jobId, request)]: how it completes and the world
    afterwards; [None] when [depth] did not cover the extractor's recursion. *)
Definition processExtraction (depth : nat) (env : Env) (id : string)
    (request : ExtractionRequest) (w : World) : option (Completion unit * World) :=
  let w1 := updateJobProgress id Job.processing 10 "extracting text from PDF" w in
  match pdfBuffer request with
  | None => Some (Throw "No PDF buffer provided", w1)
  | Some buffer =>
      match extractPdfSmart env buffer with
      | Throw m => Some (Throw m, w1)
      | Normal pages =>
          let fullText := fullTextOf pages in
          let w2 := updateJobProgress id Job.processing 30 "text extraction complete" w1 in
          let w3 := updateJobProgress id Job.processing 40 "LLM processing references" w2 in
          match extractAllReferencesWithLLM depth (runtime env) fullText (modelCalls w3) with
          | None => None
          | Some (references, log') =>
              let w4 := withModelCalls log' w3 in
              match references with
              | [] => Some (Throw "No references were extracted from the text", w4)
              | _ =>
                  let w5 := updateJobProgress id Job.processing 90 "extraction complete" w4 in
                  match addToMasterTable (exportTable env) references (masterTable w5) with
                  | (Throw m, table') =>
                      (* a save that throws has written the table already *)
                      match writes references (masterTable w5) with
                      | [] => Some (Throw m, w5)
                      | _ => Some (Throw m, withMasterTable table' w5)
                      end
                  | (Normal masterStats, table') =>
                      let w6 := withMasterTable table' w5 in
                      let w7 :=
                        match loadJob w6 id with
                        | Some job =>
                            saveJob (mkJob (jobId job) Job.completed 100
                                           (total masterStats) references (error job)
                                           (createdAt job) (Some (now env))) w6
                        | None => w6
                        end in
                      Some (Normal tt, updateJobProgress id Job.completed 100 "done" w7)
                  end
              end
          end
      end
  end.

(** [startExtraction(request)]: the job is saved, the pipeline runs in the
    background and its rejection is handled by the [catch] callback; the call
    itself resolves to the job identifier. *)
Definition startExtraction (depth : nat) (env : Env) (request : ExtractionRequest)
    (w : World) : option (Completion string * World) :=
  let id := randomUUID env in
  let job := mkJob id Job.processing 0 0 [] None (now env) None in
  let w1 := saveJob job w in
  let w2 := updateJobProgress id Job.processing 0 "initializing" w1 in
  match processExtraction depth env id request w2 with
  | None => None
  | Some (Normal _, w') => Some (Normal id, w')
  | Some (Throw m, w') =>
      let w3 := updateJobProgress id Job.failed 100 "error" w' in
      let w4 :=
        match loadJob w3 id with
        | Some failedJob =>
            saveJob (mkJob (jobId failedJob) Job.failed (progress failedJob)
                           (totalReferences failedJob) (extractedReferences failedJob)
                           (Some m) (createdAt failedJob) (Some (now env))) w3
        | None => w3
        end in
      Some (Normal id, w4)
  end.

(** [getResult(jobId)]. *)
Definition getResult (w : World) (id : string) : option ExtractionJob := loadJob w id.

End Orchestrator.

(** ** Sample surroundings, used to run the definitions on concrete inputs *)

Module Samples.
Import JsString Js Types AffiliationFinder.

(** No credential for tier 2, and services that cannot be reached. *)
Definition offlineConfig : Config := mkConfig EmptyString.

Definition offlineNetwork : Network :=
  mkNetwork (fun _ _ => FetchRejects) (fun _ _ => FetchRejects)
            (fun _ _ _ _ => None) (fun _ _ _ => FetchRejects).

(** An OpenAlex index whose top hit for any title lists one author,
    "Norbert Wiener", at MIT. *)
Definition wienerWork : Work :=
  mkWork (Some [mkAuthorship (Some "Norbert Wiener")
                             (Some [mkInstitution "MIT" (Some "US")])]).

Definition wienerNetwork : Network :=
  mkNetwork (fun _ _ => FetchRejects) (fun _ _ => FetchRejects)
            (fun _ _ _ _ => None) (fun _ _ _ => Body (Some [wienerWork])).

End Samples.

(** ** Statement-level notions for the enhancement run *)

Module EnhancementSpec.
Import JsString Js Types AffiliationFinder Enhancement.

(** Two records that agree on every field but [firstAuthorAffiliation]. *)
Definition sameButAffiliation (r r' : ExtractedReference) : Prop :=
  citationKey r = citationKey r' /\
  firstAuthor r = firstAuthor r' /\
  otherAuthors r = otherAuthors r' /\
  title r = title r' /\
  year r = year r' /\
  publisherJournal r = publisherJournal r' /\
  volumeIssue r = volumeIssue r' /\
  pages r = pages r' /\
  extraNotes r = extraNotes r' /\
  isbn r = isbn r' /\
  referenceRaw r = referenceRaw r' /\
  Types.confidence r = Types.confidence r' /\
  extractionMethod r = extractionMethod r'.

(** A resolver that finds nothing, a fixed clock, and the percentage
    rounded half up. *)
Definition idleEnv : Env unit :=
  mkEnv unit
        (fun _ _ _ w => (mkAffiliationResult None low OpenAlex, w))
        (fun _ => "2025-01-01T00:00:00.000Z")
        (fun i n => (200 * i + n) / (2 * n))
        (fun _ => Normal tt).

(** A resolver that answers "MIT (US)" to every request. *)
Definition mitEnv : Env unit :=
  mkEnv unit
        (fun _ _ _ w => (mkAffiliationResult (Some "MIT (US)") high SemanticScholar, w))
        (fun _ => "2025-01-01T00:00:00.000Z")
        (fun i n => (200 * i + n) / (2 * n))
        (fun _ => Normal tt).

(** The resolver of [AffiliationFinder] as the surroundings of a run, the
    outside world being the log of delays and requests.  [findAffiliation] is
    modelled on arguments of its declared type [string]; on any other value
    this instance answers that nothing was found. *)
Definition resolverEnv (cfg : Config) (net : Network) : Env NetLog :=
  mkEnv NetLog
        (fun authorName paperTitle year log =>
           match authorName, paperTitle, year with
           | JStr a, JStr t, JStr y => AffiliationFinder.findAffiliation cfg net a t y log
           | _, _, _ => (mkAffiliationResult None low OpenAlex, log)
           end)
        (fun _ => "2025-01-01T00:00:00.000Z")
        (fun i n => (200 * i + n) / (2 * n))
        (fun _ => Normal tt).

Definition sampleReference (key author affiliation : string) : ExtractedReference :=
  mkReference (JStr key) (JStr author) (JStr "") (JStr "A title") (JStr "1979")
              (JStr "") (JStr "") (JStr "") (JStr "") (JStr "")
              (if nonEmpty affiliation then JStr affiliation else JUndefined)
              (JStr "") (JStr "high") (JStr "llm").

End EnhancementSpec.

(** ** Statement-level notions for the record store *)

Module MasterTableSpec.
Import JsString Js Types MasterTable.

(** A record "has a citationKey": the field is a non-empty string. *)
Definition hasCitationKey (r : ExtractedReference) : Prop :=
  exists k, citationKey r = JStr k /\ k <> EmptyString.

(** A field as the store can compare it: a string, or a falsy value (an
    absent or empty field).  On anything else the method calls of the merge
    throw. *)
Definition textOrAbsent (v : JsValue) : Prop :=
  match v with
  | JStr _ => True
  | _ => truthy v = false
  end.

Definition storable (r : ExtractedReference) : Prop :=
  textOrAbsent (citationKey r) /\ textOrAbsent (referenceRaw r).

(** The case-folded citation key and the normalized raw text of a record,
    when there is one to compare. *)
Definition keyText (r : ExtractedReference) : option string :=
  match citationKey r with
  | JStr k => if nonEmpty k then Some (toLowerCase k) else None
  | _ => None
  end.

Definition rawText (r : ExtractedReference) : option string :=
  match referenceRaw r with
  | JStr t => if nonEmpty t then Some (stripLowered (toLowerCase t)) else None
  | _ => None
  end.

Definition agree (a b : option string) : bool :=
  match a, b with
  | Some x, Some y => String.eqb x y
  | _, _ => false
  end.

(** "It is a duplicate if its citationKey (case-insensitive) or normalized
    referenceRaw text matches an existing record". *)
Definition matches (r e : ExtractedReference) : bool :=
  agree (keyText r) (keyText e) || agree (rawText r) (rawText e).

Definition isDuplicateOf (collection : list ExtractedReference) (r : ExtractedReference) : bool :=
  existsb (matches r) collection.

(** "Duplicates are skipped; non-duplicates are appended": the merge as the
    specification words it, with the two counters. *)
Fixpoint mergeBySpec (collection incoming : list ExtractedReference)
    (addedSoFar duplicatesSoFar : nat) : list ExtractedReference * nat * nat :=
  match incoming with
  | [] => (collection, addedSoFar, duplicatesSoFar)
  | r :: rest =>
      if isDuplicateOf collection r
      then mergeBySpec collection rest addedSoFar (S duplicatesSoFar)
      else mergeBySpec (collection ++ [r])%list rest (S addedSoFar) duplicatesSoFar
  end.

(** The lookup sets, related to the collection they stand for. *)
Definition addKey (r : ExtractedReference) (ks : StringSet) : StringSet :=
  match keyText r with Some k => k :: ks | None => ks end.

Definition addRaw (r : ExtractedReference) (rs : StringSet) : StringSet :=
  match rawText r with Some t => t :: rs | None => rs end.

(** The sets mirror the collection they were built from. *)
Definition mirrors (collection : list ExtractedReference) (s : StringSet * StringSet) : Prop :=
  (forall x, has (fst s) x = true <-> exists e, In e collection /\ keyText e = Some x) /\
  (forall x, has (snd s) x = true <-> exists e, In e collection /\ rawText e = Some x).

(** What the duplicate test answers when it completes. *)
Definition duplicateIn (r : ExtractedReference) (s : StringSet * StringSet) : bool :=
  match keyText r with Some k => has (fst s) k | None => false end
  || match rawText r with Some t => has (snd s) t | None => false end.

(** One pair of lookup sets within another. *)
Definition within (s s' : StringSet * StringSet) : Prop :=
  (forall x, has (fst s) x = true -> has (fst s') x = true) /\
  (forall x, has (snd s) x = true -> has (snd s') x = true).

(** Exports that complete, and exports that fail as ExcelJS does on a cell
    value it cannot write. *)
Definition quietExports : Exporter := fun _ => Normal tt.

Definition failingExports : Exporter :=
  fun _ => Throw "Shared Formula master must exist above and or left of clone".

Definition keyed (key raw : string) : ExtractedReference :=
  mkReference (JStr key) (JStr "An author") (JStr "") (JStr "A title") (JStr "1979")
              (JStr "") (JStr "") (JStr "") (JStr "") (JStr "")
              JUndefined (JStr raw) (JStr "high") (JStr "llm").

End MasterTableSpec.

(** ** Statement-level notions for the extractor *)

Module ExtractorSpec.
Import JsString Js Types LlmBatchExtractor.

(** A paragraph boundary: a double newline starting at offset [k]. *)
Definition paragraphBreakAt (text : string) (k : nat) : Prop :=
  occursAt doubleNewline text k.

(** Where a chunk starting at [pos] may end at [e], [ideal] being
    [pos + chunkSize]: the rest of the text when it fits; otherwise, unless a
    double newline sits exactly 500 characters before the ideal point, the
    first double newline less than 500 characters away from the ideal point
    when there is one, and the ideal point when there is none. *)
Definition cutRule (text : string) (chunkSize pos e : nat) : Prop :=
  let ideal := pos + chunkSize in
  (length text <= ideal -> e = length text) /\
  (ideal < length text ->
   ~ paragraphBreakAt text (ideal - 500) ->
   ((exists k, ideal - 500 < k /\ k < ideal + 500 /\ paragraphBreakAt text k) ->
    ideal - 500 < e /\ e < ideal + 500 /\ paragraphBreakAt text e /\
    forall k, ideal - 500 < k -> k < e -> ~ paragraphBreakAt text k) /\
   ((forall k, ideal - 500 < k -> k < ideal + 500 -> ~ paragraphBreakAt text k) ->
    e = ideal)).

(** [chunks] cuts the text from [pos] on into consecutive non-empty pieces,
    each cut following [cutRule]. *)
Inductive chunksFrom (text : string) (chunkSize : nat) : nat -> list string -> Prop :=
| chunks_end (pos : nat) :
    length text <= pos -> chunksFrom text chunkSize pos []
| chunks_cut (pos e : nat) (rest : list string) :
    pos < length text -> pos < e -> e <= length text ->
    cutRule text chunkSize pos e ->
    chunksFrom text chunkSize e rest ->
    chunksFrom text chunkSize pos (substring pos e text :: rest).

(** The user messages sent for one chunk: one when it is within the budget,
    two when it is longer (it is then cut once more, at the budget). *)
Definition messagesFor (chunk : string) : list string :=
  if (maxChars <? length chunk)%nat
  then [userContent (take maxChars chunk); userContent (drop maxChars chunk)]
  else [userContent chunk].

(** The case-folded citation key of a reference. *)
Definition foldedKey (r : ExtractedReference) : string :=
  match citationKey r with
  | JStr k => toLowerCase k
  | _ => EmptyString
  end.

(** "Deduplicated by case-insensitive citationKey, first occurrence kept":
    a reference stays exactly when no reference before it, kept or not, has
    the same case-folded key. *)
Fixpoint firstOccurrences (before rest : list ExtractedReference) : list ExtractedReference :=
  match rest with
  | [] => []
  | r :: rest' =>
      if existsb (fun r' => String.eqb (foldedKey r) (foldedKey r')) before
      then firstOccurrences (before ++ [r])%list rest'
      else r :: firstOccurrences (before ++ [r])%list rest'
  end.

(** What the [catch] of the extractor makes of a completion. *)
Definition settle (c : Completion (list ExtractedReference)) : list ExtractedReference :=
  match c with
  | Normal references => references
  | Throw _ => []
  end.

(** The per-chunk results of extracting [chunks] one after the other with
    [extract], each call starting from the log the previous one left. *)
Inductive chunkResults (extract : string -> CallLog -> option (list ExtractedReference * CallLog))
  : list string -> CallLog -> list (list ExtractedReference) -> CallLog -> Prop :=
| results_nil (log : CallLog) : chunkResults extract [] log [] log
| results_cons (chunk : string) (rest : list string) (log log1 log2 : CallLog)
    (r : list ExtractedReference) (rs : list (list ExtractedReference)) :
    extract chunk log = Some (r, log1) ->
    chunkResults extract rest log1 rs log2 ->
    chunkResults extract (chunk :: rest) log (r :: rs) log2.

(** What the post-filter lets through. *)
Definition validReference (r : ExtractedReference) : Prop :=
  exists k,
    citationKey r = JStr k /\ k <> EmptyString /\
    includes (toLowerCase k) "unknown" = false /\
    (truthy (title r) = true \/ truthy (firstAuthor r) = true).

(** The [seen] set holds the case-folded keys of the references [before]. *)
Definition sameKeys (seen : list string) (before : list ExtractedReference) : Prop :=
  forall x, In x seen <-> exists r, In r before /\ foldedKey r = x.

(** A chunk as the loop produces them: non-empty, less than 500 characters
    over the budget, and when over it without a double newline from 500
    characters before the budget on. *)
Definition loopChunk (c : string) : Prop :=
  0 < length c /\ length c <= maxChars + 499 /\
  (maxChars < length c -> forall k, maxChars - 500 <= k -> ~ paragraphBreakAt c k).

(** A text of [n] copies of ["a"]. *)
Fixpoint filler (n : nat) : string :=
  match n with
  | O => EmptyString
  | S k => String "a"%char (filler k)
  end.

End ExtractorSpec.

(** ** Sample surroundings for extraction jobs *)

Module ExtractionSamples.
Import JsString Js Types LlmBatchExtractor ExtractorSpec Orchestrator.

(** A client whose every call is rejected, and a parser that accepts
    nothing. *)
Definition deafRuntime : Runtime :=
  mkRuntime (Some (fun _ _ => Rejects "connection refused"))
            (fun _ => Throw "Unexpected token").

(** No API key. *)
Definition unconfiguredRuntime : Runtime :=
  mkRuntime None (fun _ => Throw "Unexpected token").

(** A client that answers every call with one reference, and a parser that
    knows that answer. *)
Definition quoted (s : string) : string :=
  (String "034"%char s ++ String "034"%char EmptyString)%string.

Definition hillAnswer : string :=
  ("{" ++ quoted "references" ++ ":[{"
       ++ quoted "citationKey" ++ ":" ++ quoted "Hill '79" ++ ","
       ++ quoted "title" ++ ":" ++ quoted "T" ++ ","
       ++ quoted "firstAuthor" ++ ":" ++ quoted "A" ++ "}]}")%string.

Definition hillValue : JsValue :=
  JObj [("references",
         JArr [JObj [("citationKey", JStr "Hill '79"); ("title", JStr "T");
                     ("firstAuthor", JStr "A")]])].

Definition hillRuntime : Runtime :=
  mkRuntime (Some (fun _ _ => Replies (Some hillAnswer)))
            (fun s => if String.eqb s hillAnswer then Normal hillValue
                      else Throw "Unexpected token").

(** A text beyond the budget whose only double newline comes 100 characters
    after the ideal split point. *)
Definition lateBreakText : string :=
  (filler 15100 ++ doubleNewline ++ filler 98)%string.

(** A text beyond the budget with a double newline exactly 500 characters
    before the ideal split point and another one 100 characters later. *)
Definition maskedBreakText : string :=
  (filler 14500 ++ doubleNewline ++ filler 98 ++ doubleNewline ++ filler 1000)%string.

Definition emptyWorld : World := mkWorld [] [] [] [] [].

Definition onePage (t : string) : string -> Completion (list Page) :=
  fun _ => Normal [mkPage 1 t false].

Definition sampleEnv (rt : Runtime) (t : string) : Env :=
  mkEnv rt (onePage t) "job-1" "2025-01-01T00:00:00.000Z" (fun _ => Normal tt).

Definition sampleRequest : ExtractionRequest := mkRequest (Some "%PDF").

End ExtractionSamples.

(** ** Further notions for the extractor *)

Module ExtractorNotions.
Import JsString Js Types LlmBatchExtractor ExtractorSpec.

(** The texts sent for one chunk: the chunk, or its two parts when it
    exceeds the budget. *)
Definition piecesOf (chunk : string) : list string :=
  if (maxChars <? length chunk)%nat
  then [take maxChars chunk; drop maxChars chunk]
  else [chunk].

(** What [x || ''] can be: a truthy value, or the empty string. *)
Definition presentOrEmpty (v : JsValue) : Prop :=
  truthy v = true \/ v = JStr EmptyString.

(** What the mapping step puts on every reference, whatever the model
    said. *)
Definition stamped (r : ExtractedReference) : Prop :=
  Types.confidence r = JStr "high" /\
  extractionMethod r = JStr "llm" /\
  firstAuthorAffiliation r = JUndefined /\
  presentOrEmpty (firstAuthor r) /\
  presentOrEmpty (otherAuthors r) /\
  presentOrEmpty (title r) /\
  presentOrEmpty (year r) /\
  presentOrEmpty (publisherJournal r) /\
  presentOrEmpty (volumeIssue r) /\
  presentOrEmpty (pages r) /\
  presentOrEmpty (extraNotes r) /\
  presentOrEmpty (isbn r) /\
  presentOrEmpty (referenceRaw r).

(** A citation key on which [toLowerCase] cannot be called: truthy, and not
    a string. *)
Definition unusableKey (v : JsValue) : Prop :=
  truthy v = true /\ forall s, v <> JStr s.

(** An entry of the model's array that makes the mapping or the filter
    throw. *)
Definition spoiled (entry : JsValue) : Prop :=
  entry = JNull \/ unusableKey (member entry "citationKey").

(** A client that answers with one good entry followed by [null]. *)
Definition hillEntry : JsValue :=
  JObj [("citationKey", JStr "Hill '79"); ("title", JStr "T"); ("firstAuthor", JStr "A")].

Definition nullAnswer : string := "[{...},null]".

Definition nullRuntime : Runtime :=
  mkRuntime (Some (fun _ _ => Replies (Some nullAnswer)))
            (fun s => if String.eqb s nullAnswer then Normal (JArr [hillEntry; JNull])
                      else Throw "Unexpected token").

(** A reply of the model client from which no reference can be read: the
    call is rejected, the response has no content, or the content fails to
    parse at each of the three steps of the recovery ladder. *)
Definition unusableReply (rt : Runtime) (reply : ModelReply) : Prop :=
  match reply with
  | Rejects _ => True
  | Replies None => True
  | Replies (Some content) =>
      content = EmptyString \/
      exists e e2,
        JSON_parse rt content = Throw e /\
        JSON_parse rt (trim content ++ "]}")%string = Throw e2 /\
        forall b, matchBracketed content = Some b -> exists e3, JSON_parse rt b = Throw e3
  end.

(** An entry with a title and no citation key, and a client that answers
    with it. *)
Definition keylessEntry : JsValue := JObj [("title", JStr "T")].

Definition keylessAnswer : string :=
  ("{" ++ ExtractionSamples.quoted "references" ++ ":[{"
       ++ ExtractionSamples.quoted "title" ++ ":" ++ ExtractionSamples.quoted "T"
       ++ "}]}")%string.

Definition keylessRuntime : Runtime :=
  mkRuntime (Some (fun _ _ => Replies (Some keylessAnswer)))
            (fun s => if String.eqb s keylessAnswer
                      then Normal (JObj [("references", JArr [keylessEntry])])
                      else Throw "Unexpected token").

(** An entry whose title is an empty array and that has no first author,
    and what the mapping makes of it. *)
Definition emptyTitledEntry : JsValue :=
  JObj [("citationKey", JStr "K"); ("title", JArr [])].

Definition emptyTitled : ExtractedReference :=
  mkReference (JStr "K") (JStr "") (JStr "") (JArr []) (JStr "") (JStr "") (JStr "")
              (JStr "") (JStr "") (JStr "") JUndefined (JStr "") (JStr "high") (JStr "llm").

End ExtractorNotions.

(** ** Record store, continued: updates, reset and statistics
    (extraction/masterTable.ts) *)

Module MasterTableAdmin.
Import JsString Js Types MasterTable.

(** A [Partial<ExtractedReference>]: each property is there, with its value,
    or is not. *)
Record Updates : Type := mkUpdates {
  newCitationKey : option JsValue;
  newFirstAuthor : option JsValue;
  newOtherAuthors : option JsValue;
  newTitle : option JsValue;
  newYear : option JsValue;
  newPublisherJournal : option JsValue;
  newVolumeIssue : option JsValue;
  newPages : option JsValue;
  newExtraNotes : option JsValue;
  newIsbn : option JsValue;
  newFirstAuthorAffiliation : option JsValue;
  newReferenceRaw : option JsValue;
  newConfidence : option JsValue;
  newExtractionMethod : option JsValue
}.

Definition overridden (old : JsValue) (new : option JsValue) : JsValue :=
  match new with
  | Some v => v
  | None => old
  end.

(** [{ ...reference, ...updates }]. *)
Definition spread (reference : ExtractedReference) (updates : Updates) : ExtractedReference :=
  mkReference
    (overridden (citationKey reference) (newCitationKey updates))
    (overridden (firstAuthor reference) (newFirstAuthor updates))
    (overridden (otherAuthors reference) (newOtherAuthors updates))
    (overridden (title reference) (newTitle updates))
    (overridden (year reference) (newYear updates))
    (overridden (publisherJournal reference) (newPublisherJournal updates))
    (overridden (volumeIssue reference) (newVolumeIssue updates))
    (overridden (pages reference) (newPages updates))
    (overridden (extraNotes reference) (newExtraNotes updates))
    (overridden (isbn reference) (newIsbn updates))
    (overridden (firstAuthorAffiliation reference) (newFirstAuthorAffiliation updates))
    (overridden (referenceRaw reference) (newReferenceRaw updates))
    (overridden (Types.confidence reference) (newConfidence updates))
    (overridden (extractionMethod reference) (newExtractionMethod updates)).

(** [references.findIndex(ref => ref.citationKey.toLowerCase() ===
    citationKey.toLowerCase())], [lowered] being the case-folded argument;
    [None] is [-1].  The method call on a stored key throws when that key is
    not a string. *)
Fixpoint findIndex (references : list ExtractedReference) (lowered : string)
  : Completion (option nat) :=
  match references with
  | [] => Normal None
  | ref :: rest =>
      k <- callToLowerCase (citationKey ref) ;;
      if String.eqb k lowered then Normal (Some 0)
      else (found <- findIndex rest lowered ;; Normal (option_map S found))
  end.

(** [references[index] = f(references[index])], for an index in range. *)
Fixpoint assignAt (index : nat) (f : ExtractedReference -> ExtractedReference)
    (references : list ExtractedReference) : list ExtractedReference :=
  match references, index with
  | [], _ => []
  | r :: rest, O => f r :: rest
  | r :: rest, S k => r :: assignAt k f rest
  end.

(** [updateReference(citationKey, updates)] on the persisted collection
    [table]: the completion and the collection persisted afterwards, which is
    the updated one also when the save throws after writing it. *)
Definition updateReference (exports : Exporter) (citationKey : string) (updates : Updates)
    (table : Collection) : Completion bool * Collection :=
  match findIndex table (toLowerCase citationKey) with
  | Throw m => (Throw m, table)
  | Normal None => (Normal false, table)
  | Normal (Some index) =>
      let references := assignAt index (fun r => spread r updates) table in
      ((_ <- saveMasterTable exports references ;; Normal true), references)
  end.

(** [clearMasterTable()]: the collection persisted afterwards. *)
Definition clearMasterTable (table : Collection) : Collection := [].

Record Statistics : Type := mkStatistics {
  total : nat;
  withEmails : nat;
  withAffiliations : nat;
  needsEnhancement : nat
}.

(** [notes?.includes(needle)], as a boolean: [undefined] on a nullish
    receiver, [String.prototype.includes] on a string,
    [Array.prototype.includes] on an array, and a [TypeError] on a number, a
    boolean or an object, which have no such method. *)
Definition optionalIncludes (notes : JsValue) (needle : string) : Completion bool :=
  match notes with
  | JUndefined | JNull => Normal false
  | JStr s => Normal (includes s needle)
  | JArr items =>
      Normal (existsb (fun item => match item with
                                   | JStr s => String.eqb s needle
                                   | _ => false
                                   end) items)
  | _ => Throw "TypeError: r.extraNotes?.includes is not a function"
  end.

(** [references.filter(test).length]. *)
Fixpoint count (test : ExtractedReference -> Completion bool)
    (references : list ExtractedReference) : Completion nat :=
  match references with
  | [] => Normal 0
  | r :: rest =>
      keep <- test r ;;
      n <- count test rest ;;
      Normal (if keep then S n else n)
  end.

Definition mentionsEmail (r : ExtractedReference) : Completion bool :=
  optionalIncludes (extraNotes r) "@".

Definition mentionsInstitution (r : ExtractedReference) : Completion bool :=
  university <- optionalIncludes (extraNotes r) "University" ;;
  if university then Normal true
  else optionalIncludes (extraNotes r) "Institute".

(** [!r.extraNotes || r.extraNotes === '']. *)
Definition lacksNotes (r : ExtractedReference) : Completion bool :=
  Normal (negb (truthy (extraNotes r))
          || match extraNotes r with JStr s => negb (nonEmpty s) | _ => false end).

(** [getMasterTableStats()] on the persisted collection [table]. *)
Definition getMasterTableStats (table : Collection) : Completion Statistics :=
  emails <- count mentionsEmail table ;;
  affiliations <- count mentionsInstitution table ;;
  needing <- count lacksNotes table ;;
  Normal (mkStatistics (List.length table) emails affiliations needing).

End MasterTableAdmin.

(** Notions used to state properties of the record store. *)

Module MasterTableNotions.
Import JsString Js Types MasterTable MasterTableSpec MasterTableAdmin.

(** [l] is [l'] with some elements left out, the others in their order. *)
Inductive Subsequence {A : Type} : list A -> list A -> Prop :=
| Subsequence_nil : Subsequence [] []
| Subsequence_skip (x : A) (l l' : list A) : Subsequence l l' -> Subsequence l (x :: l')
| Subsequence_keep (x : A) (l l' : list A) : Subsequence l l' -> Subsequence (x :: l) (x :: l').

(** No record of the collection matches an earlier one. *)
Fixpoint distinctRecords (collection : list ExtractedReference) : Prop :=
  match collection with
  | [] => True
  | r :: rest => (forall e, In e rest -> matches e r = false) /\ distinctRecords rest
  end.

(** A record the store cannot compare: neither a citation key nor a raw
    text. *)
Definition anonymous (r : ExtractedReference) : Prop :=
  truthy (citationKey r) = false /\ truthy (referenceRaw r) = false.

Definition anonymousReference : ExtractedReference :=
  mkReference (JStr "") (JStr "An author") (JStr "") (JStr "A title") (JStr "1979")
              (JStr "") (JStr "") (JStr "") (JStr "") (JStr "")
              JUndefined (JStr "") (JStr "high") (JStr "llm").

(** Notes that are a string, or absent. *)
Definition textNotes (r : ExtractedReference) : Prop :=
  match extraNotes r with
  | JStr _ | JUndefined | JNull => True
  | _ => False
  end.

(** Notes on which [includes] cannot be called. *)
Definition opaqueNotes (r : ExtractedReference) : Prop :=
  match extraNotes r with
  | JBool _ | JNum _ | JObj _ => True
  | _ => False
  end.

(** A stored key that is a string and differs, case-folded, from [lowered]. *)
Definition otherKey (lowered : string) (e : ExtractedReference) : Prop :=
  exists k, citationKey e = JStr k /\ toLowerCase k <> lowered.

Definition noUpdates : Updates :=
  mkUpdates None None None None None None None None None None None None None None.

Definition affiliationUpdate (a : string) : Updates :=
  mkUpdates None None None None None None None None None None (Some (JStr a))
            None None None.

End MasterTableNotions.

(** ** Job files, job statistics and the status route
    (extraction/storage.ts, extraction/routes.ts, extraction/orchestrator.ts) *)

Module JobStorage.
Import JsString Js Types.

Record JobStats : Type := mkJobStats {
  totalReferences : nat;
  highConfidence : nat;
  mediumConfidence : nat;
  lowConfidence : nat
}.

(** [r.confidence === level]. *)
Definition confidenceIs (level : string) (r : ExtractedReference) : bool :=
  match Types.confidence r with
  | JStr s => String.eqb s level
  | _ => false
  end.

(** [getJobStats(jobId)]; [None] is [null]. *)
Definition getJobStats (w : Orchestrator.World) (id : string) : option JobStats :=
  match Orchestrator.loadJob w id with
  | None => None
  | Some job =>
      let references := Orchestrator.extractedReferences job in
      Some (mkJobStats (List.length references)
                       (List.length (filter (confidenceIs "high") references))
                       (List.length (filter (confidenceIs "medium") references))
                       (List.length (filter (confidenceIs "low") references)))
  end.

Fixpoint without {A} (id : string) (entries : list (string * A)) : list (string * A) :=
  match entries with
  | [] => []
  | (k, v) :: rest => if String.eqb id k then without id rest else (k, v) :: without id rest
  end.

(** [deleteJob(jobId)] of storage.ts: the job file is unlinked; unlinking a
    file that is not there throws. *)
Definition deleteJob (id : string) (w : Orchestrator.World)
  : Completion unit * Orchestrator.World :=
  match Orchestrator.loadJob w id with
  | None => (Throw "ENOENT: no such file or directory", w)
  | Some _ =>
      (Normal tt,
       Orchestrator.mkWorld (without id (Orchestrator.jobFiles w))
                            (Orchestrator.jobProgress w) (Orchestrator.masterTable w)
                            (Orchestrator.tableSaves w) (Orchestrator.modelCalls w))
  end.

(** The body sent by [GET /status/:jobId]. *)
Record StatusBody : Type := mkStatusBody {
  s_jobId : string;
  s_status : Job.Status;
  s_progress : nat;
  s_totalReferences : nat;
  extractedCount : nat;
  s_currentStep : string;
  s_error : option string
}.

Inductive Reply : Type :=
| Sent (body : StatusBody)
| NotFound (error : string).

(** The handler of [GET /status/:jobId]. *)
Definition statusRoute (w : Orchestrator.World) (id : string) : Reply :=
  match Orchestrator.loadJob w id with
  | None => NotFound "Job not found"
  | Some job =>
      Sent (mkStatusBody id (Orchestrator.status job) (Orchestrator.progress job)
                         (Orchestrator.totalReferences job)
                         (List.length (Orchestrator.extractedReferences job))
                         (match Orchestrator.getProgress w id with
                          | Some entry =>
                              if nonEmpty (Orchestrator.currentStep entry)
                              then Orchestrator.currentStep entry
                              else "unknown"
                          | None => "unknown"
                          end)
                         (Orchestrator.error job))
  end.

End JobStorage.

(** [deleteJob(jobId)] of orchestrator.ts: [jobProgress.delete(jobId)]. *)

Module ProgressTracker.

Definition deleteJob (id : string) (w : Orchestrator.World) : bool * Orchestrator.World :=
  (true,
   Orchestrator.mkWorld (Orchestrator.jobFiles w)
                        (JobStorage.without id (Orchestrator.jobProgress w))
                        (Orchestrator.masterTable w)
                        (Orchestrator.tableSaves w) (Orchestrator.modelCalls w)).

End ProgressTracker.

Module JobNotions.
Import JsString Js Types.

(** A page collaborator that fails. *)
Definition brokenEnv (rt : LlmBatchExtractor.Runtime) (message : string) : Orchestrator.Env :=
  Orchestrator.mkEnv rt (fun _ => Throw message) "job-1" "2025-01-01T00:00:00.000Z"
                     (fun _ => Normal tt).

Definition hillText : string := "[Hill '79] A (1979). T.".

(** A job whose table cannot be exported. *)
Definition unexportableEnv (rt : LlmBatchExtractor.Runtime) (t : string) : Orchestrator.Env :=
  Orchestrator.mkEnv rt (ExtractionSamples.onePage t) "job-1" "2025-01-01T00:00:00.000Z"
                     MasterTableSpec.failingExports.

(** The outcome of the merge of a job, as [processExtraction] passes it on. *)
Definition passedOn (merge : Completion MasterTable.MergeStats) : Completion unit :=
  match merge with
  | Normal _ => Normal tt
  | Throw m => Throw m
  end.

End JobNotions.

(** Notions used to state properties of an enhancement run. *)

Module EnhancementNotions.
Import JsString Js Types Enhancement.

(** The arguments of the resolver call made for a record. *)
Definition lookupOf (r : ExtractedReference) : JsValue * JsValue * JsValue :=
  (firstAuthor r, title r, year r).

Definition lookupAt (references : list ExtractedReference) (target : nat)
  : JsValue * JsValue * JsValue :=
  lookupOf (nth target references placeholder).

(** The counters of the job and of the loop after [i] iterations. *)
Definition counted {W} (totalLoaded i : nat) (st : LoopState W) : Prop :=
  processedReferences (job st) = i /\
  List.length (calls st) = i /\
  enhancedReferences (job st) = enhanced st /\
  enhanced st <= i /\
  totalReferences (job st) = totalLoaded /\
  status (job st) = Job.processing /\
  error (job st) = None.

(** A record with a first author and no citation key. *)
Definition keylessReference : ExtractedReference :=
  mkReference (JStr "") (JStr "N. Wiener") (JStr "") (JStr "A title") (JStr "1948")
              (JStr "") (JStr "") (JStr "") (JStr "") (JStr "")
              JUndefined (JStr "") (JStr "high") (JStr "llm").

End EnhancementNotions.

(** Notions used to state properties of the affiliation resolver. *)

Module ResolverNotions.
Import JsString AffiliationFinder.

(** A request for the details of an author. *)
Definition isAuthorFetch (e : NetEvent) : Prop :=
  exists id, e = Fetch (SemanticScholarAuthor id).

(** The requests made to the tiers after the first by a lookup that ended
    with the source [final]. *)
Definition laterRequests (cfg : Config) (final : Source) (authorName title year : string)
  : list NetEvent :=
  match final with
  | SemanticScholar => []
  | Perplexity => [Fetch (PerplexityChat authorName title year)]
  | _ =>
      ((if nonEmpty (PERPLEXITY_API_KEY cfg)
        then [Fetch (PerplexityChat authorName title year)]
        else []) ++
       [Fetch (OpenAlexWorks (cleanText title) (if nonEmpty year then Some year else None))])%list
  end.

(** A Semantic Scholar index with one paper of 1948 by "Norbert Wiener",
    whose author record lists "MIT". *)
Definition scholarNetwork : Network :=
  mkNetwork (fun _ _ => Body (Some [mkS2Paper (Some 1948%Z)
                                      (Some [mkS2Author (Some "Norbert Wiener") (Some "42")])]))
            (fun _ _ => Body (Some ["MIT"]))
            (fun _ _ _ _ => None) (fun _ _ _ => FetchRejects).

End ResolverNotions.

(** Notions used to state the normal forms of names and search texts. *)

Module TextNotions.
Import JsString.

Fixpoint allChars (p : ascii -> bool) (s : string) : bool :=
  match s with
  | EmptyString => true
  | String c r => p c && allChars p r
  end.

(** White space occurs only as single blanks, [afterBlank] telling that the
    previous character was one. *)
Fixpoint loose (afterBlank : bool) (s : string) : bool :=
  match s with
  | EmptyString => true
  | String c r =>
      if isWhiteSpace c
      then Ascii.eqb c " "%char && negb afterBlank && loose true r
      else loose false r
  end.

(** The same, and no blank comes last. *)
Fixpoint spaced (afterBlank : bool) (s : string) : bool :=
  match s with
  | EmptyString => true
  | String c r =>
      if isWhiteSpace c
      then Ascii.eqb c " "%char && negb afterBlank && nonEmpty r && spaced true r
      else spaced false r
  end.

(** White space occurs only as single blanks between two other characters. *)
Definition tidy (s : string) : bool := spaced true s.

Definition wordOrSpace (c : ascii) : bool := isWordChar c || isWhiteSpace c.

Definition lowerWordOrSpace (c : ascii) : bool :=
  wordOrSpace c && Ascii.eqb (toLowerChar c) c.

End TextNotions.

(** ** Page text (pipeline/ocr.ts) *)

Module Ocr.
Import JsString Js.

Definition FF : ascii := "012"%char.
Definition CR : ascii := "013"%char.
Definition hyphen : ascii := "-"%char.

(** The two libraries: [pdfParse(buffer)] with the [text] of its result
    ([None] when the field is absent), and [getWorker()] followed by
    [worker.recognize(buffer)] with the [text] of its result, for the page
    number given to [ocrPage]. *)
Record Tools : Type := mkTools {
  pdfParse : string -> Completion (option string);
  recognize : string -> nat -> Completion string
}.

(** [charDensity(text)] is the quotient of two counts, the non-white-space
    characters and the lines that are not blank, or [0] when there is no such
    line.  The quotient is kept as the pair of counts; for counts below
    [2^50], as those of a JavaScript string are, the floating-point quotient
    is below an integer bound exactly when the exact one is. *)
Record Density : Type := mkDensity {
  totalChars : nat;
  lineCount : nat
}.

Definition charDensity (text : string) : Density :=
  mkDensity (length (removeAll isWhiteSpace text))
            (List.length (filter (fun l => nonEmpty (trim l)) (split LF text))).

(** [density < bound]. *)
Definition below (density : Density) (bound : nat) : bool :=
  match lineCount density with
  | O => (0 <? bound)%nat
  | n => (totalChars density <? bound * n)%nat
  end.

(** [text.replace(/-\n/g, '')]. *)
Fixpoint dehyphenate (s : string) : string :=
  match s with
  | EmptyString => EmptyString
  | String c r =>
      match r with
      | String c' r' =>
          if Ascii.eqb c hyphen && Ascii.eqb c' LF then dehyphenate r'
          else String c (dehyphenate r)
      | EmptyString => String c EmptyString
      end
  end.

(** Index of the last line feed of a string. *)
Fixpoint lastLineFeed (s : string) : option nat :=
  match s with
  | EmptyString => None
  | String c r =>
      match lastLineFeed r with
      | Some k => Some (S k)
      | None => if Ascii.eqb c LF then Some 0 else None
      end
  end.

(** What [/\s+\n/g] makes of a maximal run of white space: the greedy match
    starts with the run and ends at its last line feed, provided that one is
    not the first character of the run. *)
Definition cleanRun (run : string) : string :=
  match lastLineFeed run with
  | Some (S k) => String LF (drop (S (S k)) run)
  | _ => run
  end.

(** [text.replace(/\s+\n/g, '\n')], [run] being the white space read since
    the last other character. *)
Fixpoint cleanBreaks (run : string) (s : string) : string :=
  match s with
  | EmptyString => cleanRun run
  | String c r =>
      if isWhiteSpace c then cleanBreaks (run ++ String c EmptyString) r
      else cleanRun run ++ String c (cleanBreaks EmptyString r)
  end.

(** [[^\S\r\n]]: white space other than a carriage return or a line feed. *)
Definition isBlank (c : ascii) : bool :=
  isWhiteSpace c && negb (Ascii.eqb c CR) && negb (Ascii.eqb c LF).

(** The blanks read since the last other character. *)
Inductive Pending : Type :=
| NoBlank
| OneBlank (c : ascii)
| ManyBlanks.

Definition flushBlanks (p : Pending) : string :=
  match p with
  | NoBlank => EmptyString
  | OneBlank c => String c EmptyString
  | ManyBlanks => " "
  end.

(** [text.replace(/[^\S\r\n]{2,}/g, ' ')]. *)
Fixpoint collapseBlanks (p : Pending) (s : string) : string :=
  match s with
  | EmptyString => flushBlanks p
  | String c r =>
      if isBlank c
      then collapseBlanks (match p with NoBlank => OneBlank c | _ => ManyBlanks end) r
      else flushBlanks p ++ String c (collapseBlanks NoBlank r)
  end.

Definition normalize (text : string) : string :=
  trim (collapseBlanks NoBlank (cleanBreaks EmptyString (dehyphenate text))).

(** [isScannedPDF(text, minCharsPerLine)], for a whole number of characters
    per line. *)
Definition isScannedPDF (text : string) (minCharsPerLine : nat) : bool :=
  below (charDensity text) minCharsPerLine.

(** [ocrPage(pdfBuffer, pageNumber)]: a failure of the recognition is
    caught and gives the empty text. *)
Definition ocrPage (tools : Tools) (pdfBuffer : string) (pageNumber : nat) : string :=
  match recognize tools pdfBuffer pageNumber with
  | Normal text => text
  | Throw _ => EmptyString
  end.

(** The body of the loop of [extractPdfSmart], for the page at index [i]. *)
Definition extractPage (tools : Tools) (pdfBuffer : string) (i : nat) (pageText : string)
  : Orchestrator.Page :=
  if below (charDensity pageText) 15
  then
    let ocrText := ocrPage tools pdfBuffer (i + 1) in
    Orchestrator.mkPage (i + 1)
                        (normalize (if nonEmpty ocrText then ocrText else pageText)) true
  else Orchestrator.mkPage (i + 1) (normalize pageText) false.

Fixpoint extractPages (tools : Tools) (pdfBuffer : string) (i : nat) (pages : list string)
  : list Orchestrator.Page :=
  match pages with
  | [] => []
  | pageText :: rest =>
      extractPage tools pdfBuffer i pageText :: extractPages tools pdfBuffer (S i) rest
  end.

(** [extractPdfSmart(pdfBuffer)]. *)
Definition extractPdfSmart (tools : Tools) (pdfBuffer : string)
  : Completion (list Orchestrator.Page) :=
  data <- pdfParse tools pdfBuffer ;;
  let fullText := match data with Some text => text | None => EmptyString end in
  Normal (extractPages tools pdfBuffer 0 (split FF fullText)).

End Ocr.

(** Notions used to state properties of the page texts. *)

Module OcrNotions.
Import JsString Js Ocr.

(** No two blanks in a row, [afterBlank] telling that the previous
    character was one. *)
Fixpoint singleBlanks (afterBlank : bool) (s : string) : bool :=
  match s with
  | EmptyString => true
  | String c r =>
      if isBlank c then negb afterBlank && singleBlanks true r
      else singleBlanks false r
  end.

(** The first character, if any, is not white space. *)
Definition startsClean (s : string) : bool :=
  match s with
  | EmptyString => true
  | String c _ => negb (isWhiteSpace c)
  end.

(** The text of [pdfParse]'s result, [''] when absent. *)
Definition textOf (data : option string) : string :=
  match data with Some text => text | None => EmptyString end.

(** A parser that finds two pages, the second one without text, and a
    recognition that fails. *)
Definition twoPageTools : Tools :=
  mkTools (fun _ => Normal (Some ("Hill, D. R. (1979). The book of  ingenious de-" ++
                                  String LF "vices. Springer." ++ String FF "   ")%string))
          (fun _ _ => Throw "worker failed").

End OcrNotions.

(* ================================================================== *)
(** * Part II: properties *)
(* ================================================================== *)

Open Scope list_scope.

(** ** Strings: taking, dropping and searching *)

Module StringFacts.
Import JsString.

Lemma nonEmpty_true_iff (s : string) : nonEmpty s = true <-> s <> EmptyString.
Proof. destruct s; simpl; split; congruence. Qed.

Lemma nonEmpty_false_iff (s : string) : nonEmpty s = false <-> s = EmptyString.
Proof. destruct s; simpl; split; congruence. Qed.

Lemma drop_nil (k : nat) : drop k EmptyString = EmptyString.
Proof. destruct k; reflexivity. Qed.

Lemma take_nil (k : nat) : take k EmptyString = EmptyString.
Proof. destruct k; reflexivity. Qed.

Lemma length_drop (k : nat) (s : string) : length (drop k s) = length s - k.
Proof.
  revert s. induction k as [| k IH]; intros s; simpl.
  - lia.
  - destruct s as [| c s]; simpl; [reflexivity | apply IH].
Qed.

Lemma length_take (k : nat) (s : string) : length (take k s) = Nat.min k (length s).
Proof.
  revert s. induction k as [| k IH]; intros s; simpl; [reflexivity |].
  destruct s as [| c s]; simpl; [reflexivity | rewrite IH; reflexivity].
Qed.

Lemma length_append (s t : string) : length (s ++ t)%string = length s + length t.
Proof. induction s as [| c s IH]; simpl; [reflexivity | rewrite IH; reflexivity]. Qed.

Lemma take_drop (k : nat) (s : string) : (take k s ++ drop k s)%string = s.
Proof.
  revert s. induction k as [| k IH]; intros s; simpl; [reflexivity |].
  destruct s as [| c s]; simpl; [reflexivity | rewrite IH; reflexivity].
Qed.

Lemma drop_drop (a b : nat) (s : string) : drop a (drop b s) = drop (b + a) s.
Proof.
  revert s. induction b as [| b IH]; intros s; simpl; [reflexivity |].
  destruct s as [| c s]; simpl; [apply drop_nil | apply IH].
Qed.

Lemma drop_all (k : nat) (s : string) : length s <= k -> drop k s = EmptyString.
Proof.
  revert s. induction k as [| k IH]; intros s H; simpl.
  - destruct s; simpl in H; [reflexivity | lia].
  - destruct s as [| c s]; simpl in *; [reflexivity | apply IH; lia].
Qed.

Lemma take_all (k : nat) (s : string) : length s <= k -> take k s = s.
Proof.
  revert s. induction k as [| k IH]; intros s H; simpl.
  - destruct s; simpl in H; [reflexivity | lia].
  - destruct s as [| c s]; simpl in *; [reflexivity | rewrite IH; [reflexivity | lia]].
Qed.

Lemma drop_take (a b : nat) (s : string) : drop a (take (a + b) s) = take b (drop a s).
Proof.
  revert s. induction a as [| a IH]; intros s; simpl; [reflexivity |].
  destruct s as [| c s]; simpl; [rewrite take_nil; reflexivity | apply IH].
Qed.

Lemma take_take (a b : nat) (s : string) : take a (take (a + b) s) = take a s.
Proof.
  revert s. induction a as [| a IH]; intros s; simpl; [reflexivity |].
  destruct s as [| c s]; simpl; [reflexivity | rewrite IH; reflexivity].
Qed.

(** [needle] occurs in [s] at offset [k]. *)
Lemma prefix_length (p s : string) : prefix p s = true -> length p <= length s.
Proof.
  revert s. induction p as [| c p IH]; intros s H; [simpl; lia |].
  destruct s as [| d s]; simpl in H; [discriminate |].
  destruct (ascii_dec c d); [| discriminate].
  simpl. apply IH in H. lia.
Qed.

Lemma prefix_take (p s : string) (m : nat) :
  prefix p (take m s) = true -> prefix p s = true.
Proof.
  revert s m. induction p as [| c p IH]; intros s m H.
  { destruct s; reflexivity. }
  destruct m as [| m]; simpl in H; [discriminate |].
  destruct s as [| d s]; simpl in H; [discriminate |].
  simpl. destruct (ascii_dec c d); [| discriminate].
  eapply IH; exact H.
Qed.

Lemma occursAt_bound (needle s : string) (k : nat) :
  occursAt needle s k -> k + length needle <= length s \/ needle = EmptyString.
Proof.
  unfold occursAt. intros H. apply prefix_length in H.
  rewrite length_drop in H.
  destruct needle as [| c n]; [right; reflexivity | left]. simpl in *. lia.
Qed.

Lemma findFrom_unfold (needle s : string) (pos : nat) :
  findFrom needle s pos =
  if prefix needle s then Some pos
  else match s with
       | EmptyString => None
       | String _ r => findFrom needle r (S pos)
       end.
Proof. destruct s; reflexivity. Qed.

Lemma findFrom_some (needle : string) :
  forall s pos i,
    findFrom needle s pos = Some i ->
    pos <= i /\ occursAt needle s (i - pos) /\
    forall k, k < i - pos -> ~ occursAt needle s k.
Proof.
  unfold occursAt.
  induction s as [| c s IH]; intros pos i H; rewrite findFrom_unfold in H.
  - destruct (prefix needle EmptyString) eqn:P; [| discriminate].
    injection H as <-. rewrite Nat.sub_diag.
    repeat split; [lia | exact P | intros k Hk; lia].
  - destruct (prefix needle (String c s)) eqn:P.
    + injection H as <-. rewrite Nat.sub_diag.
      repeat split; [lia | exact P | intros k Hk; lia].
    + apply IH in H. destruct H as (H1 & H2 & H3).
      replace (i - pos) with (S (i - S pos)) by lia.
      repeat split; [lia | exact H2 |].
      intros k Hk. destruct k as [| k].
      * change (drop 0 (String c s)) with (String c s). rewrite P. discriminate.
      * change (drop (S k) (String c s)) with (drop k s). apply H3. lia.
Qed.

Lemma findFrom_none (needle : string) :
  forall s pos, findFrom needle s pos = None -> forall k, ~ occursAt needle s k.
Proof.
  unfold occursAt.
  induction s as [| c s IH]; intros pos H k; rewrite findFrom_unfold in H.
  - destruct (prefix needle EmptyString) eqn:P; [discriminate |].
    rewrite drop_nil, P. discriminate.
  - destruct (prefix needle (String c s)) eqn:P; [discriminate |].
    destruct k as [| k].
    + change (drop 0 (String c s)) with (String c s). rewrite P. discriminate.
    + change (drop (S k) (String c s)) with (drop k s). eapply IH; exact H.
Qed.

(** [indexOf] from a start within the string. *)
Lemma indexOf_found (s needle : string) (from : nat) (i : Z) :
  from <= length s ->
  indexOf s needle (Z.of_nat from) = i -> (0 <= i)%Z ->
  from <= Z.to_nat i /\ occursAt needle s (Z.to_nat i) /\
  forall k, from <= k -> k < Z.to_nat i -> ~ occursAt needle s k.
Proof.
  intros Hfrom H Hi. unfold indexOf in H.
  rewrite Nat2Z.id, Nat.min_l in H by exact Hfrom.
  destruct (findFrom needle (drop from s) from) as [j |] eqn:F; [| lia].
  subst i. rewrite Nat2Z.id.
  apply findFrom_some in F. destruct F as (H1 & H2 & H3).
  unfold occursAt in *. rewrite drop_drop in H2.
  replace (from + (j - from)) with j in H2 by lia.
  repeat split; [exact H1 | exact H2 |].
  intros k Hk1 Hk2 Hocc.
  apply (H3 (k - from)); [lia |].
  rewrite drop_drop. replace (from + (k - from)) with k by lia. exact Hocc.
Qed.

Lemma indexOf_missing (s needle : string) (from : nat) :
  from <= length s ->
  (indexOf s needle (Z.of_nat from) < 0)%Z ->
  forall k, from <= k -> ~ occursAt needle s k.
Proof.
  intros Hfrom H k Hk Hocc. unfold indexOf in H.
  rewrite Nat2Z.id, Nat.min_l in H by exact Hfrom.
  destruct (findFrom needle (drop from s) from) as [j |] eqn:F; [lia |].
  apply (findFrom_none _ _ _ F (k - from)).
  unfold occursAt in *. rewrite drop_drop.
  replace (from + (k - from)) with k by lia. exact Hocc.
Qed.

Lemma indexOf_range (s needle : string) (from : Z) :
  (-1 <= indexOf s needle from)%Z.
Proof.
  unfold indexOf. destruct (findFrom _ _ _); lia.
Qed.

End StringFacts.

(** ** Name matching *)

Module NameMatchingFacts.
Import JsString AffiliationFinder StringFacts.

Lemma authorsMatch_rule (name1 name2 : string) :
  authorsMatch name1 name2 = true <-> matchRule name1 name2.
Proof.
  unfold authorsMatch, matchRule; cbv zeta.
  set (n1 := normalizeAuthorName name1).
  set (n2 := normalizeAuthorName name2).
  destruct (String.eqb_spec n1 n2) as [E | NE].
  { split; auto. }
  destruct (includes n1 n2) eqn:I12; simpl.
  { split; auto. }
  destruct (includes n2 n1) eqn:I21; simpl.
  { split; auto. }
  destruct (String.eqb_spec (lastPart (split " " n1)) (lastPart (split " " n2)))
    as [L | NL]; simpl.
  - destruct (nonEmpty (firstInitial (split " " n1))) eqn:F1; simpl.
    + destruct (nonEmpty (firstInitial (split " " n2))) eqn:F2; simpl.
      * destruct (String.eqb_spec (firstInitial (split " " n1))
                                  (firstInitial (split " " n2))) as [F | NF]; simpl.
        -- split; auto 10.
        -- split; [discriminate |].
           intros [H | [H | [H | [_ [H | [H | H]]]]]]; try congruence.
           ++ rewrite H in F1; discriminate.
           ++ rewrite H in F2; discriminate.
      * apply nonEmpty_false_iff in F2. split; auto 10.
    + apply nonEmpty_false_iff in F1. split; auto 10.
  - split; [discriminate |].
    intros [H | [H | [H | [H _]]]]; congruence.
Qed.

End NameMatchingFacts.



(** ** Tiered affiliation resolver *)

Module ResolverFacts.
Import JsString AffiliationFinder.

Lemma scanAuthorships_some (target : string) (l : list Authorship) (a : string) :
  scanAuthorships target l = Some a ->
  exists authorship institution others,
    In authorship l /\
    authorsMatch target (orEmpty (author_display_name authorship)) = true /\
    institutions authorship = Some (institution :: others) /\
    a = affiliationText institution.
Proof.
  induction l as [| x l IH]; simpl; [discriminate |].
  destruct (authorsMatch target (orEmpty (author_display_name x))) eqn:M.
  - destruct (institutions x) as [[| i others] |] eqn:I.
    + intros H. destruct (IH H) as (au & inst & o & Hin & rest).
      exists au, inst, o. split; [right; exact Hin | exact rest].
    + intros H. injection H as <-.
      exists x, i, others. repeat split; auto.
    + intros H. destruct (IH H) as (au & inst & o & Hin & rest).
      exists au, inst, o. split; [right; exact Hin | exact rest].
  - intros H. destruct (IH H) as (au & inst & o & Hin & rest).
    exists au, inst, o. split; [right; exact Hin | exact rest].
Qed.

Lemma scanAuthorships_none (target : string) (l : list Authorship) :
  (forall authorship, In authorship l ->
     authorsMatch target (orEmpty (author_display_name authorship)) = false) ->
  scanAuthorships target l = None.
Proof.
  induction l as [| x l IH]; simpl; intros H; [reflexivity |].
  rewrite (H x (or_introl eq_refl)).
  apply IH. intros au Hin. apply H. right; exact Hin.
Qed.

(** The authorships a work lists ([[]] when the field is missing). *)
Lemma extractAffiliationFromWork_scan (work : Work) (target : string) :
  extractAffiliationFromWork work target =
  scanAuthorships target (listedAuthorships work).
Proof.
  unfold extractAffiliationFromWork, listedAuthorships.
  destruct (authorships work) as [[| x l] |]; reflexivity.
Qed.

End ResolverFacts.

(** C5 (as the code has it).  For every non-empty author name and title and
    every year string that [parseInt] reads as a non-zero number below 1900,
    [findAffiliation] returns affiliation [null] with source
    "skipped-historical" at once: nothing is added to the log of delays and
    requests. *)
Theorem findAffiliation_skips_historical :
  forall (cfg : AffiliationFinder.Config) (net : AffiliationFinder.Network)
         (authorName paperTitle year : string) (log : AffiliationFinder.NetLog) (y : Z),
    JsString.nonEmpty authorName = true ->
    JsString.nonEmpty paperTitle = true ->
    AffiliationFinder.parseInt year = Some y ->
    y <> 0%Z ->
    (y < 1900)%Z ->
    AffiliationFinder.findAffiliation cfg net authorName paperTitle year log =
    (AffiliationFinder.mkAffiliationResult None AffiliationFinder.low
                                           AffiliationFinder.SkippedHistorical,
     log).
Proof.
  intros cfg net a t year log y Ha Ht Hy Hnz Hlt.
  unfold AffiliationFinder.findAffiliation.
  rewrite Ha, Ht, Hy. simpl.
  destruct (Z.eqb_spec y 0) as [E | _]; [contradiction |].
  destruct (Z.ltb_spec y 1900) as [_ | G]; [reflexivity | lia].
Qed.

Lemma findAffiliation_skips_historical_witness :
  JsString.nonEmpty "N. Wiener" = true /\
  JsString.nonEmpty "Cybernetics" = true /\
  AffiliationFinder.parseInt "1850" = Some 1850%Z /\
  AffiliationFinder.findAffiliation Samples.offlineConfig Samples.offlineNetwork
    "N. Wiener" "Cybernetics" "1850" [] =
  (AffiliationFinder.mkAffiliationResult None AffiliationFinder.low
                                         AffiliationFinder.SkippedHistorical,
   []).
Proof.
  split; [reflexivity |]. split; [reflexivity |]. split; [reflexivity |].
  apply (findAffiliation_skips_historical Samples.offlineConfig Samples.offlineNetwork
           "N. Wiener" "Cybernetics" "1850" [] 1850%Z);
    [reflexivity | reflexivity | reflexivity | discriminate | reflexivity].
Defined.

(** C5, as stated, fails for the year "0": it parses to a number below 1900,
    yet the three tiers are tried (here tier 1 and tier 3, tier 2 having no
    credential) and the source is not "skipped-historical". *)
Lemma findAffiliation_year_zero_counterexample :
  JsString.nonEmpty "N. Wiener" = true /\
  JsString.nonEmpty "Cybernetics" = true /\
  AffiliationFinder.parseInt "0" = Some 0%Z /\
  (0 < 1900)%Z /\
  AffiliationFinder.findAffiliation Samples.offlineConfig Samples.offlineNetwork
    "N. Wiener" "Cybernetics" "0" [] =
  (AffiliationFinder.mkAffiliationResult None AffiliationFinder.low
                                         AffiliationFinder.OpenAlex,
   [AffiliationFinder.Delay 1000;
    AffiliationFinder.Fetch (AffiliationFinder.SemanticScholarSearch "Cybernetics");
    AffiliationFinder.Fetch (AffiliationFinder.OpenAlexWorks "Cybernetics" (Some "0"))]).
Proof.
  repeat split.
Qed.

(** C8.  Whenever the tier-3 lookup returns an affiliation, the top work of
    the reply lists an author whose name matches the target under
    [authorsMatch], and the affiliation is that author's first institution;
    and when every author the top work lists fails the match, the lookup
    returns [null]. *)
Theorem searchOpenAlex_requires_name_match :
  forall (net : AffiliationFinder.Network) (authorName title year : string)
         (log : AffiliationFinder.NetLog),
    (forall a,
        fst (AffiliationFinder.searchOpenAlex net authorName title year log) = Some a ->
        exists work others authorship institution more,
          AffiliationFinder.worksSearch net log (AffiliationFinder.cleanText title)
            (if JsString.nonEmpty year then Some year else None)
          = AffiliationFinder.Body (Some (work :: others)) /\
          In authorship (AffiliationFinder.listedAuthorships work) /\
          AffiliationFinder.authorsMatch authorName
            (AffiliationFinder.orEmpty (AffiliationFinder.author_display_name authorship))
          = true /\
          AffiliationFinder.institutions authorship = Some (institution :: more) /\
          a = AffiliationFinder.affiliationText institution) /\
    (forall work others,
        AffiliationFinder.worksSearch net log (AffiliationFinder.cleanText title)
          (if JsString.nonEmpty year then Some year else None)
        = AffiliationFinder.Body (Some (work :: others)) ->
        (forall authorship,
            In authorship (AffiliationFinder.listedAuthorships work) ->
            AffiliationFinder.authorsMatch authorName
              (AffiliationFinder.orEmpty (AffiliationFinder.author_display_name authorship))
            = false) ->
        fst (AffiliationFinder.searchOpenAlex net authorName title year log) = None).
Proof.
  intros net authorName title year log. split.
  - intros a. unfold AffiliationFinder.searchOpenAlex.
    destruct (AffiliationFinder.worksSearch net log (AffiliationFinder.cleanText title)
                (if JsString.nonEmpty year then Some year else None))
      as [| st | | [[| work others] |]] eqn:R; simpl; try discriminate.
    rewrite ResolverFacts.extractAffiliationFromWork_scan. intros H.
    destruct (ResolverFacts.scanAuthorships_some _ _ _ H)
      as (au & inst & more & Hin & Hm & Hi & Ha).
    exists work, others, au, inst, more. auto.
  - intros work others R Hall. unfold AffiliationFinder.searchOpenAlex.
    rewrite R. simpl.
    rewrite ResolverFacts.extractAffiliationFromWork_scan.
    apply ResolverFacts.scanAuthorships_none. exact Hall.
Qed.

Lemma searchOpenAlex_requires_name_match_witness :
  (exists work authorship institution,
      In authorship (AffiliationFinder.listedAuthorships work) /\
      AffiliationFinder.authorsMatch "N. Wiener"
        (AffiliationFinder.orEmpty (AffiliationFinder.author_display_name authorship))
      = true /\
      "MIT (US)" = AffiliationFinder.affiliationText institution) /\
  fst (AffiliationFinder.searchOpenAlex Samples.wienerNetwork
         "A. Turing" "Cybernetics" "1948" []) = None.
Proof.
  pose proof (searchOpenAlex_requires_name_match Samples.wienerNetwork
                "N. Wiener" "Cybernetics" "1948" []) as [Hsome _].
  pose proof (searchOpenAlex_requires_name_match Samples.wienerNetwork
                "A. Turing" "Cybernetics" "1948" []) as [_ Hnone].
  split.
  - destruct (Hsome "MIT (US)" eq_refl)
      as (work & others & au & inst & more & _ & Hin & Hm & _ & Ha).
    exists work, au, inst. auto.
  - apply (Hnone Samples.wienerWork [] eq_refl).
    intros au [<- | []]. reflexivity.
Defined.

(** ** Enhancement runs *)

Module EnhancementFacts.
Import JsString Js Types AffiliationFinder Enhancement EnhancementSpec.

Lemma needsEnhancementFrom_nil (l : list ExtractedReference) :
  (forall r, In r l -> needs r = false) ->
  forall i, needsEnhancementFrom i l = [].
Proof.
  induction l as [| r l IH]; intros H i; simpl; [reflexivity |].
  rewrite (H r (or_introl eq_refl)).
  apply IH. intros r' Hin. apply H. right; exact Hin.
Qed.

Lemma sameButAffiliation_refl (r : ExtractedReference) : sameButAffiliation r r.
Proof. unfold sameButAffiliation; repeat split. Qed.

Lemma sameButAffiliation_trans (a b c : ExtractedReference) :
  sameButAffiliation a b -> sameButAffiliation b c -> sameButAffiliation a c.
Proof.
  unfold sameButAffiliation.
  intros H1 H2.
  repeat match goal with H : _ /\ _ |- _ => destruct H end.
  repeat split; congruence.
Qed.

Lemma sameButAffiliation_set (r : ExtractedReference) (a : JsValue) :
  sameButAffiliation r (setAffiliation r a).
Proof. unfold sameButAffiliation; repeat split. Qed.

Lemma Forall2_same_refl (l : list ExtractedReference) : Forall2 sameButAffiliation l l.
Proof. induction l; constructor; auto using sameButAffiliation_refl. Qed.

Lemma assignAffiliation_same (l : list ExtractedReference) (i : nat) (a : JsValue) :
  Forall2 sameButAffiliation l (assignAffiliation i a l).
Proof.
  revert i. induction l as [| r l IH]; intros i; destruct i; simpl.
  - constructor.
  - constructor.
  - constructor; [apply sameButAffiliation_set | apply Forall2_same_refl].
  - constructor; [apply sameButAffiliation_refl | apply IH].
Qed.

Lemma Forall2_same_trans (l1 l2 l3 : list ExtractedReference) :
  Forall2 sameButAffiliation l1 l2 -> Forall2 sameButAffiliation l2 l3 ->
  Forall2 sameButAffiliation l1 l3.
Proof.
  intros H. revert l3.
  induction H as [| x y xs ys Hxy Hrest IH]; intros l3 H3; inversion H3; subst; constructor.
  - eapply sameButAffiliation_trans; eauto.
  - auto.
Qed.

(** One iteration changes the loaded collection in the affiliation field
    only. *)
Lemma enhanceOne_frame {W} (env : Env W) (n i target : nat) (st : LoopState W) :
  Forall2 sameButAffiliation (references st)
          (references (snd (enhanceOne env n i target st))).
Proof.
  unfold enhanceOne.
  destruct (progressLabel _); simpl; [| apply Forall2_same_refl].
  destruct (findAffiliation env _ _ _ _) as [result w'].
  destruct (affiliation result) as [found |]; [| apply Forall2_same_refl].
  destruct (nonEmpty found); [| apply Forall2_same_refl].
  destruct (findIndexFrom _ _ _ _); simpl.
  - apply assignAffiliation_same.
  - apply Forall2_same_refl.
Qed.

Lemma enhanceLoop_frame {W} (env : Env W) (n : nat) (targets : list nat) :
  forall (i : nat) (st : LoopState W),
    Forall2 sameButAffiliation (references st)
            (references (snd (enhanceLoop env n i targets st))).
Proof.
  induction targets as [| t targets IH]; intros i st; simpl.
  - apply Forall2_same_refl.
  - pose proof (enhanceOne_frame env n i t st) as H1.
    destruct (enhanceOne env n i t st) as [[u | m] st']; simpl in *.
    + eapply Forall2_same_trans; [exact H1 | apply IH].
    + exact H1.
Qed.

(** What [processEnhancement] persists. *)
Lemma processEnhancement_frame {W} (env : Env W) (j0 : EnhancementJob)
    (table0 : MasterTable.Collection) (w0 : W) :
  let run := processEnhancement env j0 table0 w0 in
  Forall2 sameButAffiliation table0 (table run) /\
  (saved run = [] /\ table run = table0 \/ saved run = [table run]).
Proof.
  unfold processEnhancement.
  destruct table0 as [| r0 rest].
  { simpl. split; [constructor | left; auto]. }
  cbv beta iota zeta.
  set (refs := r0 :: rest).
  destruct (needsEnhancement refs) as [| t ts] eqn:N.
  { simpl. split; [apply Forall2_same_refl | left; auto]. }
  cbv iota.
  pose proof (enhanceLoop_frame env (Datatypes.length (t :: ts)) (t :: ts) 0
                (mkLoop refs 0 (setTotal j0 (Datatypes.length refs)) [] w0)) as F.
  destruct (enhanceLoop env (Datatypes.length (t :: ts)) 0 (t :: ts)
              (mkLoop refs 0 (setTotal j0 (Datatypes.length refs)) [] w0))
    as [[u | m] st]; cbn [snd references table saved] in *.
  - destruct (MasterTable.saveMasterTable (exportTable env) (references st));
      cbn [table saved]; (split; [exact F | right; reflexivity]).
  - split; [apply Forall2_same_refl | left; auto].
Qed.

Lemma startEnhancement_run {W} (env : Env W) (id : string)
    (table0 : MasterTable.Collection) (w0 : W) :
  let run := snd (startEnhancement env id table0 w0) in
  let inner := processEnhancement env (newJob id (now env w0)) table0 w0 in
  table run = table inner /\ saved run = saved inner /\
  resolverCalls run = resolverCalls inner /\ finalWorld run = finalWorld inner.
Proof.
  unfold startEnhancement.
  destruct (completion _); simpl; auto.
Qed.

End EnhancementFacts.

(** C7 (as the code has it).  For every non-empty store in which no record
    has a [firstAuthor] without a [firstAuthorAffiliation], a started
    enhancement job is marked completed at progress 100 at once: the resolver
    is not called, nothing is handed to [saveMasterTable], and the store and
    the outside world are as before. *)
Theorem enhancement_empty_working_set :
  forall (W : Type) (env : Enhancement.Env W) (id : string)
         (table0 : MasterTable.Collection) (w0 : W),
    table0 <> [] ->
    (forall r, In r table0 -> Enhancement.needs r = false) ->
    let run := snd (Enhancement.startEnhancement env id table0 w0) in
    Enhancement.status (Enhancement.finalJob run) = Job.completed /\
    Enhancement.progress (Enhancement.finalJob run) = 100 /\
    Enhancement.error (Enhancement.finalJob run) = None /\
    Enhancement.resolverCalls run = [] /\
    Enhancement.saved run = [] /\
    Enhancement.table run = table0 /\
    Enhancement.finalWorld run = w0.
Proof.
  intros W env id table0 w0 Hne Hnone.
  unfold Enhancement.startEnhancement, Enhancement.processEnhancement.
  destruct table0 as [| r0 rest]; [contradiction |].
  unfold Enhancement.needsEnhancement.
  rewrite (EnhancementFacts.needsEnhancementFrom_nil _ Hnone 0).
  simpl. repeat split.
Qed.

Lemma enhancement_empty_working_set_witness :
  [EnhancementSpec.sampleReference "Hill '79" "D. R. Hill" "MIT (US)"] <> [] /\
  (forall r, In r [EnhancementSpec.sampleReference "Hill '79" "D. R. Hill" "MIT (US)"] ->
             Enhancement.needs r = false) /\
  let run := snd (Enhancement.startEnhancement EnhancementSpec.mitEnv "job-1"
                    [EnhancementSpec.sampleReference "Hill '79" "D. R. Hill" "MIT (US)"] tt) in
  Enhancement.status (Enhancement.finalJob run) = Job.completed /\
  Enhancement.progress (Enhancement.finalJob run) = 100 /\
  Enhancement.resolverCalls run = [] /\
  Enhancement.saved run = [].
Proof.
  assert (H1 : [EnhancementSpec.sampleReference "Hill '79" "D. R. Hill" "MIT (US)"] <> [])
    by discriminate.
  assert (H2 : forall r,
             In r [EnhancementSpec.sampleReference "Hill '79" "D. R. Hill" "MIT (US)"] ->
             Enhancement.needs r = false)
    by (intros r [<- | []]; reflexivity).
  split; [exact H1 |]. split; [exact H2 |].
  destruct (enhancement_empty_working_set unit EnhancementSpec.mitEnv "job-1" _ tt H1 H2)
    as (Hs & Hp & _ & Hc & Hsv & _).
  repeat split; assumption.
Defined.

(** C7, as stated, fails on the empty store: its working set is empty, yet
    the job is marked failed, with the error of the guard on an empty master
    table. *)
Lemma enhancement_empty_store_counterexample :
  (forall r, In r (@nil Types.ExtractedReference) -> Enhancement.needs r = false) /\
  let run := snd (Enhancement.startEnhancement EnhancementSpec.idleEnv "job-1" [] tt) in
  Enhancement.status (Enhancement.finalJob run) = Job.failed /\
  Enhancement.error (Enhancement.finalJob run) = Some "No references found in master table" /\
  Enhancement.progress (Enhancement.finalJob run) = 0.
Proof.
  split; [intros r [] |]. repeat split.
Qed.

(** C9.  An enhancement run changes at most the [firstAuthorAffiliation]
    field of the stored records: the collection persisted after the run, and
    any collection handed to [saveMasterTable] during it, has the records of
    the loaded collection in the same number and order, each with every other
    field unchanged. *)
Theorem enhancement_changes_only_affiliation :
  forall (W : Type) (env : Enhancement.Env W) (id : string)
         (table0 : MasterTable.Collection) (w0 : W),
    let run := snd (Enhancement.startEnhancement env id table0 w0) in
    Forall2 EnhancementSpec.sameButAffiliation table0 (Enhancement.table run) /\
    List.length (Enhancement.table run) = List.length table0 /\
    (forall savedCollection,
        In savedCollection (Enhancement.saved run) ->
        savedCollection = Enhancement.table run /\
        Forall2 EnhancementSpec.sameButAffiliation table0 savedCollection) /\
    (Enhancement.saved run = [] -> Enhancement.table run = table0).
Proof.
  intros W env id table0 w0 run.
  destruct (EnhancementFacts.startEnhancement_run env id table0 w0) as (Ht & Hs & _ & _).
  destruct (EnhancementFacts.processEnhancement_frame env
              (Enhancement.newJob id (Enhancement.now env w0)) table0 w0) as [F S].
  fold run in Ht, Hs. rewrite <- Ht in F, S. rewrite <- Hs in S.
  split; [exact F |].
  split; [symmetry; eapply Forall2_length; exact F |].
  split.
  - intros c Hin. destruct S as [[S _] | S]; rewrite S in Hin.
    + destruct Hin.
    + destruct Hin as [<- | []]. split; [reflexivity | exact F].
  - intros E. destruct S as [[_ S] | S]; [exact S |].
    rewrite S in E. discriminate.
Qed.

(** A run with the resolver of [AffiliationFinder]: one record without an
    affiliation, an index whose top hit lists "Norbert Wiener" at MIT, tier 1
    unreachable and tier 2 without a credential.  The record gets the
    affiliation from tier 3, and the collection is saved once. *)
Example enhancement_run_with_resolver :
  let record := EnhancementSpec.sampleReference "Wiener '48" "N. Wiener" "" in
  let run := snd (Enhancement.startEnhancement
                    (EnhancementSpec.resolverEnv Samples.offlineConfig Samples.wienerNetwork)
                    "job-1" [record] []) in
  Enhancement.status (Enhancement.finalJob run) = Job.completed /\
  Enhancement.enhancedReferences (Enhancement.finalJob run) = 1 /\
  Enhancement.table run = [Types.setAffiliation record (Js.JStr "MIT (US)")] /\
  Enhancement.saved run = [Enhancement.table run] /\
  Enhancement.finalWorld run
  = [AffiliationFinder.Delay 1000;
     AffiliationFinder.Fetch (AffiliationFinder.SemanticScholarSearch "A title");
     AffiliationFinder.Fetch (AffiliationFinder.OpenAlexWorks "A title" (Some "1979"))].
Proof. repeat split. Qed.

(** ** Record store *)

Module MasterTableFacts.
Import JsString Js Types MasterTable MasterTableSpec StringFacts.

Lemma register_normal (r : ExtractedReference) (ks rs ks' rs' : StringSet) :
  register r (ks, rs) = Normal (ks', rs') ->
  ks' = addKey r ks /\ rs' = addRaw r rs.
Proof.
  unfold register, addKey, addRaw, keyText, rawText, normalizeText, add.
  destruct (citationKey r) as [| | [|] | n | k | l | f]; simpl;
    try discriminate;
    try (destruct (n =? 0)%Z; simpl; try discriminate);
    try (destruct (nonEmpty k); simpl);
    destruct (referenceRaw r) as [| | [|] | n' | t | l' | f']; simpl;
    try discriminate;
    try (destruct (n' =? 0)%Z; simpl; try discriminate);
    try (destruct (nonEmpty t); simpl);
    intros H; injection H as <- <-; auto.
Qed.

Lemma registerAll_app (l1 l2 : list ExtractedReference) (s : StringSet * StringSet) :
  registerAll (l1 ++ l2) s = (s' <- registerAll l1 s ;; registerAll l2 s').
Proof.
  revert s. induction l1 as [| r l1 IH]; intros s; simpl; [reflexivity |].
  destruct (register r s) as [s1 | m]; simpl; [apply IH | reflexivity].
Qed.

Lemma has_cons (s : StringSet) (y x : string) :
  has (y :: s) x = true <-> x = y \/ has s x = true.
Proof.
  unfold has; simpl. rewrite orb_true_iff.
  destruct (String.eqb_spec x y); split; intros [H | H]; auto; congruence.
Qed.

Lemma mirrors_nil : mirrors [] ([], []).
Proof.
  split; intros x; simpl; split; try discriminate; intros (e & [] & _).
Qed.

Lemma mirrors_register (collection : list ExtractedReference) (r : ExtractedReference)
    (s s' : StringSet * StringSet) :
  mirrors collection s -> register r s = Normal s' -> mirrors (collection ++ [r]) s'.
Proof.
  intros [Hk Hr] R. destruct s as [ks rs], s' as [ks' rs'].
  apply register_normal in R. destruct R as [-> ->].
  simpl in *. split; intros x; simpl.
  - unfold addKey. destruct (keyText r) as [k |] eqn:K.
    + rewrite has_cons, Hk. split.
      * intros [-> | (e & Hin & He)].
        -- exists r. split; [apply in_or_app; right; left; reflexivity | exact K].
        -- exists e. split; [apply in_or_app; left; exact Hin | exact He].
      * intros (e & Hin & He). apply in_app_or in Hin.
        destruct Hin as [Hin | [<- | []]].
        -- right. exists e; auto.
        -- left. congruence.
    + rewrite Hk. split.
      * intros (e & Hin & He). exists e. split; [apply in_or_app; left; exact Hin | exact He].
      * intros (e & Hin & He). apply in_app_or in Hin.
        destruct Hin as [Hin | [<- | []]]; [exists e; auto | congruence].
  - unfold addRaw. destruct (rawText r) as [t |] eqn:K.
    + rewrite has_cons, Hr. split.
      * intros [-> | (e & Hin & He)].
        -- exists r. split; [apply in_or_app; right; left; reflexivity | exact K].
        -- exists e. split; [apply in_or_app; left; exact Hin | exact He].
      * intros (e & Hin & He). apply in_app_or in Hin.
        destruct Hin as [Hin | [<- | []]].
        -- right. exists e; auto.
        -- left. congruence.
    + rewrite Hr. split.
      * intros (e & Hin & He). exists e. split; [apply in_or_app; left; exact Hin | exact He].
      * intros (e & Hin & He). apply in_app_or in Hin.
        destruct Hin as [Hin | [<- | []]]; [exists e; auto | congruence].
Qed.

Lemma mirrors_registerAll (l collection : list ExtractedReference)
    (s s' : StringSet * StringSet) :
  mirrors collection s -> registerAll l s = Normal s' -> mirrors (collection ++ l) s'.
Proof.
  revert collection s. induction l as [| r l IH]; intros collection s M R; simpl in R.
  - injection R as <-. rewrite app_nil_r. exact M.
  - destruct (register r s) as [s1 | m] eqn:R1; simpl in R; [| discriminate].
    replace (collection ++ r :: l) with ((collection ++ [r]) ++ l)
      by (rewrite <- app_assoc; reflexivity).
    eapply IH; [eapply mirrors_register; eauto | exact R].
Qed.

Lemma isDuplicate_normal (r : ExtractedReference) (s : StringSet * StringSet) (b : bool) :
  isDuplicate r s = Normal b -> b = duplicateIn r s.
Proof.
  destruct s as [ks rs].
  unfold isDuplicate, duplicateIn, keyText, rawText, normalizeText. simpl.
  destruct (citationKey r) as [| | [|] | n | k | l | f]; simpl;
    try discriminate;
    try (destruct (n =? 0)%Z; simpl; try discriminate);
    try (destruct (nonEmpty k); simpl; try destruct (has ks (toLowerCase k)); simpl);
    try (intros H; injection H as <-; reflexivity);
    destruct (referenceRaw r) as [| | [|] | n' | t | l' | f']; simpl;
    try discriminate;
    try (destruct (n' =? 0)%Z; simpl; try discriminate);
    try (destruct (nonEmpty t); simpl);
    intros H; injection H as <-; reflexivity.
Qed.

Lemma agree_true (a b : option string) :
  agree a b = true <-> exists x, a = Some x /\ b = Some x.
Proof.
  destruct a as [x |], b as [y |]; simpl; split;
    try discriminate; try (intros (z & H1 & H2); discriminate).
  - intros H. apply String.eqb_eq in H. subst. eauto.
  - intros (z & H1 & H2). apply String.eqb_eq. congruence.
Qed.

Lemma duplicateIn_mirrors (collection : list ExtractedReference) (r : ExtractedReference)
    (s : StringSet * StringSet) :
  mirrors collection s -> duplicateIn r s = isDuplicateOf collection r.
Proof.
  intros [Hk Hr].
  apply eq_true_iff_eq. unfold duplicateIn, isDuplicateOf.
  rewrite orb_true_iff, existsb_exists. split.
  - intros [H | H].
    + destruct (keyText r) as [k |] eqn:K; [| discriminate].
      apply Hk in H. destruct H as (e & Hin & He).
      exists e. split; [exact Hin |]. unfold matches. rewrite K, He. simpl.
      rewrite String.eqb_refl. reflexivity.
    + destruct (rawText r) as [t |] eqn:K; [| discriminate].
      apply Hr in H. destruct H as (e & Hin & He).
      exists e. split; [exact Hin |]. unfold matches. rewrite K, He. simpl.
      rewrite String.eqb_refl. apply orb_true_r.
  - intros (e & Hin & Hm). unfold matches in Hm. apply orb_true_iff in Hm.
    destruct Hm as [Hm | Hm]; apply agree_true in Hm; destruct Hm as (x & Hx & He).
    + left. rewrite Hx. apply Hk. eauto.
    + right. rewrite Hx. apply Hr. eauto.
Qed.

(** The loop of [addToMasterTable] does what the specification words. *)
Lemma mergeStep_normal (st st1 : MergeState) (r : ExtractedReference) :
  mergeStep st r = Normal st1 ->
  (duplicateIn r (sets st) = true /\
   st1 = mkMergeState (existing st) (sets st) (addedCount st) (S (duplicateCount st)))
  \/
  (duplicateIn r (sets st) = false /\
   exists s1, register r (sets st) = Normal s1 /\
     st1 = mkMergeState (existing st ++ [r]) s1 (S (addedCount st)) (duplicateCount st)).
Proof.
  unfold mergeStep.
  destruct (isDuplicate r (sets st)) as [b | m] eqn:D; simpl; [| discriminate].
  apply isDuplicate_normal in D. destruct b.
  - intros H. injection H as <-. left. auto.
  - destruct (register r (sets st)) as [s1 | m] eqn:R; simpl; [| discriminate].
    intros H. injection H as <-. right. split; [auto |]. exists s1. auto.
Qed.

Lemma mergeLoop_refines (l : list ExtractedReference) :
  forall st st',
    mirrors (existing st) (sets st) ->
    mergeLoop l st = Normal st' ->
    (existing st', addedCount st', duplicateCount st')
    = mergeBySpec (existing st) l (addedCount st) (duplicateCount st)
    /\ mirrors (existing st') (sets st').
Proof.
  induction l as [| r l IH]; intros st st' M L; simpl in L.
  - injection L as <-. simpl. auto.
  - destruct (mergeStep st r) as [st1 | m] eqn:S1; simpl in L; [| discriminate].
    apply mergeStep_normal in S1. simpl.
    rewrite <- (duplicateIn_mirrors _ r _ M).
    destruct S1 as [[D ->] | [D (s1 & R & ->)]]; rewrite D.
    + apply (IH (mkMergeState (existing st) (sets st) (addedCount st)
                              (S (duplicateCount st))) st'); [exact M | exact L].
    + apply (IH (mkMergeState (existing st ++ [r]) s1 (S (addedCount st))
                              (duplicateCount st)) st'); [| exact L].
      simpl. eapply mirrors_register; eauto.
Qed.

Lemma mergeLoop_registered (l : list ExtractedReference) :
  forall st st',
    registerAll (existing st) ([], []) = Normal (sets st) ->
    mergeLoop l st = Normal st' ->
    registerAll (existing st') ([], []) = Normal (sets st').
Proof.
  induction l as [| r l IH]; intros st st' G L; simpl in L.
  - injection L as <-. exact G.
  - destruct (mergeStep st r) as [st1 | m] eqn:S1; simpl in L; [| discriminate].
    apply mergeStep_normal in S1.
    destruct S1 as [[D ->] | [D (s1 & R & ->)]].
    + apply (IH (mkMergeState (existing st) (sets st) (addedCount st)
                              (S (duplicateCount st))) st'); [exact G | exact L].
    + apply (IH (mkMergeState (existing st ++ [r]) s1 (S (addedCount st))
                              (duplicateCount st)) st'); [| exact L].
      simpl. rewrite registerAll_app, G. simpl. rewrite R. reflexivity.
Qed.

Lemma within_refl (s : StringSet * StringSet) : within s s.
Proof. split; auto. Qed.

Lemma within_trans (a b c : StringSet * StringSet) :
  within a b -> within b c -> within a c.
Proof. intros [H1 H2] [H3 H4]. split; auto. Qed.

Lemma register_within (r : ExtractedReference) (s s' : StringSet * StringSet) :
  register r s = Normal s' -> within s s'.
Proof.
  destruct s as [ks rs], s' as [ks' rs']. intros R.
  apply register_normal in R. destruct R as [-> ->].
  unfold addKey, addRaw. split; intros x H; simpl in *.
  - destruct (keyText r); [apply has_cons; right |]; exact H.
  - destruct (rawText r); [apply has_cons; right |]; exact H.
Qed.

Lemma mergeLoop_within (l : list ExtractedReference) :
  forall st st', mergeLoop l st = Normal st' -> within (sets st) (sets st').
Proof.
  induction l as [| r l IH]; intros st st' L; simpl in L.
  - injection L as <-. apply within_refl.
  - destruct (mergeStep st r) as [st1 | m] eqn:S1; simpl in L; [| discriminate].
    apply mergeStep_normal in S1.
    destruct S1 as [[D ->] | [D (s1 & R & ->)]].
    + apply IH in L. exact L.
    + apply IH in L. simpl in L.
      eapply within_trans; [eapply register_within; eauto | exact L].
Qed.

(** A record with a citation key that tested as a duplicate keeps testing
    so when the sets grow. *)
Lemma isDuplicate_within (r : ExtractedReference) (s s' : StringSet * StringSet) :
  hasCitationKey r ->
  isDuplicate r s = Normal true -> within s s' -> isDuplicate r s' = Normal true.
Proof.
  intros (k & K & Hk) D [Wk Wr]. apply nonEmpty_true_iff in Hk.
  destruct s as [ks rs], s' as [ks' rs']. simpl in *.
  unfold isDuplicate in *. rewrite K in *. simpl in *. rewrite Hk in *. simpl in *.
  destruct (has ks' (toLowerCase k)) eqn:H'; [reflexivity |].
  destruct (has ks (toLowerCase k)) eqn:H.
  - apply Wk in H. congruence.
  - destruct (truthy (referenceRaw r)); [| discriminate].
    destruct (normalizeText (referenceRaw r)) as [t | m]; simpl in *; [| discriminate].
    injection D as D. rewrite (Wr _ D). reflexivity.
Qed.

Lemma mergeStep_makes_duplicate (st st1 : MergeState) (r : ExtractedReference) :
  hasCitationKey r ->
  mergeStep st r = Normal st1 -> isDuplicate r (sets st1) = Normal true.
Proof.
  intros HK S1. pose proof HK as (k & K & Hk). apply nonEmpty_true_iff in Hk.
  unfold mergeStep in S1.
  destruct (isDuplicate r (sets st)) as [[|] | m] eqn:D; simpl in S1; try discriminate.
  - injection S1 as <-. exact D.
  - destruct (register r (sets st)) as [[ks1 rs1] | m] eqn:R; simpl in S1; [| discriminate].
    injection S1 as <-. simpl.
    destruct (sets st) as [ks rs]. apply register_normal in R. destruct R as [-> ->].
    unfold isDuplicate. rewrite K. simpl. rewrite Hk. simpl.
    unfold addKey, keyText. rewrite K, Hk.
    assert (H : has (toLowerCase k :: ks) (toLowerCase k) = true)
      by (apply has_cons; left; reflexivity).
    rewrite H. reflexivity.
Qed.

Lemma mergeLoop_all_duplicates (l : list ExtractedReference) :
  forall st st',
    (forall r, In r l -> hasCitationKey r) ->
    mergeLoop l st = Normal st' ->
    forall r, In r l -> isDuplicate r (sets st') = Normal true.
Proof.
  induction l as [| r0 l IH]; intros st st' HK L r Hin; [destruct Hin |].
  simpl in L.
  destruct (mergeStep st r0) as [st1 | m] eqn:S1; simpl in L; [| discriminate].
  destruct Hin as [<- | Hin].
  - eapply isDuplicate_within.
    + apply HK. left; reflexivity.
    + eapply mergeStep_makes_duplicate; [apply HK; left; reflexivity | exact S1].
    + eapply mergeLoop_within; exact L.
  - eapply IH; [| exact L | exact Hin].
    intros r' Hr'. apply HK. right; exact Hr'.
Qed.

Lemma mergeLoop_of_duplicates (l : list ExtractedReference) :
  forall st,
    (forall r, In r l -> isDuplicate r (sets st) = Normal true) ->
    mergeLoop l st =
    Normal (mkMergeState (existing st) (sets st) (addedCount st)
                         (duplicateCount st + List.length l)).
Proof.
  induction l as [| r l IH]; intros st H; simpl.
  - rewrite Nat.add_0_r. destruct st; reflexivity.
  - unfold mergeStep. rewrite (H r (or_introl eq_refl)). simpl.
    rewrite IH.
    + simpl. rewrite Nat.add_succ_r. reflexivity.
    + intros r' Hr'. simpl. apply H. right; exact Hr'.
Qed.

(** On storable records the merge completes. *)
Lemma register_total (r : ExtractedReference) (s : StringSet * StringSet) :
  storable r -> exists s', register r s = Normal s'.
Proof.
  destruct s as [ks rs]. intros [Hk Hr]. unfold register, normalizeText.
  destruct (citationKey r) as [| | [|] | n | k | l | f]; simpl in *;
    try discriminate;
    try (rewrite Hk; simpl);
    try (destruct (nonEmpty k); simpl);
    destruct (referenceRaw r) as [| | [|] | n' | t | l' | f']; simpl in *;
    try discriminate;
    try (rewrite Hr; simpl);
    try (destruct (nonEmpty t); simpl);
    eauto.
Qed.

Lemma isDuplicate_total (r : ExtractedReference) (s : StringSet * StringSet) :
  storable r -> exists b, isDuplicate r s = Normal b.
Proof.
  destruct s as [ks rs]. intros [Hk Hr]. unfold isDuplicate, normalizeText.
  destruct (citationKey r) as [| | [|] | n | k | l | f]; simpl in *;
    try discriminate;
    try (rewrite Hk; simpl);
    try (destruct (nonEmpty k); simpl; try destruct (has ks (toLowerCase k)); simpl);
    eauto;
    destruct (referenceRaw r) as [| | [|] | n' | t | l' | f']; simpl in *;
    try discriminate;
    try (rewrite Hr; simpl);
    try (destruct (nonEmpty t); simpl);
    eauto.
Qed.

Lemma registerAll_total (l : list ExtractedReference) :
  (forall r, In r l -> storable r) ->
  forall s, exists s', registerAll l s = Normal s'.
Proof.
  induction l as [| r l IH]; intros H s; simpl; [eauto |].
  destruct (register_total r s (H r (or_introl eq_refl))) as (s1 & ->). simpl.
  apply IH. intros r' Hr'. apply H. right; exact Hr'.
Qed.

Lemma mergeLoop_total (l : list ExtractedReference) :
  (forall r, In r l -> storable r) ->
  forall st, exists st', mergeLoop l st = Normal st'.
Proof.
  induction l as [| r l IH]; intros H st; simpl; [eauto |].
  assert (Hr : storable r) by (apply H; left; reflexivity).
  assert (Hl : forall r', In r' l -> storable r') by (intros r' Hr'; apply H; right; exact Hr').
  unfold mergeStep.
  destruct (isDuplicate_total r (sets st) Hr) as ([|] & ->); simpl.
  - apply IH. exact Hl.
  - destruct (register_total r (sets st) Hr) as (s1 & ->). simpl. apply IH. exact Hl.
Qed.

(** A call that completes: its loops completed, and so did its save. *)
Lemma addToMasterTable_normal (exports : Exporter) (newReferences : list ExtractedReference)
    (table : Collection) (stats : MergeStats) (table1 : Collection) :
  addToMasterTable exports newReferences table = (Normal stats, table1) ->
  exists sets0 st,
    registerAll table ([], []) = Normal sets0 /\
    mergeLoop newReferences (mkMergeState table sets0 0 0) = Normal st /\
    saveMasterTable exports (existing st) = Normal tt /\
    table1 = existing st /\
    stats = mkStats (addedCount st) (duplicateCount st) (List.length (existing st)).
Proof.
  unfold addToMasterTable.
  destruct (registerAll table ([], [])) as [sets0 | m] eqn:R0; simpl; [| discriminate].
  destruct (mergeLoop newReferences (mkMergeState table sets0 0 0)) as [st | m] eqn:L;
    [| discriminate].
  destruct (saveMasterTable exports (existing st)) as [[] | m] eqn:Sv; simpl;
    [| discriminate].
  intros H. injection H as <- <-. exists sets0, st.
  split; [reflexivity |]. split; [exact L |]. split; [exact Sv |]. split; reflexivity.
Qed.

(** What a call hands to the save is what it leaves persisted; a call that
    hands nothing throws and leaves the table as it was. *)
Lemma writes_cases (exports : Exporter) (newReferences : list ExtractedReference)
    (table : Collection) :
  (writes newReferences table = [] /\
   exists m, addToMasterTable exports newReferences table = (Throw m, table))
  \/
  (writes newReferences table = [snd (addToMasterTable exports newReferences table)] /\
   exists stats,
     fst (addToMasterTable exports newReferences table)
     = match saveMasterTable exports
               (snd (addToMasterTable exports newReferences table)) with
       | Normal _ => Normal stats
       | Throw m => Throw m
       end).
Proof.
  unfold writes, addToMasterTable.
  destruct (registerAll table ([], [])) as [sets0 | m]; simpl; [| left; eauto].
  destruct (mergeLoop newReferences (mkMergeState table sets0 0 0)) as [st | m];
    simpl; [| left; eauto].
  right. split; [reflexivity |].
  exists (mkStats (addedCount st) (duplicateCount st) (List.length (existing st))).
  destruct (saveMasterTable exports (existing st)) as [[] | m]; reflexivity.
Qed.

(** Whatever the collection holds after the loop was there before or came
    with the incoming records. *)
Lemma mergeLoop_origin (l : list ExtractedReference) :
  forall st st',
    mergeLoop l st = Normal st' ->
    forall r, In r (existing st') -> In r (existing st) \/ In r l.
Proof.
  induction l as [| r0 l IH]; intros st st' L r Hin; simpl in L.
  - injection L as <-. left; exact Hin.
  - destruct (mergeStep st r0) as [st1 | m] eqn:S1; simpl in L; [| discriminate].
    apply mergeStep_normal in S1.
    destruct (IH _ _ L r Hin) as [H | H]; [| right; right; exact H].
    destruct S1 as [[D ->] | [D (s1 & R & ->)]]; simpl in H.
    + left; exact H.
    + apply in_app_or in H. destruct H as [H | [<- | []]];
        [left; exact H | right; left; reflexivity].
Qed.

Lemma addToMasterTable_origin (exports : Exporter)
    (newReferences : list ExtractedReference) (table : Collection) :
  forall r, In r (snd (addToMasterTable exports newReferences table)) ->
            In r table \/ In r newReferences.
Proof.
  intros r. unfold addToMasterTable.
  destruct (registerAll table ([], [])) as [sets0 | m]; simpl; [| auto].
  destruct (mergeLoop newReferences (mkMergeState table sets0 0 0)) as [st | m] eqn:L;
    simpl; [| auto].
  apply (mergeLoop_origin _ _ _ L).
Qed.

(** On the merge as the specification words it: the counters add up, and
    something is added exactly when some incoming record duplicates nothing
    in the collection the merge started from. *)
Lemma mergeBySpec_counts (l : list ExtractedReference) :
  forall c a d,
    let '(c', a', d') := mergeBySpec c l a d in
    a <= a' /\ a' + d' = a + d + List.length l /\
    List.length c' = List.length c + (a' - a) /\
    (a < a' <-> exists r, In r l /\ isDuplicateOf c r = false).
Proof.
  induction l as [| r l IH]; intros c a d; simpl.
  - repeat split; try lia. intros (r & [] & _).
  - destruct (isDuplicateOf c r) eqn:D.
    + specialize (IH c a (S d)).
      destruct (mergeBySpec c l a (S d)) as [[c' a'] d'].
      destruct IH as (H1 & H2 & H3 & H4).
      repeat split; try lia.
      * intros Hlt. apply H4 in Hlt. destruct Hlt as (x & Hin & Hx). exists x. auto.
      * intros (x & [<- | Hin] & Hx); [congruence |]. apply H4. exists x. auto.
    + specialize (IH (c ++ [r]) (S a) d).
      destruct (mergeBySpec (c ++ [r]) l (S a) d) as [[c' a'] d'].
      destruct IH as (H1 & H2 & H3 & H4).
      rewrite length_app in H3. simpl in H3.
      repeat split; try lia.
      intros _. exists r. auto.
Qed.

End MasterTableFacts.

(** Two calls in a row, the first one being known to complete. *)
Lemma addToMasterTable_again :
  forall (exports : MasterTable.Exporter) (table : MasterTable.Collection)
         (newReferences : list Types.ExtractedReference)
         (stats1 : MasterTable.MergeStats) (table1 : MasterTable.Collection),
    (forall r, In r newReferences -> MasterTableSpec.hasCitationKey r) ->
    MasterTable.addToMasterTable exports newReferences table = (Js.Normal stats1, table1) ->
    (table1, MasterTable.added stats1, MasterTable.duplicates stats1)
    = MasterTableSpec.mergeBySpec table newReferences 0 0 /\
    MasterTable.total stats1 = List.length table1 /\
    MasterTable.added stats1 + MasterTable.duplicates stats1 = List.length newReferences /\
    (0 < MasterTable.added stats1 <->
     exists r, In r newReferences /\ MasterTableSpec.isDuplicateOf table r = false) /\
    (table = [] -> newReferences <> [] -> 0 < MasterTable.added stats1) /\
    MasterTable.addToMasterTable exports newReferences table1
    = (Js.Normal (MasterTable.mkStats 0 (List.length newReferences)
                                      (MasterTable.total stats1)),
       table1).
Proof.
  intros exports table newReferences stats1 table1 HK Hcall.
  destruct (MasterTableFacts.addToMasterTable_normal _ _ _ _ _ Hcall)
    as (sets0 & st & R0 & L & Sv & -> & ->).
  simpl.
  assert (M0 : MasterTableSpec.mirrors table sets0).
  { apply (MasterTableFacts.mirrors_registerAll table [] _ _
             MasterTableFacts.mirrors_nil R0). }
  destruct (MasterTableFacts.mergeLoop_refines newReferences
              (MasterTable.mkMergeState table sets0 0 0) st M0 L) as [Href _].
  simpl in Href.
  pose proof (MasterTableFacts.mergeBySpec_counts newReferences table 0 0) as C.
  rewrite <- Href in C. destruct C as (_ & Csum & _ & Cpos).
  pose proof (MasterTableFacts.mergeLoop_registered newReferences
                (MasterTable.mkMergeState table sets0 0 0) st R0 L) as R1.
  pose proof (MasterTableFacts.mergeLoop_all_duplicates newReferences
                (MasterTable.mkMergeState table sets0 0 0) st HK L) as D1.
  split; [exact Href |].
  split; [reflexivity |].
  split; [simpl in Csum; lia |].
  split; [exact Cpos |].
  split.
  - intros -> Hne. apply Cpos.
    destruct newReferences as [| r rest]; [contradiction |].
    exists r. split; [left; reflexivity | reflexivity].
  - unfold MasterTable.addToMasterTable. rewrite R1. simpl.
    rewrite (MasterTableFacts.mergeLoop_of_duplicates newReferences
               (MasterTable.mkMergeState (MasterTable.existing st) (MasterTable.sets st) 0 0)
               D1).
    cbn [MasterTable.existing MasterTable.addedCount MasterTable.duplicateCount].
    rewrite Sv. reflexivity.
Qed.

(** C2 (as the code has it).  Take any store and any list of [N] records
    that each have a citation key.  Whenever a first [addToMasterTable] call
    with that list completes, it has merged as the specification words it: a
    record is a duplicate exactly when its non-empty citation key matches,
    case-insensitively, that of a record already in the collection (stored,
    or appended earlier in the call), or its non-empty raw text matches after
    normalization; duplicates are skipped and the others appended.  Its
    [added] is positive exactly when some incoming record duplicates nothing
    in the store, hence always for a non-empty list on an empty store.  A
    second call with the identical list then completes as well, yields
    [added = 0] and [duplicates = N] and leaves the total and the store
    unchanged.  The first call does complete when the citation keys and raw
    texts of the store and the raw texts of the incoming records are strings
    or absent and the exports of the merged collection succeed; when the
    exports fail it throws their error, the merged collection being persisted
    already. *)
Theorem addToMasterTable_twice :
  forall (exports : MasterTable.Exporter) (table : MasterTable.Collection)
         (newReferences : list Types.ExtractedReference),
    (forall r, In r newReferences -> MasterTableSpec.hasCitationKey r) ->
    (forall (stats1 : MasterTable.MergeStats) (table1 : MasterTable.Collection),
        MasterTable.addToMasterTable exports newReferences table
        = (Js.Normal stats1, table1) ->
        (table1, MasterTable.added stats1, MasterTable.duplicates stats1)
        = MasterTableSpec.mergeBySpec table newReferences 0 0 /\
        MasterTable.total stats1 = List.length table1 /\
        MasterTable.added stats1 + MasterTable.duplicates stats1
        = List.length newReferences /\
        (0 < MasterTable.added stats1 <->
         exists r, In r newReferences /\ MasterTableSpec.isDuplicateOf table r = false) /\
        (table = [] -> newReferences <> [] -> 0 < MasterTable.added stats1) /\
        MasterTable.addToMasterTable exports newReferences table1
        = (Js.Normal (MasterTable.mkStats 0 (List.length newReferences)
                                          (MasterTable.total stats1)),
           table1)) /\
    ((forall r, In r table -> MasterTableSpec.storable r) ->
     (forall r, In r newReferences -> MasterTableSpec.textOrAbsent (Types.referenceRaw r)) ->
     exists (merged : MasterTable.Collection) (added duplicates : nat),
       (merged, added, duplicates) = MasterTableSpec.mergeBySpec table newReferences 0 0 /\
       snd (MasterTable.addToMasterTable exports newReferences table) = merged /\
       fst (MasterTable.addToMasterTable exports newReferences table)
       = match MasterTable.saveMasterTable exports merged with
         | Js.Normal _ =>
             Js.Normal (MasterTable.mkStats added duplicates (List.length merged))
         | Js.Throw m => Js.Throw m
         end).
Proof.
  intros exports table newReferences HK. split.
  - intros stats1 table1 E.
    apply (addToMasterTable_again exports table newReferences stats1 table1 HK E).
  - intros Ht Hr.
    assert (Hs : forall r, In r newReferences -> MasterTableSpec.storable r).
    { intros r Hin. destruct (HK r Hin) as (k & K & _).
      split; [rewrite K; exact I | exact (Hr r Hin)]. }
    unfold MasterTable.addToMasterTable.
    destruct (MasterTable.registerAll table ([], [])) as [sets0 | m] eqn:R0.
    2:{ destruct (MasterTableFacts.registerAll_total table Ht ([], [])) as (s' & R').
        congruence. }
    simpl.
    destruct (MasterTableFacts.mergeLoop_total newReferences Hs
                (MasterTable.mkMergeState table sets0 0 0)) as (st & L).
    rewrite L.
    assert (M0 : MasterTableSpec.mirrors table sets0).
    { apply (MasterTableFacts.mirrors_registerAll table [] _ _
               MasterTableFacts.mirrors_nil R0). }
    destruct (MasterTableFacts.mergeLoop_refines newReferences
                (MasterTable.mkMergeState table sets0 0 0) st M0 L) as [Href _].
    simpl in Href.
    exists (MasterTable.existing st), (MasterTable.addedCount st),
           (MasterTable.duplicateCount st).
    split; [exact Href |]. split; [reflexivity |]. simpl.
    destruct (MasterTable.saveMasterTable exports (MasterTable.existing st)) as [[] | m];
      reflexivity.
Qed.

Lemma addToMasterTable_twice_witness :
  let incoming := [MasterTableSpec.keyed "Hill '79" ""; MasterTableSpec.keyed "HILL '79" "";
                   MasterTableSpec.keyed "Wiener '48" ""] in
  (forall r, In r incoming -> MasterTableSpec.hasCitationKey r) /\
  exists table1,
    MasterTable.addToMasterTable MasterTableSpec.quietExports incoming []
    = (Js.Normal (MasterTable.mkStats 2 1 2), table1) /\
    MasterTable.addToMasterTable MasterTableSpec.quietExports incoming table1
    = (Js.Normal (MasterTable.mkStats 0 3 2), table1) /\
    MasterTable.addToMasterTable MasterTableSpec.failingExports incoming []
    = (Js.Throw "Shared Formula master must exist above and or left of clone", table1).
Proof.
  intros incoming.
  assert (Hn : forall r, In r incoming -> MasterTableSpec.hasCitationKey r).
  { intros r [<- | [<- | [<- | []]]];
      (eexists; split; [reflexivity | discriminate]). }
  split; [exact Hn |].
  destruct (addToMasterTable_twice MasterTableSpec.quietExports [] incoming Hn) as [H1 _].
  assert (E : MasterTable.addToMasterTable MasterTableSpec.quietExports incoming []
              = (Js.Normal (MasterTable.mkStats 2 1 2),
                 [MasterTableSpec.keyed "Hill '79" ""; MasterTableSpec.keyed "Wiener '48" ""]))
    by (vm_compute; reflexivity).
  destruct (H1 _ _ E) as (_ & _ & _ & _ & _ & H2).
  eexists. split; [exact E |]. split; [exact H2 |].
  vm_compute. reflexivity.
Defined.

(** C2, as stated, fails where the store already holds the incoming
    records: the first call adds nothing. *)
Lemma addToMasterTable_first_call_counterexample :
  let r := MasterTableSpec.keyed "Hill '79" "" in
  [r] <> [] /\
  MasterTableSpec.hasCitationKey r /\
  MasterTable.addToMasterTable MasterTableSpec.quietExports [r] [r]
  = (Js.Normal (MasterTable.mkStats 0 1 1), [r]) /\
  ~ (0 < MasterTable.added (MasterTable.mkStats 0 1 1)).
Proof.
  split; [discriminate |].
  split; [eexists; split; [reflexivity | discriminate] |].
  split; [reflexivity |].
  simpl. lia.
Qed.

(** ** Chunking *)

Module ChunkFacts.
Import JsString Js Types LlmBatchExtractor ExtractorSpec StringFacts.

Lemma join_empty_cons (x : string) (l : list string) :
  join EmptyString (x :: l) = (x ++ join EmptyString l)%string.
Proof.
  destruct l as [| y l]; simpl; [| reflexivity].
  induction x as [| c x IH]; simpl; [reflexivity | rewrite <- IH; reflexivity].
Qed.

Lemma substring_ordered (a b : nat) (s : string) :
  a <= b -> substring a b s = take (b - a) (drop a s).
Proof.
  intros H. unfold substring. rewrite Nat.max_r, Nat.min_l by lia. reflexivity.
Qed.

Lemma length_substring (a b : nat) (s : string) :
  a <= b -> b <= length s -> length (substring a b s) = b - a.
Proof.
  intros H1 H2. rewrite substring_ordered by exact H1.
  rewrite length_take, length_drop. lia.
Qed.

Lemma paragraphBreak_bound (text : string) (k : nat) :
  paragraphBreakAt text k -> k + 2 <= length text.
Proof.
  intros H. destruct (occursAt_bound _ _ _ H) as [B | B]; [exact B | discriminate].
Qed.

Lemma chunkEnd_fits (text : string) (chunkSize pos : nat) :
  length text <= pos + chunkSize -> chunkEnd text chunkSize pos = length text.
Proof.
  intros H. unfold chunkEnd. rewrite Nat.min_r by exact H.
  rewrite Nat.ltb_irrefl. reflexivity.
Qed.

(** The two ways a chunk that does not reach the end of the text is cut. *)
Lemma chunkEnd_cases (text : string) (chunkSize pos : nat) :
  500 <= chunkSize ->
  pos + chunkSize < length text ->
  let ideal := pos + chunkSize in
  let e := chunkEnd text chunkSize pos in
  (e = ideal /\
   (paragraphBreakAt text (ideal - 500) \/
    forall k, ideal - 500 <= k -> k < ideal + 500 -> ~ paragraphBreakAt text k))
  \/
  (ideal - 500 < e /\ e < ideal + 500 /\ paragraphBreakAt text e /\
   forall k, ideal - 500 <= k -> k < e -> ~ paragraphBreakAt text k).
Proof.
  intros HB Hlt ideal e. subst e. unfold chunkEnd.
  rewrite Nat.min_l by lia. fold ideal.
  destruct (Nat.ltb_spec ideal (length text)) as [_ | G]; [| lia].
  replace (Z.of_nat ideal - 500)%Z with (Z.of_nat (ideal - 500)) by lia.
  set (p := indexOf text doubleNewline (Z.of_nat (ideal - 500))).
  pose proof (indexOf_range text doubleNewline (Z.of_nat (ideal - 500))) as Hr.
  fold p in Hr.
  destruct (Z_lt_le_dec p 0) as [Hneg | Hpos].
  - (* no double newline from [ideal - 500] on *)
    assert (C : (p >? Z.of_nat (ideal - 500))%Z = false).
    { rewrite Z.gtb_ltb. apply Z.ltb_ge. lia. }
    rewrite C. simpl. left. split; [reflexivity |]. right.
    intros k Hk _. apply (indexOf_missing text doubleNewline (ideal - 500)); [lia | | exact Hk].
    fold p. exact Hneg.
  - destruct (indexOf_found text doubleNewline (ideal - 500) p) as (F1 & F2 & F3);
      [lia | reflexivity | exact Hpos |].
    rewrite Z.gtb_ltb.
    destruct (Z.ltb_spec (Z.of_nat (ideal - 500)) p) as [A | A]; simpl.
    + destruct (Z.ltb_spec p (Z.of_nat ideal + 500)) as [A' | A'].
      * right. repeat split; [lia | lia | exact F2 | exact F3].
      * left. split; [reflexivity |]. right.
        intros k Hk1 Hk2. apply F3; lia.
    + left. split; [reflexivity |]. left.
      replace (ideal - 500) with (Z.to_nat p) by lia. exact F2.
Qed.

Lemma chunkEnd_progress (text : string) (chunkSize pos : nat) :
  500 <= chunkSize -> pos < length text ->
  let e := chunkEnd text chunkSize pos in
  pos < e /\ e <= length text /\ e <= pos + chunkSize + 499.
Proof.
  intros HB Hpos e.
  destruct (Nat.le_gt_cases (length text) (pos + chunkSize)) as [Hfit | Hlong].
  - subst e. rewrite chunkEnd_fits by exact Hfit. lia.
  - pose proof (chunkEnd_cases text chunkSize pos HB Hlong) as C.
    cbv zeta in C. fold e in C.
    destruct C as [[E _] | (E1 & E2 & E3 & _)].
    + lia.
    + apply paragraphBreak_bound in E3. lia.
Qed.

Lemma chunkEnd_follows_rule (text : string) (chunkSize pos : nat) :
  500 <= chunkSize ->
  cutRule text chunkSize pos (chunkEnd text chunkSize pos).
Proof.
  intros HB. unfold cutRule. cbv zeta. split.
  - apply chunkEnd_fits.
  - intros Hlong Hnot.
    destruct (chunkEnd_cases text chunkSize pos HB Hlong)
      as [[E [B | N]] | (E1 & E2 & E3 & E4)].
    + contradiction.
    + split.
      * intros (k & K1 & K2 & K3). exfalso. apply (N k); [lia | exact K2 | exact K3].
      * intros _. exact E.
    + split.
      * intros _. repeat split; [exact E1 | exact E2 | exact E3 |].
        intros k K1 K2. apply E4; lia.
      * intros N. exfalso. apply (N _ E1 E2 E3).
Qed.

Lemma splitLoop_unfold (fuel : nat) (text : string) (chunkSize pos : nat) :
  splitLoop (S fuel) text chunkSize pos =
  if (pos <? length text)%nat
  then option_map (cons (substring pos (chunkEnd text chunkSize pos) text))
                  (splitLoop fuel text chunkSize (chunkEnd text chunkSize pos))
  else Some [].
Proof. reflexivity. Qed.

Lemma splitLoop_done (fuel : nat) (text : string) (chunkSize pos : nat) :
  length text <= pos -> splitLoop fuel text chunkSize pos = Some [].
Proof.
  intros H. destruct fuel; simpl;
    (destruct (Nat.ltb_spec pos (length text)); [lia | reflexivity]).
Qed.

Lemma drop_take_general (k m : nat) (s : string) :
  drop k (take m s) = take (m - k) (drop k s).
Proof.
  revert m s. induction k as [| k IH]; intros m s; simpl.
  - rewrite Nat.sub_0_r. reflexivity.
  - destruct m as [| m]; simpl.
    + destruct s; reflexivity.
    + destruct s as [| c s]; simpl; [rewrite take_nil; reflexivity | apply IH].
Qed.

(** A chunk longer than [chunkSize] ends at a double newline found after
    the ideal point, and holds none from 500 characters before its own
    [chunkSize]-th character on. *)
Lemma long_chunk_no_break (text : string) (chunkSize pos : nat) :
  500 <= chunkSize -> pos < length text ->
  let c := substring pos (chunkEnd text chunkSize pos) text in
  chunkSize < length c ->
  forall k, chunkSize - 500 <= k -> ~ paragraphBreakAt c k.
Proof.
  intros HB Hpos c Hlong k Hk Hocc.
  destruct (chunkEnd_progress text chunkSize pos HB Hpos) as (P1 & P2 & P3).
  set (e := chunkEnd text chunkSize pos) in *.
  assert (Hlen : length c = e - pos) by (apply length_substring; lia).
  assert (Hfar : pos + chunkSize < length text) by lia.
  pose proof (chunkEnd_cases text chunkSize pos HB Hfar) as C.
  cbv zeta in C. fold e in C.
  destruct C as [[E _] | (E1 & E2 & E3 & E4)]; [lia |].
  pose proof (paragraphBreak_bound _ _ Hocc) as Hb.
  apply (E4 (pos + k)); [lia | lia |].
  unfold paragraphBreakAt, occursAt in *.
  subst c. rewrite substring_ordered in Hocc by lia.
  rewrite drop_take_general in Hocc. apply prefix_take in Hocc.
  rewrite drop_drop in Hocc. exact Hocc.
Qed.

(** Such a chunk, split on its own, falls into two pieces at [chunkSize]. *)
Lemma splitLoop_resplit (c : string) (chunkSize : nat) :
  500 <= chunkSize ->
  chunkSize < length c -> length c <= chunkSize + 499 ->
  (forall k, chunkSize - 500 <= k -> ~ paragraphBreakAt c k) ->
  splitLoop (length c) c chunkSize 0 = Some [take chunkSize c; drop chunkSize c].
Proof.
  intros HB Hlong Hshort Hnone.
  assert (E1 : chunkEnd c chunkSize 0 = chunkSize).
  { destruct (chunkEnd_cases c chunkSize 0 HB) as [[E _] | (A1 & A2 & A3 & _)];
      [simpl; lia | exact E |].
    exfalso. apply (Hnone _ (Nat.lt_le_incl _ _ A1) A3). }
  assert (E2 : chunkEnd c chunkSize chunkSize = length c)
    by (apply chunkEnd_fits; lia).
  destruct (length c) as [| [| n]] eqn:L; [lia | lia |].
  rewrite splitLoop_unfold. rewrite L.
  destruct (Nat.ltb_spec 0 (S (S n))) as [_ | G]; [| lia].
  rewrite E1. rewrite splitLoop_unfold. rewrite L.
  destruct (Nat.ltb_spec chunkSize (S (S n))) as [_ | G]; [| lia].
  rewrite E2. rewrite splitLoop_done by lia. cbn [option_map].
  rewrite !substring_ordered by lia.
  rewrite Nat.sub_0_r. change (drop 0 c) with c.
  rewrite (take_all (S (S n) - chunkSize) (drop chunkSize c))
    by (rewrite length_drop; lia).
  reflexivity.
Qed.

(** The loop terminates within [length text - pos] iterations, and its
    chunks are consecutive, non-empty, cut by the rule, and make up the
    text. *)
Lemma splitLoop_chunks (text : string) (chunkSize : nat) :
  500 <= chunkSize ->
  forall fuel pos,
    length text - pos <= fuel ->
    exists chunks,
      splitLoop fuel text chunkSize pos = Some chunks /\
      chunksFrom text chunkSize pos chunks /\
      join EmptyString chunks = drop pos text /\
      Forall (fun c => 0 < length c /\ length c <= chunkSize + 499 /\
                       (chunkSize < length c ->
                        forall k, chunkSize - 500 <= k -> ~ paragraphBreakAt c k)) chunks.
Proof.
  intros HB. induction fuel as [| fuel IH]; intros pos Hfuel.
  - exists []. split; [apply splitLoop_done; lia |].
    split; [constructor; lia |].
    split; [rewrite drop_all by lia; reflexivity | constructor].
  - destruct (Nat.le_gt_cases (length text) pos) as [Hend | Hin].
    + exists []. split; [apply splitLoop_done; lia |].
      split; [constructor; lia |].
      split; [rewrite drop_all by lia; reflexivity | constructor].
    + rewrite splitLoop_unfold.
      destruct (Nat.ltb_spec pos (length text)) as [_ | G]; [| lia].
      destruct (chunkEnd_progress text chunkSize pos HB Hin) as (P1 & P2 & P3).
      set (e := chunkEnd text chunkSize pos) in *.
      destruct (IH e) as (rest & R1 & R2 & R3 & R4); [lia |].
      exists (substring pos e text :: rest).
      rewrite R1. cbn [option_map].
      split; [reflexivity |].
      split; [constructor; try assumption; apply chunkEnd_follows_rule; exact HB |].
      split.
      * rewrite join_empty_cons, R3.
        rewrite substring_ordered by lia.
        replace (drop e text) with (drop (e - pos) (drop pos text)).
        -- apply take_drop.
        -- rewrite drop_drop. f_equal. lia.
      * constructor; [| exact R4].
        rewrite length_substring by lia.
        split; [lia |]. split; [lia |].
        intros Hlong. apply (long_chunk_no_break text chunkSize pos HB Hin).
        fold e. rewrite length_substring by lia. exact Hlong.
Qed.

End ChunkFacts.

(** ** The extractor: what it returns *)

Module ExtractorFacts.
Import JsString Js Types LlmBatchExtractor ExtractorSpec StringFacts.

Lemma truthy_or (a b : JsValue) : truthy (or a b) = truthy a || truthy b.
Proof. unfold or. destruct (truthy a) eqn:E; simpl; [exact E | reflexivity]. Qed.

(** The filter keeps exactly the valid references. *)
Lemma isValid_true_iff (r : ExtractedReference) :
  isValid r = Normal true <-> validReference r.
Proof.
  unfold isValid, validReference. split.
  - destruct (citationKey r) as [| | [|] | n | k | l | f]; simpl; try discriminate.
    + destruct (n =? 0)%Z; simpl; discriminate.
    + destruct (nonEmpty k) eqn:K; simpl; [| discriminate].
      destruct (includes (toLowerCase k) "unknown") eqn:U; [discriminate |].
      intros H. injection H as H. rewrite truthy_or in H.
      apply orb_true_iff in H.
      exists k. split; [reflexivity |].
      split; [apply nonEmpty_true_iff; exact K |].
      split; [exact U | exact H].
  - intros (k & K & Hk & U & T). rewrite K. simpl.
    apply nonEmpty_true_iff in Hk. rewrite Hk. simpl. rewrite U.
    rewrite truthy_or. f_equal. apply orb_true_iff. exact T.
Qed.

(** The three ways the filter drops an entry. *)
Lemma isValid_no_key (r : ExtractedReference) :
  truthy (citationKey r) = false -> isValid r = Normal false.
Proof. intros H. unfold isValid. rewrite H. reflexivity. Qed.

Lemma isValid_unknown (r : ExtractedReference) (k : string) :
  citationKey r = JStr k ->
  includes (toLowerCase k) "unknown" = true ->
  isValid r = Normal false.
Proof.
  intros K U. unfold isValid. rewrite K. simpl.
  destruct (nonEmpty k); simpl; [rewrite U |]; reflexivity.
Qed.

Lemma isValid_no_title_no_author (r : ExtractedReference) (k : string) :
  citationKey r = JStr k ->
  truthy (title r) = false -> truthy (firstAuthor r) = false ->
  isValid r = Normal false.
Proof.
  intros K T A. unfold isValid. rewrite K. simpl.
  destruct (nonEmpty k); simpl; [| reflexivity].
  destruct (includes (toLowerCase k) "unknown"); [reflexivity |].
  rewrite truthy_or, T, A. reflexivity.
Qed.

Lemma filterValid_valid (l l' : list ExtractedReference) :
  filterValid l = Normal l' -> Forall validReference l'.
Proof.
  revert l'. induction l as [| r l IH]; intros l' H; simpl in H.
  - injection H as <-. constructor.
  - destruct (isValid r) as [keep | m] eqn:V; simpl in H; [| discriminate].
    destruct (filterValid l) as [rs | m] eqn:F; simpl in H; [| discriminate].
    injection H as <-. specialize (IH rs eq_refl).
    destruct keep; [| exact IH].
    constructor; [apply isValid_true_iff; exact V | exact IH].
Qed.

Lemma extractOnce_valid (rt : Runtime) (create : CallLog -> string -> ModelReply)
    (text : string) (log : CallLog) :
  Forall validReference (settle (fst (extractOnce rt create text log))).
Proof.
  unfold extractOnce.
  destruct (create log (userContent text)) as [m | [content |]]; simpl; try constructor.
  destruct (nonEmpty content); simpl; [| constructor].
  destruct (parseWithRecovery rt content) as [parsed | m]; simpl; [| constructor].
  destruct (referencesArrayOf parsed) as [arr | m]; simpl; [| constructor].
  destruct (mapReferences arr 0) as [refs | m]; simpl; [| constructor].
  destruct (filterValid refs) as [valid | m] eqn:F; simpl; [| constructor].
  eapply filterValid_valid; exact F.
Qed.

Lemma extractOnce_log (rt : Runtime) (create : CallLog -> string -> ModelReply)
    (text : string) (log : CallLog) :
  snd (extractOnce rt create text log) = log ++ [userContent text].
Proof.
  unfold extractOnce.
  destruct (create log (userContent text)) as [m | [content |]]; simpl; try reflexivity.
  destruct (nonEmpty content); reflexivity.
Qed.

(** Deduplication: on valid references it completes, and keeps the first
    occurrence of each case-folded key. *)
Lemma firstOccurrences_Forall (P : ExtractedReference -> Prop) (l : list ExtractedReference) :
  Forall P l -> forall before, Forall P (firstOccurrences before l).
Proof.
  induction 1 as [| r l Hr Hl IH]; intros before; simpl; [constructor |].
  destruct (existsb _ before); [apply IH | constructor; [exact Hr | apply IH]].
Qed.

Lemma existsb_seen (seen : list string) (before : list ExtractedReference) (key : string) :
  sameKeys seen before ->
  existsb (String.eqb key) seen =
  existsb (fun r' => String.eqb key (foldedKey r')) before.
Proof.
  intros S. apply eq_true_iff_eq. rewrite !existsb_exists. split.
  - intros (x & Hin & E). apply String.eqb_eq in E. subst x.
    apply S in Hin. destruct Hin as (r & Hr & Hk).
    exists r. split; [exact Hr | rewrite Hk; apply String.eqb_refl].
  - intros (r & Hr & E). apply String.eqb_eq in E.
    exists key. split; [apply S; exists r; auto | apply String.eqb_refl].
Qed.

Lemma dedupe_firstOccurrences (l : list ExtractedReference) :
  Forall validReference l ->
  forall seen before,
    sameKeys seen before ->
    dedupe seen l = Normal (firstOccurrences before l).
Proof.
  induction 1 as [| r l Hr Hl IH]; intros seen before S; simpl; [reflexivity |].
  destruct Hr as (k & K & _).
  assert (Hkey : foldedKey r = toLowerCase k) by (unfold foldedKey; rewrite K; reflexivity).
  rewrite K. simpl. rewrite Hkey.
  rewrite (existsb_seen seen before _ S).
  destruct (existsb (fun r' => String.eqb (toLowerCase k) (foldedKey r')) before) eqn:E.
  - apply IH. intros x. rewrite (S x). split.
    + intros (r' & Hin & Hx). exists r'. split; [apply in_or_app; left; exact Hin | exact Hx].
    + intros (r' & Hin & Hx). apply in_app_or in Hin.
      destruct Hin as [Hin | [<- | []]]; [exists r'; auto |].
      apply existsb_exists in E. destruct E as (r2 & Hr2 & E2).
      apply String.eqb_eq in E2. exists r2. split; [exact Hr2 | congruence].
  - rewrite (IH (toLowerCase k :: seen) (before ++ [r])); [reflexivity |].
    intros x. simpl. rewrite (S x). split.
    + intros [<- | (r' & Hin & Hx)].
      * exists r. split; [apply in_or_app; right; left; reflexivity | exact Hkey].
      * exists r'. split; [apply in_or_app; left; exact Hin | exact Hx].
    + intros (r' & Hin & Hx). apply in_app_or in Hin.
      destruct Hin as [Hin | [<- | []]]; [right; exists r'; auto | left; congruence].
Qed.

Lemma sameKeys_nil : sameKeys [] [].
Proof. intros x; simpl; split; [intros [] | intros (r & [] & _)]. Qed.

(** Chunk by chunk. *)
Lemma extractEach_results
    (extract : string -> CallLog -> option (list ExtractedReference * CallLog))
    (chunks : list string) :
  forall log all log',
    extractEach extract chunks log = Some (all, log') <->
    exists results, chunkResults extract chunks log results log' /\ all = List.concat results.
Proof.
  induction chunks as [| c chunks IH]; intros log all log'; simpl.
  - split.
    + intros H. injection H as <- <-. exists []. split; [constructor | reflexivity].
    + intros (results & R & ->). inversion R; subst. reflexivity.
  - split.
    + destruct (extract c log) as [[r log1] |] eqn:E; [| discriminate].
      destruct (extractEach extract chunks log1) as [[others log2] |] eqn:E2; [| discriminate].
      intros H. injection H as <- <-.
      apply IH in E2. destruct E2 as (rs & R & ->).
      exists (r :: rs). split; [econstructor; eauto | reflexivity].
    + intros (results & R & ->). inversion R; subst.
      match goal with H : extract c log = Some _ |- _ => rewrite H end.
      match goal with H : chunkResults _ chunks _ _ _ |- _ =>
        rewrite (proj2 (IH _ _ _) (ex_intro _ _ (conj H eq_refl))) end.
      reflexivity.
Qed.

Lemma chunkResults_Forall
    (extract : string -> CallLog -> option (list ExtractedReference * CallLog))
    (P : ExtractedReference -> Prop) :
  (forall c log r log', extract c log = Some (r, log') -> Forall P r) ->
  forall chunks log results log',
    chunkResults extract chunks log results log' -> Forall P (List.concat results).
Proof.
  intros HP chunks log results log' R.
  induction R; simpl; [constructor |].
  apply Forall_app. split; [eapply HP; eauto | assumption].
Qed.

Lemma extractAll_unfold (depth : nat) (rt : Runtime) (text : string) (log : CallLog) :
  extractAllReferencesWithLLM depth rt text log =
  match openai rt with
  | None => Some ([], log)
  | Some create =>
      match (if (maxChars <? length text)%nat
             then match depth with
                  | O => None
                  | S depth' =>
                      extractInChunks (extractAllReferencesWithLLM depth' rt)
                                      text maxChars log
                  end
             else Some (extractOnce rt create text log)) with
      | None => None
      | Some (Normal validReferences, log') => Some (validReferences, log')
      | Some (Throw _, log') => Some ([], log')
      end
  end.
Proof. destruct depth; reflexivity. Qed.

(** Whatever the extractor returns passed the filter. *)
Lemma extractAll_valid (rt : Runtime) (depth : nat) :
  forall text log refs log',
    extractAllReferencesWithLLM depth rt text log = Some (refs, log') ->
    Forall validReference refs.
Proof.
  induction depth as [| depth IH]; intros text log refs log' H;
    rewrite extractAll_unfold in H;
    (destruct (openai rt) as [create |]; [| injection H as <- <-; constructor]);
    destruct (maxChars <? length text)%nat.
  - discriminate.
  - pose proof (extractOnce_valid rt create text log) as V.
    destruct (extractOnce rt create text log) as [[v | m] lg]; simpl in V;
      injection H as <- <-; [exact V | constructor].
  - unfold extractInChunks in H.
    destruct (splitLoop (length text) text maxChars 0) as [chunks |]; [| discriminate].
    destruct (extractEach (extractAllReferencesWithLLM depth rt) chunks log)
      as [[all lg] |] eqn:E; [| discriminate].
    apply extractEach_results in E. destruct E as (results & R & ->).
    assert (V : Forall validReference (List.concat results)).
    { eapply chunkResults_Forall; [| exact R]. intros c l r l' Hc. eapply IH; exact Hc. }
    rewrite (dedupe_firstOccurrences _ V [] [] sameKeys_nil) in H.
    injection H as <- <-. apply firstOccurrences_Forall. exact V.
  - pose proof (extractOnce_valid rt create text log) as V.
    destruct (extractOnce rt create text log) as [[v | m] lg]; simpl in V;
      injection H as <- <-; [exact V | constructor].
Qed.

End ExtractorFacts.

(** ** The extractor: the calls it makes *)

Module CallFacts.
Import JsString Js Types LlmBatchExtractor ExtractorSpec StringFacts ChunkFacts ExtractorFacts.

Lemma maxChars_bound : 500 <= maxChars.
Proof. apply Nat.leb_le. vm_compute. reflexivity. Qed.

(** Within the budget: one call, whatever the depth allowed. *)
Lemma extractAll_within_budget (depth : nat) (rt : Runtime)
    (create : CallLog -> string -> ModelReply) (text : string) (log : CallLog) :
  openai rt = Some create ->
  length text <= maxChars ->
  extractAllReferencesWithLLM depth rt text log =
  Some (settle (fst (extractOnce rt create text log)), log ++ [userContent text]).
Proof.
  intros Hc Hlen. rewrite extractAll_unfold, Hc.
  destruct (Nat.ltb_spec maxChars (length text)) as [G | _]; [lia |].
  rewrite <- (extractOnce_log rt create text log).
  destruct (extractOnce rt create text log) as [[v | m] lg]; reflexivity.
Qed.

Lemma extractAll_chunk (depth : nat) (rt : Runtime)
    (create : CallLog -> string -> ModelReply) (c : string) (log : CallLog) :
  openai rt = Some create ->
  loopChunk c ->
  exists refs,
    extractAllReferencesWithLLM (S depth) rt c log = Some (refs, log ++ messagesFor c).
Proof.
  intros Hc (L1 & L2 & L3). unfold messagesFor.
  destruct (Nat.ltb_spec maxChars (length c)) as [Hlong | Hshort].
  - rewrite extractAll_unfold, Hc.
    destruct (Nat.ltb_spec maxChars (length c)) as [_ | G]; [| lia].
    unfold extractInChunks.
    rewrite (splitLoop_resplit c maxChars maxChars_bound Hlong L2 (L3 Hlong)).
    pose proof maxChars_bound as HB.
    assert (S1 : length (take maxChars c) <= maxChars)
      by (rewrite length_take; lia).
    assert (S2 : length (drop maxChars c) <= maxChars)
      by (rewrite length_drop; lia).
    cbn [extractEach].
    rewrite (extractAll_within_budget depth rt create _ log Hc S1).
    rewrite (extractAll_within_budget depth rt create _ _ Hc S2).
    rewrite <- app_assoc. cbn [app].
    destruct (dedupe [] _) as [v | m]; eauto.
  - rewrite (extractAll_within_budget (S depth) rt create c log Hc Hshort). eauto.
Qed.

Lemma extractEach_chunks (depth : nat) (rt : Runtime)
    (create : CallLog -> string -> ModelReply) (chunks : list string) :
  openai rt = Some create ->
  Forall loopChunk chunks ->
  forall log,
    exists all,
      extractEach (extractAllReferencesWithLLM (S depth) rt) chunks log
      = Some (all, log ++ flat_map messagesFor chunks).
Proof.
  intros Hc HF. induction HF as [| c chunks Hchunk _ IH]; intros log;
    cbn [extractEach flat_map].
  - exists []. rewrite app_nil_r. reflexivity.
  - destruct (extractAll_chunk depth rt create c log Hc Hchunk) as (r & ->).
    destruct (IH (log ++ messagesFor c)) as (others & ->).
    exists (r ++ others). rewrite app_assoc. reflexivity.
Qed.

(** Beyond the budget, with two levels of recursion allowed. *)
Lemma extractAll_beyond_budget (depth : nat) (rt : Runtime)
    (create : CallLog -> string -> ModelReply) (text : string) (log : CallLog) :
  openai rt = Some create ->
  maxChars < length text ->
  exists chunks results,
    splitLoop (length text) text maxChars 0 = Some chunks /\
    chunksFrom text maxChars 0 chunks /\
    join EmptyString chunks = text /\
    chunkResults (extractAllReferencesWithLLM (S depth) rt) chunks log results
                 (log ++ flat_map messagesFor chunks) /\
    extractAllReferencesWithLLM (S (S depth)) rt text log =
    Some (firstOccurrences [] (List.concat results), log ++ flat_map messagesFor chunks).
Proof.
  intros Hc Hlong.
  destruct (splitLoop_chunks text maxChars maxChars_bound (length text) 0)
    as (chunks & S1 & S2 & S3 & S4); [lia |].
  destruct (extractEach_chunks depth rt create chunks Hc S4 log) as (all & E).
  pose proof E as E'. apply extractEach_results in E'. destruct E' as (results & R & ->).
  exists chunks, results.
  split; [exact S1 |]. split; [exact S2 |]. split; [exact S3 |]. split; [exact R |].
  rewrite extractAll_unfold, Hc.
  destruct (Nat.ltb_spec maxChars (length text)) as [_ | G]; [| lia].
  unfold extractInChunks. rewrite S1, E.
  assert (V : Forall validReference (List.concat results)).
  { eapply chunkResults_Forall; [| exact R].
    intros c l r l' H. eapply extractAll_valid; exact H. }
  rewrite (dedupe_firstOccurrences _ V [] [] sameKeys_nil).
  reflexivity.
Qed.

(** The recursion is never cut off when two levels are allowed. *)
Lemma extractAll_total (depth : nat) (rt : Runtime) (text : string) (log : CallLog) :
  exists refs log',
    extractAllReferencesWithLLM (S (S depth)) rt text log = Some (refs, log').
Proof.
  destruct (openai rt) as [create |] eqn:Hc.
  - destruct (Nat.le_gt_cases (length text) maxChars) as [Hs | Hl].
    + rewrite (extractAll_within_budget _ rt create text log Hc Hs). eauto.
    + destruct (extractAll_beyond_budget depth rt create text log Hc Hl)
        as (chunks & results & _ & _ & _ & _ & ->). eauto.
  - rewrite extractAll_unfold, Hc. eauto.
Qed.

End CallFacts.

(** C1 (as the code has it).  Without a model client no call is made.  With
    the client configured: for a text of at most 15,000 characters exactly
    one call is made, on that text.  A longer text is cut into consecutive
    non-empty chunks that make up the text; a chunk ends with the text when
    the rest fits the budget, and otherwise, unless a double newline sits
    exactly 500 characters before the ideal split point, at the first double
    newline less than 500 characters from the ideal point when there is one
    and at the ideal point itself when there is none.  Each chunk is
    extracted in turn by the extractor itself, which makes one call for a
    chunk within the budget and two for a longer one (cut once more at the
    budget); the per-chunk results are concatenated in order and deduplicated
    by case-folded citation key, the first occurrence being kept. *)
Theorem extractAll_calls_and_chunks :
  forall (rt : LlmBatchExtractor.Runtime) (text : string)
         (log : LlmBatchExtractor.CallLog) (depth : nat),
    (LlmBatchExtractor.openai rt = None ->
     LlmBatchExtractor.extractAllReferencesWithLLM (S (S depth)) rt text log
     = Some ([], log)) /\
    (forall create,
        LlmBatchExtractor.openai rt = Some create ->
        (String.length text <= LlmBatchExtractor.maxChars ->
         exists refs,
           LlmBatchExtractor.extractAllReferencesWithLLM (S (S depth)) rt text log
           = Some (refs, log ++ [LlmBatchExtractor.userContent text])) /\
        (LlmBatchExtractor.maxChars < String.length text ->
         exists chunks results,
           LlmBatchExtractor.splitLoop (String.length text) text
                                       LlmBatchExtractor.maxChars 0
           = Some chunks /\
           ExtractorSpec.chunksFrom text LlmBatchExtractor.maxChars 0 chunks /\
           JsString.join EmptyString chunks = text /\
           ExtractorSpec.chunkResults
             (LlmBatchExtractor.extractAllReferencesWithLLM (S depth) rt)
             chunks log results (log ++ flat_map ExtractorSpec.messagesFor chunks) /\
           LlmBatchExtractor.extractAllReferencesWithLLM (S (S depth)) rt text log
           = Some (ExtractorSpec.firstOccurrences [] (List.concat results),
                   log ++ flat_map ExtractorSpec.messagesFor chunks))).
Proof.
  intros rt text log depth. split.
  - intros Hn. rewrite ExtractorFacts.extractAll_unfold, Hn. reflexivity.
  - intros create Hc. split.
    + intros Hs. eexists.
      apply (CallFacts.extractAll_within_budget _ rt create text log Hc Hs).
    + intros Hl.
      apply (CallFacts.extractAll_beyond_budget depth rt create text log Hc Hl).
Qed.

Lemma extractAll_calls_and_chunks_witness :
  (exists refs,
      LlmBatchExtractor.extractAllReferencesWithLLM 2 ExtractionSamples.hillRuntime
        "[Hill '79] D. R. Hill (1979)." []
      = Some (refs, [LlmBatchExtractor.userContent "[Hill '79] D. R. Hill (1979)."])) /\
  (exists chunks results,
      JsString.join EmptyString chunks = ExtractionSamples.lateBreakText /\
      LlmBatchExtractor.extractAllReferencesWithLLM 2 ExtractionSamples.hillRuntime
        ExtractionSamples.lateBreakText []
      = Some (ExtractorSpec.firstOccurrences [] (List.concat results),
              flat_map ExtractorSpec.messagesFor chunks)).
Proof.
  split.
  - destruct (extractAll_calls_and_chunks ExtractionSamples.hillRuntime
                "[Hill '79] D. R. Hill (1979)." [] 0) as [_ H].
    destruct (H _ eq_refl) as [Hs _]. apply Hs.
    apply Nat.leb_le. vm_compute. reflexivity.
  - destruct (extractAll_calls_and_chunks ExtractionSamples.hillRuntime
                ExtractionSamples.lateBreakText [] 0) as [_ H].
    destruct (H _ eq_refl) as [_ Hl].
    destruct Hl as (chunks & results & _ & _ & J & _ & E).
    + apply Nat.ltb_lt. vm_compute. reflexivity.
    + exists chunks, results. split; [exact J | exact E].
Defined.

(** C1, as stated, fails in three ways.  Without an API key a short text
    costs no call at all.  With the late double newline the text is cut into
    two chunks, of 15,100 and 100 characters, but three calls are made, the
    first chunk exceeding the budget.  And with a double newline exactly 500
    characters before the ideal point the text is cut at the ideal point,
    though another double newline lies 400 characters before it. *)
Lemma extractAll_calls_counterexample :
  LlmBatchExtractor.extractAllReferencesWithLLM 2 ExtractionSamples.unconfiguredRuntime
    "[Hill '79] D. R. Hill (1979)." [] = Some ([], [])
  /\
  (option_map (map String.length)
     (LlmBatchExtractor.splitLoop (String.length ExtractionSamples.lateBreakText)
        ExtractionSamples.lateBreakText LlmBatchExtractor.maxChars 0)
   = Some [15100; 100] /\
   option_map (fun r => List.length (snd r))
     (LlmBatchExtractor.extractAllReferencesWithLLM 2 ExtractionSamples.deafRuntime
        ExtractionSamples.lateBreakText [])
   = Some 3)
  /\
  (ExtractorSpec.paragraphBreakAt ExtractionSamples.maskedBreakText 14600 /\
   option_map (map String.length)
     (LlmBatchExtractor.splitLoop (String.length ExtractionSamples.maskedBreakText)
        ExtractionSamples.maskedBreakText LlmBatchExtractor.maxChars 0)
   = Some [15000; 602]).
Proof.
  split; [reflexivity |].
  split; [split; vm_compute; reflexivity |].
  split; vm_compute; reflexivity.
Qed.

(** ** Extraction jobs *)

Module OrchestratorFacts.
Import JsString Js Types MasterTable LlmBatchExtractor ExtractorSpec Orchestrator.

Lemma loadFrom_head {A} (files : list (string * A)) (id : string) (v : A) :
  loadFrom ((id, v) :: files) id = Some v.
Proof. simpl. rewrite String.eqb_refl. reflexivity. Qed.

(** The job with no reference extracted. *)
Lemma startExtraction_no_references (depth : nat) (env : Env) (request : ExtractionRequest)
    (w : World) (buffer : string) (pages : list Page) (log' : CallLog) :
  pdfBuffer request = Some buffer ->
  extractPdfSmart env buffer = Normal pages ->
  extractAllReferencesWithLLM depth (runtime env) (fullTextOf pages) (modelCalls w)
  = Some ([], log') ->
  exists w',
    startExtraction depth env request w = Some (Normal (randomUUID env), w') /\
    getResult w' (randomUUID env)
    = Some (mkJob (randomUUID env) Job.failed 0 0 []
                  (Some "No references were extracted from the text")
                  (now env) (Some (now env))) /\
    getProgress w' (randomUUID env) = Some (mkProgress Job.failed 100 "error") /\
    masterTable w' = masterTable w /\
    tableSaves w' = tableSaves w /\
    modelCalls w' = log'.
Proof.
  intros Hb Hp He.
  unfold startExtraction, processExtraction. rewrite Hb, Hp.
  cbn [modelCalls updateJobProgress saveJob].
  rewrite He.
  eexists. split; [reflexivity |].
  unfold getResult, getProgress, loadJob.
  repeat first
    [ rewrite loadFrom_head
    | progress cbn [jobFiles jobProgress updateJobProgress withModelCalls saveJob jobId
                    masterTable tableSaves modelCalls progress totalReferences
                    extractedReferences createdAt] ].
  repeat split.
Qed.

(** What [processExtraction] does once the page text is there: it fails with
    the zero-references error exactly when the extractor returned nothing,
    and otherwise completes as the merge of what the extractor returned
    does. *)
Lemma processExtraction_outcome (depth : nat) (env : Env) (id : string)
    (request : ExtractionRequest) (w : World) (buffer : string) (pages : list Page)
    (refs : list ExtractedReference) (log' : CallLog) :
  pdfBuffer request = Some buffer ->
  extractPdfSmart env buffer = Normal pages ->
  extractAllReferencesWithLLM depth (runtime env) (fullTextOf pages) (modelCalls w)
  = Some (refs, log') ->
  exists w',
    processExtraction depth env id request w
    = Some (match refs with
            | [] => Throw "No references were extracted from the text"
            | _ => JobNotions.passedOn
                     (fst (addToMasterTable (exportTable env) refs (masterTable w)))
            end, w') /\
    modelCalls w' = log' /\
    masterTable w'
    = match refs with
      | [] => masterTable w
      | _ => snd (addToMasterTable (exportTable env) refs (masterTable w))
      end /\
    tableSaves w'
    = (tableSaves w ++ match refs with
                       | [] => []
                       | _ => writes refs (masterTable w)
                       end)%list.
Proof.
  intros Hb Hp He.
  unfold processExtraction. rewrite Hb, Hp.
  cbn [modelCalls updateJobProgress].
  rewrite He.
  destruct refs as [| r refs].
  - eexists. split; [reflexivity |]. cbn [modelCalls masterTable tableSaves
      updateJobProgress withModelCalls]. rewrite app_nil_r. repeat split.
  - cbn [masterTable updateJobProgress withModelCalls].
    destruct (MasterTableFacts.writes_cases (exportTable env) (r :: refs) (masterTable w))
      as [(W & m & A) | (W & _)].
    + rewrite A, W. eexists. split; [reflexivity |].
      cbn [modelCalls masterTable tableSaves updateJobProgress withModelCalls snd].
      rewrite app_nil_r. repeat split.
    + rewrite W.
      destruct (addToMasterTable (exportTable env) (r :: refs) (masterTable w))
        as [[stats | m] table'] eqn:A.
      * eexists. split; [reflexivity |].
        destruct (loadJob _ id);
          cbn [modelCalls masterTable tableSaves jobFiles updateJobProgress withModelCalls
               withMasterTable saveJob snd]; repeat split.
      * eexists. split; [reflexivity |].
        cbn [modelCalls masterTable tableSaves updateJobProgress withModelCalls
             withMasterTable snd]. repeat split.
Qed.

(** What a job can leave in the master table. *)
Lemma processExtraction_table (depth : nat) (env : Env) (id : string)
    (request : ExtractionRequest) (w : World) (c : Completion unit) (w' : World) :
  processExtraction depth env id request w = Some (c, w') ->
  masterTable w' = masterTable w \/
  exists pages refs log',
    extractAllReferencesWithLLM depth (runtime env) (fullTextOf pages) (modelCalls w)
    = Some (refs, log') /\
    masterTable w' = snd (addToMasterTable (exportTable env) refs (masterTable w)).
Proof.
  intros P.
  destruct (pdfBuffer request) as [buffer |] eqn:Hb.
  2:{ unfold processExtraction in P. rewrite Hb in P. inversion P; subst.
      left. reflexivity. }
  destruct (extractPdfSmart env buffer) as [pages | m] eqn:Hp.
  2:{ unfold processExtraction in P. rewrite Hb, Hp in P. inversion P; subst.
      left. reflexivity. }
  destruct (extractAllReferencesWithLLM depth (runtime env) (fullTextOf pages)
              (modelCalls w)) as [[refs log'] |] eqn:E.
  2:{ unfold processExtraction in P. rewrite Hb, Hp in P.
      cbn [modelCalls updateJobProgress] in P. rewrite E in P. discriminate. }
  destruct (processExtraction_outcome depth env id request w buffer pages refs log'
              Hb Hp E) as (w1 & P1 & _ & M & _).
  rewrite P1 in P. inversion P; subst.
  destruct refs as [| r refs]; [left; exact M |].
  right. exists pages, (r :: refs), log'. split; [exact E | exact M].
Qed.

Lemma startExtraction_world (depth : nat) (env : Env) (request : ExtractionRequest)
    (w : World) (c : Completion string) (w' : World) :
  startExtraction depth env request w = Some (c, w') ->
  exists outcome w1,
    processExtraction depth env (randomUUID env) request
      (updateJobProgress (randomUUID env) Job.processing 0 "initializing"
         (saveJob (mkJob (randomUUID env) Job.processing 0 0 [] None (now env) None) w))
    = Some (outcome, w1) /\
    c = Normal (randomUUID env) /\
    masterTable w' = masterTable w1 /\
    tableSaves w' = tableSaves w1 /\
    modelCalls w' = modelCalls w1.
Proof.
  unfold startExtraction. cbv zeta.
  destruct (processExtraction depth env (randomUUID env) request _)
    as [[[u | m] w1] |]; [| | discriminate].
  - intros H. inversion H; subst. eexists _, _. repeat split.
  - intros H. inversion H; subst. eexists _, _. split; [reflexivity |].
    split; [reflexivity |].
    destruct (loadJob _ _); repeat split.
Qed.

Lemma startExtraction_table (depth : nat) (env : Env) (request : ExtractionRequest)
    (w : World) (c : Completion string) (w' : World) :
  startExtraction depth env request w = Some (c, w') ->
  masterTable w' = masterTable w \/
  exists pages refs log',
    extractAllReferencesWithLLM depth (runtime env) (fullTextOf pages) (modelCalls w)
    = Some (refs, log') /\
    masterTable w' = snd (addToMasterTable (exportTable env) refs (masterTable w)).
Proof.
  intros H.
  destruct (startExtraction_world _ _ _ _ _ _ H) as (outcome & w1 & P & _ & M & _).
  rewrite M. apply processExtraction_table in P. exact P.
Qed.

Lemma processExtraction_total (depth : nat) (env : Env) (id : string)
    (request : ExtractionRequest) (w : World) :
  exists c w', processExtraction (S (S depth)) env id request w = Some (c, w').
Proof.
  destruct (pdfBuffer request) as [buffer |] eqn:Hb.
  2:{ unfold processExtraction. rewrite Hb. eexists _, _; reflexivity. }
  destruct (extractPdfSmart env buffer) as [pages | m] eqn:Hp.
  2:{ unfold processExtraction. rewrite Hb, Hp. eexists _, _; reflexivity. }
  destruct (CallFacts.extractAll_total depth (runtime env) (fullTextOf pages)
              (modelCalls w)) as (refs & log' & E).
  destruct (processExtraction_outcome (S (S depth)) env id request w buffer pages refs log'
              Hb Hp E) as (w1 & P1 & _).
  eexists _, _. exact P1.
Qed.

Lemma startExtraction_total (depth : nat) (env : Env) (request : ExtractionRequest)
    (w : World) :
  exists w', startExtraction (S (S depth)) env request w
             = Some (Normal (randomUUID env), w').
Proof.
  unfold startExtraction. cbv zeta.
  destruct (processExtraction_total depth env (randomUUID env) request
              (updateJobProgress (randomUUID env) Job.processing 0 "initializing"
                 (saveJob (mkJob (randomUUID env) Job.processing 0 0 [] None
                                 (now env) None) w)))
    as ([u | m] & w1 & ->); eexists; reflexivity.
Qed.

End OrchestratorFacts.

Module FallbackKeyFacts.
Import JsString Js Types LlmBatchExtractor ExtractorSpec ExtractorFacts.

Lemma digit_lower_not_u (c : ascii) :
  isDigit c = true -> Ascii.eqb (toLowerChar c) "u" = false.
Proof. destruct c as [[] [] [] [] [] [] [] []]; intros H; try reflexivity; discriminate H. Qed.

Lemma string_of_uint_digits (d : Decimal.uint) :
  TextNotions.allChars isDigit (NilEmpty.string_of_uint d) = true.
Proof. induction d; simpl; try exact IHd; reflexivity. Qed.

Lemma digits_lower_no_u (s : string) :
  TextNotions.allChars isDigit s = true ->
  TextNotions.allChars (fun c => negb (Ascii.eqb c "u")) (toLowerCase s) = true.
Proof.
  induction s as [| c r IH]; simpl; [reflexivity |].
  intros H. apply andb_true_iff in H. destruct H as [Hc Hr].
  rewrite (digit_lower_not_u c Hc), (IH Hr). reflexivity.
Qed.

Lemma no_u_no_unknown (s : string) :
  TextNotions.allChars (fun c => negb (Ascii.eqb c "u")) s = true ->
  includes s "unknown" = false.
Proof.
  induction s as [| c r IH]; [reflexivity |].
  cbn [TextNotions.allChars]. intros H. apply andb_true_iff in H. destruct H as [Hc Hr].
  change (includes (String c r) "unknown")
    with (prefix "unknown" (String c r) || includes r "unknown").
  rewrite (IH Hr), orb_false_r. cbn [prefix].
  destruct (ascii_dec "u" c) as [<- | N]; [discriminate Hc | reflexivity].
Qed.

(** The fallback key "Ref-N" never holds the word "unknown". *)
Lemma fallbackKey_not_unknown (n : nat) :
  includes (toLowerCase ("Ref-" ++ natToString n)) "unknown" = false.
Proof.
  apply no_u_no_unknown.
  change (toLowerCase ("Ref-" ++ natToString n))
    with ("ref-" ++ toLowerCase (natToString n))%string.
  simpl. apply digits_lower_no_u. apply string_of_uint_digits.
Qed.

(** The mapping step always supplies a citation key. *)
Lemma toReference_keyed (ref : JsValue) (index : nat) (r : ExtractedReference) :
  toReference ref index = Normal r ->
  truthy (citationKey r) = true /\
  (truthy (member ref "citationKey") = false ->
   truthy (member ref "key") = false ->
   citationKey r = JStr ("Ref-" ++ natToString (index + 1))).
Proof.
  unfold toReference. destruct (get ref "citationKey") as [v | m]; simpl; [| discriminate].
  intros H. injection H as <-. simpl. split.
  - rewrite !truthy_or. simpl. rewrite !orb_true_r. reflexivity.
  - intros K1 K2. unfold or. rewrite K1, K2. reflexivity.
Qed.

(** An entry without a key passes the filter under the fallback key as soon
    as it has a title or a first author. *)
Lemma keyless_entry_kept (ref : JsValue) (index : nat) (r : ExtractedReference) :
  toReference ref index = Normal r ->
  truthy (member ref "citationKey") = false ->
  truthy (member ref "key") = false ->
  truthy (title r) = true \/ truthy (firstAuthor r) = true ->
  citationKey r = JStr ("Ref-" ++ natToString (index + 1)) /\ isValid r = Normal true.
Proof.
  intros T K1 K2 Hp.
  destruct (toReference_keyed ref index r T) as [_ Hk]. specialize (Hk K1 K2).
  split; [exact Hk |].
  unfold isValid. rewrite Hk.
  change (truthy (JStr ("Ref-" ++ natToString (index + 1)))) with true.
  cbv beta iota delta [callToLowerCase bind].
  rewrite fallbackKey_not_unknown, truthy_or.
  destruct Hp as [-> | ->]; [reflexivity | rewrite orb_true_r; reflexivity].
Qed.

End FallbackKeyFacts.




(** C6.  When the extractor returns no reference for the text of a
    submitted document, the submission call still resolves to the job
    identifier; the job read back by a poll is failed, with the error "No
    references were extracted from the text"; the progress entry says failed;
    and the master table is as before, nothing having been handed to
    [saveMasterTable]. *)
Theorem zero_references_fail_the_job :
  forall (depth : nat) (env : Orchestrator.Env) (request : Orchestrator.ExtractionRequest)
         (w : Orchestrator.World) (buffer : string) (pages : list Orchestrator.Page)
         (log' : LlmBatchExtractor.CallLog),
    Orchestrator.pdfBuffer request = Some buffer ->
    Orchestrator.extractPdfSmart env buffer = Js.Normal pages ->
    LlmBatchExtractor.extractAllReferencesWithLLM depth (Orchestrator.runtime env)
      (Orchestrator.fullTextOf pages) (Orchestrator.modelCalls w) = Some ([], log') ->
    exists w',
      Orchestrator.startExtraction depth env request w
      = Some (Js.Normal (Orchestrator.randomUUID env), w') /\
      (exists job,
          Orchestrator.getResult w' (Orchestrator.randomUUID env) = Some job /\
          Orchestrator.status job = Job.failed /\
          Orchestrator.error job = Some "No references were extracted from the text") /\
      (exists entry,
          Orchestrator.getProgress w' (Orchestrator.randomUUID env) = Some entry /\
          Orchestrator.p_status entry = Job.failed) /\
      Orchestrator.masterTable w' = Orchestrator.masterTable w /\
      Orchestrator.tableSaves w' = Orchestrator.tableSaves w.
Proof.
  intros depth env request w buffer pages log' Hb Hp He.
  destruct (OrchestratorFacts.startExtraction_no_references depth env request w
              buffer pages log' Hb Hp He) as (w' & E & J & P & T & S & _).
  exists w'. split; [exact E |].
  split; [eexists; split; [exact J | split; reflexivity] |].
  split; [eexists; split; [exact P | reflexivity] |].
  split; assumption.
Qed.

Lemma zero_references_fail_the_job_witness :
  exists w',
    Orchestrator.startExtraction 2
      (ExtractionSamples.sampleEnv ExtractionSamples.deafRuntime "Chapter 2")
      ExtractionSamples.sampleRequest ExtractionSamples.emptyWorld
    = Some (Js.Normal "job-1", w') /\
    (exists job,
        Orchestrator.getResult w' "job-1" = Some job /\
        Orchestrator.status job = Job.failed /\
        Orchestrator.error job = Some "No references were extracted from the text") /\
    Orchestrator.masterTable w' = [] /\
    Orchestrator.tableSaves w' = [].
Proof.
  destruct (zero_references_fail_the_job 2
              (ExtractionSamples.sampleEnv ExtractionSamples.deafRuntime "Chapter 2")
              ExtractionSamples.sampleRequest ExtractionSamples.emptyWorld
              "%PDF" [Orchestrator.mkPage 1 "Chapter 2" false]
              [LlmBatchExtractor.userContent "Chapter 2"]
              eq_refl eq_refl eq_refl)
    as (w' & E & J & _ & T & S).
  exists w'. split; [exact E |]. split; [exact J |]. split; assumption.
Defined.

Module RecoveryFacts.
Import JsString Js Types LlmBatchExtractor ExtractorSpec.

(** The ladder gives up exactly when its three steps fail. *)
Lemma parseWithRecovery_throws (rt : Runtime) (content e e2 : string) :
  JSON_parse rt content = Throw e ->
  JSON_parse rt (trim content ++ "]}")%string = Throw e2 ->
  (forall b, matchBracketed content = Some b -> exists e3, JSON_parse rt b = Throw e3) ->
  parseWithRecovery rt content
  = Throw ("Invalid JSON response from LLM (tried recovery): " ++ e)%string.
Proof.
  intros H1 H2 H3. unfold parseWithRecovery. rewrite H1, H2.
  destruct (matchBracketed content) as [b |]; [| reflexivity].
  destruct (H3 b eq_refl) as (e3 & ->). reflexivity.
Qed.

(** One call with a reply from which nothing can be read gives nothing. *)
Lemma extractOnce_unusable (rt : Runtime) (create : CallLog -> string -> ModelReply)
    (text : string) (log : CallLog) :
  ExtractorNotions.unusableReply rt (create log (userContent text)) ->
  settle (fst (extractOnce rt create text log)) = [].
Proof.
  unfold extractOnce, ExtractorNotions.unusableReply.
  destruct (create log (userContent text)) as [m | [content |]]; try reflexivity.
  intros [-> | (e & e2 & H1 & H2 & H3)]; [reflexivity |].
  destruct (nonEmpty content); [| reflexivity].
  rewrite (parseWithRecovery_throws rt content e e2 H1 H2 H3). reflexivity.
Qed.

(** When no reply can be used, the extractor returns nothing, whatever the
    length of the text. *)
Lemma extractAll_all_fail (rt : Runtime) (create : CallLog -> string -> ModelReply) :
  openai rt = Some create ->
  (forall l c, ExtractorNotions.unusableReply rt (create l c)) ->
  forall depth text log refs log',
    extractAllReferencesWithLLM depth rt text log = Some (refs, log') -> refs = [].
Proof.
  intros Hc Hu.
  induction depth as [| depth IH]; intros text log refs log' H;
    rewrite ExtractorFacts.extractAll_unfold, Hc in H;
    destruct (maxChars <? length text)%nat.
  - discriminate.
  - pose proof (extractOnce_unusable rt create text log (Hu _ _)) as V.
    destruct (extractOnce rt create text log) as [[v | m] lg]; simpl in V;
      injection H as <- <-; [exact V | reflexivity].
  - unfold extractInChunks in H.
    destruct (splitLoop (length text) text maxChars 0) as [chunks |]; [| discriminate].
    destruct (extractEach (extractAllReferencesWithLLM depth rt) chunks log)
      as [[all lg] |] eqn:E; [| discriminate].
    apply ExtractorFacts.extractEach_results in E. destruct E as (results & R & ->).
    assert (V : Forall (fun _ => False) (List.concat results)).
    { eapply ExtractorFacts.chunkResults_Forall; [| exact R].
      intros c l r l' Hr. rewrite (IH _ _ _ _ Hr). constructor. }
    destruct (List.concat results) as [| x rest]; [| inversion V; contradiction].
    simpl in H. injection H as <- <-. reflexivity.
  - pose proof (extractOnce_unusable rt create text log (Hu _ _)) as V.
    destruct (extractOnce rt create text log) as [[v | m] lg]; simpl in V;
      injection H as <- <-; [exact V | reflexivity].
Qed.

End RecoveryFacts.

(** C10.  [extractAllReferencesWithLLM] always returns, and never by
    throwing, for every text.  Without a client it returns the empty list and
    makes no call.  With one, it returns the empty list whenever no reply of
    the client can be used (each call is rejected, or answered without
    content, or answered with a content that fails to parse at all three
    steps of the recovery ladder), whatever the length of the text; and for a
    text within the budget, where there is one call, as soon as that call
    fails in one of these ways.  So, once the page text is there,
    [processExtraction] fails with "No references were extracted from the
    text" exactly when the extractor returned nothing, in particular in all
    the cases above; otherwise it completes as the merge of what the
    extractor returned into the master table does. *)
Theorem extractAll_never_throws :
  (forall (rt : LlmBatchExtractor.Runtime) (text : string)
          (log : LlmBatchExtractor.CallLog) (depth : nat),
      exists refs log',
        LlmBatchExtractor.extractAllReferencesWithLLM (S (S depth)) rt text log
        = Some (refs, log') /\
        (LlmBatchExtractor.openai rt = None -> refs = [] /\ log' = log) /\
        (forall create,
            LlmBatchExtractor.openai rt = Some create ->
            (forall l c, ExtractorNotions.unusableReply rt (create l c)) ->
            refs = []) /\
        (forall create,
            LlmBatchExtractor.openai rt = Some create ->
            String.length text <= LlmBatchExtractor.maxChars ->
            ExtractorNotions.unusableReply rt
              (create log (LlmBatchExtractor.userContent text)) ->
            refs = [])) /\
  (forall (depth : nat) (env : Orchestrator.Env) (id : string)
          (request : Orchestrator.ExtractionRequest) (w : Orchestrator.World)
          (buffer : string) (pages : list Orchestrator.Page),
      Orchestrator.pdfBuffer request = Some buffer ->
      Orchestrator.extractPdfSmart env buffer = Js.Normal pages ->
      exists refs log' w',
        LlmBatchExtractor.extractAllReferencesWithLLM (S (S depth))
          (Orchestrator.runtime env) (Orchestrator.fullTextOf pages)
          (Orchestrator.modelCalls w) = Some (refs, log') /\
        Orchestrator.processExtraction (S (S depth)) env id request w
        = Some (match refs with
                | [] => Js.Throw "No references were extracted from the text"
                | _ =>
                    JobNotions.passedOn
                      (fst (MasterTable.addToMasterTable (Orchestrator.exportTable env)
                              refs (Orchestrator.masterTable w)))
                end, w') /\
        Orchestrator.modelCalls w' = log' /\
        (LlmBatchExtractor.openai (Orchestrator.runtime env) = None \/
         (exists create,
             LlmBatchExtractor.openai (Orchestrator.runtime env) = Some create /\
             forall l c, ExtractorNotions.unusableReply (Orchestrator.runtime env)
                           (create l c)) ->
         refs = [])).
Proof.
  split.
  - intros rt text log depth.
    destruct (CallFacts.extractAll_total depth rt text log) as (refs & log' & E).
    exists refs, log'. split; [exact E |]. split; [| split].
    + intros Hn. rewrite ExtractorFacts.extractAll_unfold, Hn in E.
      injection E as <- <-. auto.
    + intros create Hc Hu.
      apply (RecoveryFacts.extractAll_all_fail rt create Hc Hu _ _ _ _ _ E).
    + intros create Hc Hlen Hu.
      rewrite (CallFacts.extractAll_within_budget _ rt create text log Hc Hlen) in E.
      injection E as <- _.
      apply RecoveryFacts.extractOnce_unusable. exact Hu.
  - intros depth env id request w buffer pages Hb Hp.
    destruct (CallFacts.extractAll_total depth (Orchestrator.runtime env)
                (Orchestrator.fullTextOf pages) (Orchestrator.modelCalls w))
      as (refs & log' & E).
    destruct (OrchestratorFacts.processExtraction_outcome _ env id request w buffer pages
                refs log' Hb Hp E) as (w' & P & L & _).
    exists refs, log', w'. split; [exact E |]. split; [exact P |]. split; [exact L |].
    intros [Hn | (create & Hc & Hu)].
    + rewrite ExtractorFacts.extractAll_unfold, Hn in E. injection E as <- _. reflexivity.
    + apply (RecoveryFacts.extractAll_all_fail _ create Hc Hu _ _ _ _ _ E).
Qed.

Lemma extractAll_never_throws_witness :
  LlmBatchExtractor.extractAllReferencesWithLLM 2 ExtractionSamples.unconfiguredRuntime
    "Chapter 2" [] = Some ([], []) /\
  (exists log',
      LlmBatchExtractor.extractAllReferencesWithLLM 2 ExtractionSamples.deafRuntime
        ExtractionSamples.lateBreakText [] = Some ([], log')) /\
  (exists w',
      Orchestrator.processExtraction 2
        (ExtractionSamples.sampleEnv ExtractionSamples.deafRuntime "Chapter 2") "job-1"
        ExtractionSamples.sampleRequest ExtractionSamples.emptyWorld
      = Some (Js.Throw "No references were extracted from the text", w')).
Proof.
  destruct extractAll_never_throws as [H G].
  split; [| split].
  - destruct (H ExtractionSamples.unconfiguredRuntime "Chapter 2" [] 0)
      as (refs & log' & E & Hn & _).
    destruct (Hn eq_refl) as [-> ->]. exact E.
  - destruct (H ExtractionSamples.deafRuntime ExtractionSamples.lateBreakText [] 0)
      as (refs & log' & E & _ & Hc & _).
    rewrite (Hc _ eq_refl (fun _ _ => I)) in E. exists log'. exact E.
  - destruct (G 0 (ExtractionSamples.sampleEnv ExtractionSamples.deafRuntime "Chapter 2")
                "job-1" ExtractionSamples.sampleRequest ExtractionSamples.emptyWorld
                "%PDF" [Orchestrator.mkPage 1 "Chapter 2" false] eq_refl eq_refl)
      as (refs & log' & w' & _ & P & _ & Z).
    rewrite (Z (or_intror (ex_intro _ _ (conj eq_refl (fun _ _ => I))))) in P.
    exists w'. exact P.
Defined.

(* ================================================================== *)
(** * Part III: further properties of the modelled code *)
(* ================================================================== *)

(** ** The extractor: budget, coverage, stamps *)

Module MessageFacts.
Import JsString Js Types LlmBatchExtractor ExtractorSpec ExtractorNotions
       StringFacts ChunkFacts ExtractorFacts CallFacts.

Lemma join_empty_app (l1 l2 : list string) :
  join EmptyString (l1 ++ l2) = (join EmptyString l1 ++ join EmptyString l2)%string.
Proof.
  induction l1 as [| x l1 IH]; [reflexivity |].
  change ((x :: l1) ++ l2) with (x :: (l1 ++ l2)).
  rewrite !join_empty_cons, IH.
  induction x as [| c x IHx]; simpl; [reflexivity | rewrite IHx; reflexivity].
Qed.

Lemma join_piecesOf (c : string) : join EmptyString (piecesOf c) = c.
Proof.
  unfold piecesOf. destruct (maxChars <? length c)%nat.
  - rewrite join_empty_cons. change (join EmptyString [drop maxChars c]) with (drop maxChars c).
    apply take_drop.
  - reflexivity.
Qed.

Lemma messagesFor_pieces (c : string) : messagesFor c = map userContent (piecesOf c).
Proof. unfold messagesFor, piecesOf. destruct (maxChars <? length c)%nat; reflexivity. Qed.

Lemma flat_map_messages (chunks : list string) :
  flat_map messagesFor chunks = map userContent (flat_map piecesOf chunks).
Proof.
  induction chunks as [| c chunks IH]; simpl; [reflexivity |].
  rewrite map_app, IH, messagesFor_pieces. reflexivity.
Qed.

Lemma join_flat_pieces (chunks : list string) :
  join EmptyString (flat_map piecesOf chunks) = join EmptyString chunks.
Proof.
  induction chunks as [| c chunks IH]; [reflexivity |].
  change (flat_map piecesOf (c :: chunks)) with (piecesOf c ++ flat_map piecesOf chunks).
  rewrite join_empty_app, join_piecesOf, IH, join_empty_cons. reflexivity.
Qed.

Lemma pieces_within_budget (chunks : list string) :
  Forall loopChunk chunks ->
  Forall (fun p => length p <= maxChars) (flat_map piecesOf chunks).
Proof.
  pose proof maxChars_bound as HB.
  induction 1 as [| c chunks (L1 & L2 & _) _ IH]; simpl; [constructor |].
  apply Forall_app. split; [| exact IH].
  unfold piecesOf. destruct (Nat.ltb_spec maxChars (length c)).
  - apply Forall_cons; [rewrite length_take; lia |].
    apply Forall_cons; [rewrite length_drop; lia | apply Forall_nil].
  - apply Forall_cons; [assumption | apply Forall_nil].
Qed.

(** The texts the extractor sends, in the order of the calls. *)
Lemma extractAll_pieces (rt : Runtime) (text : string) (log : CallLog) (depth : nat) :
  exists refs pieces,
    extractAllReferencesWithLLM (S (S depth)) rt text log
    = Some (refs, log ++ map userContent pieces) /\
    Forall (fun p => length p <= maxChars) pieces /\
    (openai rt = None -> pieces = []) /\
    (openai rt <> None -> join EmptyString pieces = text).
Proof.
  destruct (openai rt) as [create |] eqn:Hc.
  - destruct (Nat.le_gt_cases (length text) maxChars) as [Hs | Hl].
    + exists (settle (fst (extractOnce rt create text log))), [text].
      split; [apply (extractAll_within_budget _ rt create text log Hc Hs) |].
      split; [apply Forall_cons; [exact Hs | apply Forall_nil] |].
      split; [discriminate | reflexivity].
    + destruct (extractAll_beyond_budget depth rt create text log Hc Hl)
        as (chunks & results & S1 & _ & J & _ & E).
      destruct (splitLoop_chunks text maxChars maxChars_bound (length text) 0)
        as (chunks' & S1' & _ & _ & F); [lia |].
      rewrite S1 in S1'. injection S1' as <-.
      exists (firstOccurrences [] (List.concat results)), (flat_map piecesOf chunks).
      split; [rewrite <- flat_map_messages; exact E |].
      split; [apply pieces_within_budget; exact F |].
      split; [discriminate |].
      intros _. rewrite join_flat_pieces. exact J.
  - exists [], []. split; [rewrite extractAll_unfold, Hc, app_nil_r; reflexivity |].
    split; [constructor |]. split; [reflexivity | intros H; contradiction].
Qed.

End MessageFacts.

(** X1.  No call of the extractor carries more than 15,000 characters of
    the document: whatever the text, the client and the replies, the user
    messages added to the log are the prompt followed by a piece of at most
    [maxChars] characters. *)
Theorem extractor_messages_within_budget :
  forall (rt : LlmBatchExtractor.Runtime) (text : string)
         (log : LlmBatchExtractor.CallLog) (depth : nat),
    exists refs pieces,
      LlmBatchExtractor.extractAllReferencesWithLLM (S (S depth)) rt text log
      = Some (refs, log ++ map LlmBatchExtractor.userContent pieces) /\
      Forall (fun p => String.length p <= LlmBatchExtractor.maxChars) pieces.
Proof.
  intros rt text log depth.
  destruct (MessageFacts.extractAll_pieces rt text log depth)
    as (refs & pieces & E & F & _).
  exists refs, pieces. split; assumption.
Qed.

(** X2.  With a client configured, the pieces sent to the model, put end to
    end in the order of the calls, are the input text: no character of the
    document is left out or sent twice. *)
Theorem extractor_messages_cover_text :
  forall (rt : LlmBatchExtractor.Runtime) (text : string)
         (log : LlmBatchExtractor.CallLog) (depth : nat),
    LlmBatchExtractor.openai rt <> None ->
    exists refs pieces,
      LlmBatchExtractor.extractAllReferencesWithLLM (S (S depth)) rt text log
      = Some (refs, log ++ map LlmBatchExtractor.userContent pieces) /\
      JsString.join EmptyString pieces = text.
Proof.
  intros rt text log depth Hc.
  destruct (MessageFacts.extractAll_pieces rt text log depth)
    as (refs & pieces & E & _ & _ & J).
  exists refs, pieces. split; [exact E | exact (J Hc)].
Qed.

Lemma extractor_messages_cover_text_witness :
  LlmBatchExtractor.openai ExtractionSamples.deafRuntime <> None /\
  exists refs pieces,
    LlmBatchExtractor.extractAllReferencesWithLLM 2 ExtractionSamples.deafRuntime
      ExtractionSamples.lateBreakText []
    = Some (refs, map LlmBatchExtractor.userContent pieces) /\
    JsString.join EmptyString pieces = ExtractionSamples.lateBreakText.
Proof.
  assert (H : LlmBatchExtractor.openai ExtractionSamples.deafRuntime <> None)
    by discriminate.
  split; [exact H |].
  exact (extractor_messages_cover_text ExtractionSamples.deafRuntime
           ExtractionSamples.lateBreakText [] 0 H).
Defined.

Module StampFacts.
Import JsString Js Types LlmBatchExtractor ExtractorSpec ExtractorNotions
       StringFacts ExtractorFacts CallFacts.

Lemma presentOrEmpty_empty : presentOrEmpty (JStr EmptyString).
Proof. right; reflexivity. Qed.

Lemma presentOrEmpty_or (a b : JsValue) : presentOrEmpty b -> presentOrEmpty (or a b).
Proof. intros H. unfold or. destruct (truthy a) eqn:T; [left; exact T | exact H]. Qed.

Lemma toReference_stamped (ref : JsValue) (index : nat) (r : ExtractedReference) :
  toReference ref index = Normal r -> stamped r.
Proof.
  unfold toReference. destruct (get ref "citationKey") as [v | m]; simpl; [| discriminate].
  intros H. injection H as <-. unfold stamped. simpl.
  repeat split;
    repeat (apply presentOrEmpty_or); apply presentOrEmpty_empty.
Qed.

Lemma mapReferences_Forall (P : ExtractedReference -> Prop) :
  (forall ref index r, toReference ref index = Normal r -> P r) ->
  forall items index refs, mapReferences items index = Normal refs -> Forall P refs.
Proof.
  intros HP. induction items as [| e items IH]; intros index refs H; simpl in H.
  - injection H as <-. constructor.
  - destruct (toReference e index) as [r | m] eqn:T; simpl in H; [| discriminate].
    destruct (mapReferences items (S index)) as [rs | m] eqn:M; simpl in H; [| discriminate].
    injection H as <-. constructor; [eapply HP; exact T | eapply IH; exact M].
Qed.

Lemma filterValid_Forall (P : ExtractedReference -> Prop) (l : list ExtractedReference) :
  Forall P l -> forall l', filterValid l = Normal l' -> Forall P l'.
Proof.
  induction 1 as [| r l Hr Hl IH]; intros l' H; simpl in H.
  - injection H as <-. constructor.
  - destruct (isValid r) as [keep | m]; simpl in H; [| discriminate].
    destruct (filterValid l) as [rs | m]; simpl in H; [| discriminate].
    injection H as <-. specialize (IH rs eq_refl).
    destruct keep; [constructor; assumption | exact IH].
Qed.

Lemma extractOnce_Forall (P : ExtractedReference -> Prop) (rt : Runtime)
    (create : CallLog -> string -> ModelReply) (text : string) (log : CallLog) :
  (forall ref index r, toReference ref index = Normal r -> P r) ->
  Forall P (settle (fst (extractOnce rt create text log))).
Proof.
  intros HP. unfold extractOnce.
  destruct (create log (userContent text)) as [m | [content |]]; simpl; try constructor.
  destruct (nonEmpty content); simpl; [| constructor].
  destruct (parseWithRecovery rt content) as [parsed | m]; simpl; [| constructor].
  destruct (referencesArrayOf parsed) as [arr | m]; simpl; [| constructor].
  destruct (mapReferences arr 0) as [refs | m] eqn:M; simpl; [| constructor].
  destruct (filterValid refs) as [valid | m] eqn:F; simpl; [| constructor].
  eapply filterValid_Forall; [| exact F].
  eapply mapReferences_Forall; [exact HP | exact M].
Qed.

(** A property of every mapped entry is a property of every reference the
    extractor returns. *)
Lemma extractAll_Forall (P : ExtractedReference -> Prop) (rt : Runtime) :
  (forall ref index r, toReference ref index = Normal r -> P r) ->
  forall depth text log refs log',
    extractAllReferencesWithLLM depth rt text log = Some (refs, log') ->
    Forall P refs.
Proof.
  intros HP. induction depth as [| depth IH]; intros text log refs log' H;
    rewrite extractAll_unfold in H;
    (destruct (openai rt) as [create |]; [| injection H as <- <-; constructor]);
    destruct (maxChars <? length text)%nat.
  - discriminate.
  - pose proof (extractOnce_Forall P rt create text log HP) as V.
    destruct (extractOnce rt create text log) as [[v | m] lg]; simpl in V;
      injection H as <- <-; [exact V | constructor].
  - unfold extractInChunks in H.
    destruct (splitLoop (length text) text maxChars 0) as [chunks |]; [| discriminate].
    destruct (extractEach (extractAllReferencesWithLLM depth rt) chunks log)
      as [[all lg] |] eqn:E; [| discriminate].
    apply extractEach_results in E. destruct E as (results & R & ->).
    assert (V : Forall validReference (List.concat results)).
    { eapply chunkResults_Forall; [| exact R].
      intros c l r l' Hc. eapply extractAll_valid; exact Hc. }
    assert (Q : Forall P (List.concat results)).
    { eapply chunkResults_Forall; [| exact R]. intros c l r l' Hc. eapply IH; exact Hc. }
    rewrite (dedupe_firstOccurrences _ V [] [] sameKeys_nil) in H.
    injection H as <- <-. apply firstOccurrences_Forall. exact Q.
  - pose proof (extractOnce_Forall P rt create text log HP) as V.
    destruct (extractOnce rt create text log) as [[v | m] lg]; simpl in V;
      injection H as <- <-; [exact V | constructor].
Qed.

(** Deduplication leaves case-folded keys that are pairwise distinct. *)
Lemma firstOccurrences_distinct (l : list ExtractedReference) :
  forall before,
    NoDup (map foldedKey (firstOccurrences before l)) /\
    forall r, In r (firstOccurrences before l) ->
              forall b, In b before -> foldedKey r <> foldedKey b.
Proof.
  induction l as [| r l IH]; intros before; simpl.
  - split; [constructor | intros r []].
  - destruct (IH (before ++ [r])) as [N D].
    destruct (existsb (fun r' => String.eqb (foldedKey r) (foldedKey r')) before) eqn:E.
    + split; [exact N |].
      intros x Hx b Hb. apply (D x Hx b). apply in_or_app. left; exact Hb.
    + split.
      * simpl. constructor; [| exact N].
        intros Hin. apply in_map_iff in Hin. destruct Hin as (x & Hk & Hx).
        apply (D x Hx r); [apply in_or_app; right; left; reflexivity | exact Hk].
      * intros x [<- | Hx] b Hb.
        -- intros Hk.
           assert (T : existsb (fun r' => String.eqb (foldedKey r) (foldedKey r')) before = true).
           { apply existsb_exists. exists b. split; [exact Hb |].
             rewrite Hk. apply String.eqb_refl. }
           congruence.
        -- apply (D x Hx b). apply in_or_app. left; exact Hb.
Qed.

(** One spoiled entry makes the mapping or the filter throw. *)
Lemma get_member (v : JsValue) (k : string) (x : JsValue) :
  get v k = Normal x -> x = member v k.
Proof. destruct v; simpl; intros H; try discriminate; injection H as <-; reflexivity. Qed.

Lemma unusableKey_or (a b : JsValue) : unusableKey a -> or a b = a.
Proof. intros [T _]. unfold or. rewrite T. reflexivity. Qed.

Lemma isValid_unusable (r : ExtractedReference) :
  unusableKey (citationKey r) -> exists m, isValid r = Throw m.
Proof.
  intros [T N]. unfold isValid. rewrite T.
  destruct (citationKey r) as [| | b | n | s | l | f]; simpl in *;
    try discriminate; eauto.
  exfalso. apply (N s). reflexivity.
Qed.

Lemma filterValid_unusable (l : list ExtractedReference) (r : ExtractedReference) :
  In r l -> unusableKey (citationKey r) -> exists m, filterValid l = Throw m.
Proof.
  induction l as [| x l IH]; intros Hin U; [destruct Hin |]. simpl.
  destruct Hin as [-> | Hin].
  - destruct (isValid_unusable r U) as (m & ->). simpl. eauto.
  - destruct (isValid x) as [keep | m]; simpl; [| eauto].
    destruct (IH Hin U) as (m & ->). simpl. eauto.
Qed.

Lemma mapReferences_spoiled (items : list JsValue) (e : JsValue) :
  In e items -> spoiled e ->
  forall index,
    (exists m, mapReferences items index = Throw m) \/
    (exists refs r, mapReferences items index = Normal refs /\ In r refs /\
                    unusableKey (citationKey r)).
Proof.
  induction items as [| x items IH]; intros Hin Hs index; [destruct Hin |]. simpl.
  destruct (toReference x index) as [r | m] eqn:T; simpl; [| left; eauto].
  destruct Hin as [-> | Hin].
  - destruct Hs as [-> | U]; [discriminate |].
    destruct (mapReferences items (S index)) as [rs | m]; simpl; [| left; eauto].
    right. exists (r :: rs), r. split; [reflexivity |]. split; [left; reflexivity |].
    unfold toReference in T.
    destruct (get e "citationKey") as [v | m]; simpl in T; [| discriminate].
    injection T as <-. simpl. rewrite (unusableKey_or _ _ U). exact U.
  - destruct (IH Hin Hs (S index)) as [(m & ->) | (rs & r' & -> & Hr & U)]; simpl.
    + left; eauto.
    + right. exists (r :: rs), r'. split; [reflexivity |]. split; [right; exact Hr | exact U].
Qed.

End StampFacts.

(** X3.  Whatever the model answers, every reference the extractor returns
    carries confidence "high", extraction method "llm" and no affiliation,
    and each of its other optional fields is a present (truthy) value or the
    empty string, never [null] or [undefined]. *)
Theorem extractor_stamps_every_reference :
  forall (rt : LlmBatchExtractor.Runtime) (text : string)
         (log : LlmBatchExtractor.CallLog) (depth : nat),
    exists refs log',
      LlmBatchExtractor.extractAllReferencesWithLLM (S (S depth)) rt text log
      = Some (refs, log') /\
      Forall ExtractorNotions.stamped refs.
Proof.
  intros rt text log depth.
  destruct (CallFacts.extractAll_total depth rt text log) as (refs & log' & E).
  exists refs, log'. split; [exact E |].
  eapply StampFacts.extractAll_Forall; [| exact E].
  intros ref index r. apply StampFacts.toReference_stamped.
Qed.

(** X4.  For a text beyond the budget, the references returned have
    pairwise distinct case-folded citation keys. *)
Theorem extractor_chunked_keys_distinct :
  forall (rt : LlmBatchExtractor.Runtime)
         (create : LlmBatchExtractor.CallLog -> string -> LlmBatchExtractor.ModelReply)
         (text : string) (log : LlmBatchExtractor.CallLog) (depth : nat),
    LlmBatchExtractor.openai rt = Some create ->
    LlmBatchExtractor.maxChars < String.length text ->
    exists refs log',
      LlmBatchExtractor.extractAllReferencesWithLLM (S (S depth)) rt text log
      = Some (refs, log') /\
      NoDup (map ExtractorSpec.foldedKey refs) /\
      Forall (fun r => exists k, Types.citationKey r = Js.JStr k /\
                                 ExtractorSpec.foldedKey r = JsString.toLowerCase k) refs.
Proof.
  intros rt create text log depth Hc Hl.
  destruct (CallFacts.extractAll_beyond_budget depth rt create text log Hc Hl)
    as (chunks & results & _ & _ & _ & _ & E).
  eexists _, _. split; [exact E |]. split.
  - apply (StampFacts.firstOccurrences_distinct (List.concat results) []).
  - pose proof (ExtractorFacts.extractAll_valid _ _ _ _ _ _ E) as V.
    eapply Forall_impl; [| exact V].
    intros r (k & K & _). exists k. split; [exact K |].
    unfold ExtractorSpec.foldedKey. rewrite K. reflexivity.
Qed.

Lemma extractor_chunked_keys_distinct_witness :
  LlmBatchExtractor.maxChars < String.length ExtractionSamples.lateBreakText /\
  exists refs log',
    LlmBatchExtractor.extractAllReferencesWithLLM 2 ExtractionSamples.hillRuntime
      ExtractionSamples.lateBreakText [] = Some (refs, log') /\
    List.length log' = 3 /\
    NoDup (map ExtractorSpec.foldedKey refs).
Proof.
  assert (Hl : LlmBatchExtractor.maxChars < String.length ExtractionSamples.lateBreakText)
    by (apply Nat.ltb_lt; vm_compute; reflexivity).
  split; [exact Hl |].
  destruct (extractor_chunked_keys_distinct ExtractionSamples.hillRuntime _
              ExtractionSamples.lateBreakText [] 0 eq_refl Hl)
    as (refs & log' & E & N & _).
  exists refs, log'. split; [exact E |]. split; [| exact N].
  vm_compute in E. injection E as _ <-. reflexivity.
Defined.

(** X5.  One spoiled entry voids the batch: when the array the model
    returned for a text within the budget holds a [null] entry, or an entry
    whose [citationKey] is truthy without being a string, the extractor
    returns no reference at all, whatever the other entries are. *)
Theorem extractor_spoiled_entry_voids_batch :
  forall (rt : LlmBatchExtractor.Runtime)
         (create : LlmBatchExtractor.CallLog -> string -> LlmBatchExtractor.ModelReply)
         (text content : string) (log : LlmBatchExtractor.CallLog) (depth : nat)
         (parsed : Js.JsValue) (items : list Js.JsValue) (entry : Js.JsValue),
    LlmBatchExtractor.openai rt = Some create ->
    String.length text <= LlmBatchExtractor.maxChars ->
    create log (LlmBatchExtractor.userContent text)
    = LlmBatchExtractor.Replies (Some content) ->
    LlmBatchExtractor.parseWithRecovery rt content = Js.Normal parsed ->
    LlmBatchExtractor.referencesArrayOf parsed = Js.Normal items ->
    In entry items ->
    ExtractorNotions.spoiled entry ->
    LlmBatchExtractor.extractAllReferencesWithLLM depth rt text log
    = Some ([], log ++ [LlmBatchExtractor.userContent text]).
Proof.
  intros rt create text content log depth parsed items entry Hc Hs Hr Hp Ha Hin Hsp.
  rewrite (CallFacts.extractAll_within_budget depth rt create text log Hc Hs).
  f_equal. f_equal. unfold LlmBatchExtractor.extractOnce. rewrite Hr.
  destruct (JsString.nonEmpty content); [| reflexivity].
  simpl. rewrite Hp. simpl. rewrite Ha. simpl.
  destruct (StampFacts.mapReferences_spoiled items entry Hin Hsp 0)
    as [(m & ->) | (refs & r & -> & Hr' & U)]; simpl; [reflexivity |].
  destruct (StampFacts.filterValid_unusable refs r Hr' U) as (m & ->). reflexivity.
Qed.

Lemma extractor_spoiled_entry_voids_batch_witness :
  In Js.JNull [ExtractorNotions.hillEntry; Js.JNull] /\
  ExtractorNotions.spoiled Js.JNull /\
  LlmBatchExtractor.extractAllReferencesWithLLM 2 ExtractorNotions.nullRuntime
    "[Hill '79] A (1979). T." []
  = Some ([], [LlmBatchExtractor.userContent "[Hill '79] A (1979). T."]).
Proof.
  assert (Hin : In Js.JNull [ExtractorNotions.hillEntry; Js.JNull])
    by (right; left; reflexivity).
  assert (Hsp : ExtractorNotions.spoiled Js.JNull) by (left; reflexivity).
  split; [exact Hin |]. split; [exact Hsp |].
  apply (extractor_spoiled_entry_voids_batch ExtractorNotions.nullRuntime _
           "[Hill '79] A (1979). T." ExtractorNotions.nullAnswer [] 2
           (Js.JArr [ExtractorNotions.hillEntry; Js.JNull])
           [ExtractorNotions.hillEntry; Js.JNull] Js.JNull
           eq_refl);
    [apply Nat.leb_le; vm_compute; reflexivity
    | reflexivity | reflexivity | reflexivity | exact Hin | exact Hsp].
Defined.

(** ** The record store: merging *)

Module StoreFacts.
Import JsString Js Types MasterTable MasterTableSpec MasterTableAdmin MasterTableNotions
       StringFacts MasterTableFacts.

Lemma Subsequence_none {A : Type} (l : list A) : Subsequence [] l.
Proof. induction l; constructor; assumption. Qed.

Lemma Subsequence_refl {A : Type} (l : list A) : Subsequence l l.
Proof. induction l; constructor; assumption. Qed.

Lemma Subsequence_length {A : Type} (l l' : list A) :
  Subsequence l l' -> List.length l <= List.length l'.
Proof. induction 1; simpl; lia. Qed.

(** The loop only appends, and appends incoming records in their order. *)
Lemma mergeLoop_appends (l : list ExtractedReference) :
  forall st st',
    mergeLoop l st = Normal st' ->
    exists appended,
      existing st' = existing st ++ appended /\
      Subsequence appended l /\
      addedCount st' = addedCount st + List.length appended /\
      duplicateCount st' + List.length appended = duplicateCount st + List.length l.
Proof.
  induction l as [| r l IH]; intros st st' H; simpl in H.
  - injection H as <-. exists []. rewrite app_nil_r. simpl.
    split; [reflexivity |]. split; [constructor |]. split; lia.
  - destruct (mergeStep st r) as [st1 | m] eqn:S1; simpl in H; [| discriminate].
    destruct (IH _ _ H) as (app1 & E & Sub & A & D).
    destruct (mergeStep_normal _ _ _ S1) as [[_ ->] | [_ (s1 & _ & ->)]]; simpl in *.
    + exists app1. split; [exact E |]. split; [constructor; exact Sub |].
      split; [exact A | lia].
    + exists (r :: app1). rewrite E, <- app_assoc. simpl.
      split; [reflexivity |]. split; [constructor; exact Sub |]. split; lia.
Qed.

Lemma mergeLoop_app (l1 l2 : list ExtractedReference) (st : MergeState) :
  mergeLoop (l1 ++ l2) st = (st1 <- mergeLoop l1 st ;; mergeLoop l2 st1).
Proof.
  revert st. induction l1 as [| r l1 IH]; intros st; simpl; [reflexivity |].
  destruct (mergeStep st r) as [st1 | m]; simpl; [apply IH | reflexivity].
Qed.

(** The counters only count: the loop does the same from other counts. *)
Lemma mergeLoop_counters (l : list ExtractedReference) :
  forall e s a d st,
    mergeLoop l (mkMergeState e s a d) = Normal st ->
    forall x y,
      mergeLoop l (mkMergeState e s (x + a) (y + d))
      = Normal (mkMergeState (existing st) (sets st)
                             (x + addedCount st) (y + duplicateCount st)).
Proof.
  induction l as [| r l IH]; intros e s a d st H x y; simpl in H |- *.
  - injection H as <-. reflexivity.
  - unfold mergeStep in H |- *. simpl in H |- *.
    destruct (isDuplicate r s) as [[|] | m]; simpl in H |- *; try discriminate.
    + rewrite plus_n_Sm. apply (IH _ _ _ _ _ H).
    + destruct (register r s) as [s1 | m]; simpl in H |- *; [| discriminate].
      rewrite plus_n_Sm. apply (IH _ _ _ _ _ H).
Qed.

Lemma distinctRecords_app (c : list ExtractedReference) (x : ExtractedReference) :
  distinctRecords c -> isDuplicateOf c x = false -> distinctRecords (c ++ [x]).
Proof.
  induction c as [| r c IH]; intros D N; simpl in *.
  - split; [intros e [] | exact I].
  - apply orb_false_iff in N. destruct N as [N1 N2]. destruct D as [D1 D2].
    split; [| apply IH; assumption].
    intros e He. apply in_app_or in He. destruct He as [He | [<- | []]];
      [apply D1; exact He | exact N1].
Qed.

Lemma mergeBySpec_distinct (l : list ExtractedReference) :
  forall c a d, distinctRecords c -> distinctRecords (fst (fst (mergeBySpec c l a d))).
Proof.
  induction l as [| r l IH]; intros c a d D; simpl; [exact D |].
  destruct (isDuplicateOf c r) eqn:N; [apply IH; exact D |].
  apply IH. apply distinctRecords_app; assumption.
Qed.

Lemma anonymous_not_duplicate (r : ExtractedReference) (s : StringSet * StringSet) :
  anonymous r -> isDuplicate r s = Normal false /\ register r s = Normal s.
Proof.
  intros [K R]. destruct s as [ks rs]. unfold isDuplicate, register.
  rewrite K, R. simpl. split; reflexivity.
Qed.

Lemma mergeLoop_anonymous (l : list ExtractedReference) :
  (forall r, In r l -> anonymous r) ->
  forall st,
    mergeLoop l st
    = Normal (mkMergeState (existing st ++ l) (sets st)
                           (addedCount st + List.length l) (duplicateCount st)).
Proof.
  induction l as [| r l IH]; intros Ha st; simpl.
  - rewrite app_nil_r, Nat.add_0_r. destruct st; reflexivity.
  - unfold mergeStep.
    destruct (anonymous_not_duplicate r (sets st) (Ha r (or_introl eq_refl))) as [-> ->].
    simpl. rewrite IH by (intros x Hx; apply Ha; right; exact Hx). simpl.
    rewrite <- app_assoc. simpl. rewrite <- plus_n_Sm. reflexivity.
Qed.

End StoreFacts.

(** X6.  A merge only appends: the collection persisted afterwards is the
    one before followed by some of the incoming records, in the order they
    came in; when the call completes, the counters are the number of records
    appended, the number left out, and the new length.  When the call throws,
    either nothing was appended, or the save threw after the collection with
    the appended records was written. *)
Theorem store_merge_only_appends :
  forall (exports : MasterTable.Exporter) (newReferences : list Types.ExtractedReference)
         (table : MasterTable.Collection),
    exists appended,
      snd (MasterTable.addToMasterTable exports newReferences table) = table ++ appended /\
      MasterTableNotions.Subsequence appended newReferences /\
      match fst (MasterTable.addToMasterTable exports newReferences table) with
      | Js.Normal stats =>
          MasterTable.added stats = List.length appended /\
          MasterTable.added stats + MasterTable.duplicates stats
          = List.length newReferences /\
          MasterTable.total stats = List.length table + List.length appended
      | Js.Throw m =>
          appended = [] \/
          MasterTable.saveMasterTable exports (table ++ appended) = Js.Throw m
      end.
Proof.
  intros exports newReferences table. unfold MasterTable.addToMasterTable.
  destruct (MasterTable.registerAll table ([], [])) as [s0 | m]; simpl.
  2:{ exists []. rewrite app_nil_r.
      split; [reflexivity |]. split; [apply StoreFacts.Subsequence_none |].
      left; reflexivity. }
  destruct (MasterTable.mergeLoop newReferences (MasterTable.mkMergeState table s0 0 0))
    as [st | m] eqn:L; simpl.
  2:{ exists []. rewrite app_nil_r.
      split; [reflexivity |]. split; [apply StoreFacts.Subsequence_none |].
      left; reflexivity. }
  destruct (StoreFacts.mergeLoop_appends _ _ _ L) as (appended & E & Sub & A & D).
  simpl in *. exists appended. rewrite E.
  split; [reflexivity |]. split; [exact Sub |].
  destruct (MasterTable.saveMasterTable exports (table ++ appended)) as [[] | m] eqn:Sv;
    simpl.
  - rewrite length_app. split; [exact A |]. split; lia.
  - right. reflexivity.
Qed.

(** X7.  A merge keeps the records of the store distinct: when no record
    of the collection matches an earlier one (by case-folded citation key or
    by normalized raw text), the same holds of the collection persisted
    after the merge, whatever comes in and whether or not the call
    completes. *)
Theorem store_merge_keeps_records_distinct :
  forall (exports : MasterTable.Exporter) (newReferences : list Types.ExtractedReference)
         (table : MasterTable.Collection),
    MasterTableNotions.distinctRecords table ->
    MasterTableNotions.distinctRecords
      (snd (MasterTable.addToMasterTable exports newReferences table)).
Proof.
  intros exports newReferences table D. unfold MasterTable.addToMasterTable.
  destruct (MasterTable.registerAll table ([], [])) as [s0 | m] eqn:R; simpl; [| exact D].
  destruct (MasterTable.mergeLoop newReferences (MasterTable.mkMergeState table s0 0 0))
    as [st | m] eqn:L; simpl; [| exact D].
  assert (M : MasterTableSpec.mirrors table s0).
  { apply (MasterTableFacts.mirrors_registerAll table [] ([], []) s0
             MasterTableFacts.mirrors_nil R). }
  destruct (MasterTableFacts.mergeLoop_refines newReferences
              (MasterTable.mkMergeState table s0 0 0) st M L) as [E _].
  simpl in E.
  pose proof (StoreFacts.mergeBySpec_distinct newReferences table 0 0 D) as F.
  rewrite <- E in F. exact F.
Qed.

Lemma store_merge_keeps_records_distinct_witness :
  let incoming := [MasterTableSpec.keyed "Hill '79" "Hill 1979.";
                   MasterTableSpec.keyed "HILL '79" "";
                   MasterTableSpec.keyed "Hill 1979" "hill, 1979";
                   MasterTableSpec.keyed "Wiener '48" ""] in
  MasterTableNotions.distinctRecords [] /\
  snd (MasterTable.addToMasterTable MasterTableSpec.failingExports incoming [])
  = [MasterTableSpec.keyed "Hill '79" "Hill 1979."; MasterTableSpec.keyed "Wiener '48" ""] /\
  MasterTableNotions.distinctRecords
    (snd (MasterTable.addToMasterTable MasterTableSpec.failingExports incoming [])).
Proof.
  intros incoming.
  assert (D : MasterTableNotions.distinctRecords []) by exact I.
  split; [exact D |]. split; [vm_compute; reflexivity |].
  apply (store_merge_keeps_records_distinct MasterTableSpec.failingExports incoming [] D).
Defined.

(** X8.  Merging in two batches is merging at once: when a merge of
    [first] and then a merge of [second] complete, one merge of
    [first ++ second], with the exports of the second, completes and leaves
    the same collection, and its counters are the sums of theirs. *)
Theorem store_merge_in_batches :
  forall (exports1 exports2 : MasterTable.Exporter)
         (first second : list Types.ExtractedReference)
         (table table1 table2 : MasterTable.Collection)
         (stats1 stats2 : MasterTable.MergeStats),
    MasterTable.addToMasterTable exports1 first table = (Js.Normal stats1, table1) ->
    MasterTable.addToMasterTable exports2 second table1 = (Js.Normal stats2, table2) ->
    MasterTable.addToMasterTable exports2 (first ++ second) table
    = (Js.Normal (MasterTable.mkStats
                    (MasterTable.added stats1 + MasterTable.added stats2)
                    (MasterTable.duplicates stats1 + MasterTable.duplicates stats2)
                    (MasterTable.total stats2)),
       table2).
Proof.
  intros exports1 exports2 first second table table1 table2 stats1 stats2 H1 H2.
  destruct (MasterTableFacts.addToMasterTable_normal _ _ _ _ _ H1)
    as (s0 & st1 & R & L1 & _ & -> & ->).
  pose proof (MasterTableFacts.mergeLoop_registered first
                (MasterTable.mkMergeState table s0 0 0) st1 R L1) as R1.
  destruct (MasterTableFacts.addToMasterTable_normal _ _ _ _ _ H2)
    as (s1 & st2 & R2 & L2 & Sv & -> & ->).
  cbn [MasterTable.existing] in R1. rewrite R1 in R2. injection R2 as <-.
  unfold MasterTable.addToMasterTable. rewrite R. simpl.
  rewrite StoreFacts.mergeLoop_app, L1. simpl.
  pose proof (StoreFacts.mergeLoop_counters second _ _ _ _ _ L2
                (MasterTable.addedCount st1) (MasterTable.duplicateCount st1)) as C.
  rewrite !Nat.add_0_r in C.
  destruct st1 as [e1 t1 a1 d1]. simpl in *. rewrite C. simpl. rewrite Sv. reflexivity.
Qed.

Lemma store_merge_in_batches_witness :
  exists table1 table2,
    MasterTable.addToMasterTable MasterTableSpec.quietExports
      [MasterTableSpec.keyed "Hill '79" ""; MasterTableSpec.keyed "HILL '79" ""] []
    = (Js.Normal (MasterTable.mkStats 1 1 1), table1) /\
    MasterTable.addToMasterTable MasterTableSpec.quietExports
      [MasterTableSpec.keyed "Wiener '48" ""; MasterTableSpec.keyed "hill '79" ""] table1
    = (Js.Normal (MasterTable.mkStats 1 1 2), table2) /\
    MasterTable.addToMasterTable MasterTableSpec.quietExports
      ([MasterTableSpec.keyed "Hill '79" ""; MasterTableSpec.keyed "HILL '79" ""]
       ++ [MasterTableSpec.keyed "Wiener '48" ""; MasterTableSpec.keyed "hill '79" ""]) []
    = (Js.Normal (MasterTable.mkStats 2 2 2), table2).
Proof.
  eexists _, _.
  assert (H1 : MasterTable.addToMasterTable MasterTableSpec.quietExports
      [MasterTableSpec.keyed "Hill '79" ""; MasterTableSpec.keyed "HILL '79" ""] []
    = (Js.Normal (MasterTable.mkStats 1 1 1), [MasterTableSpec.keyed "Hill '79" ""]))
    by (vm_compute; reflexivity).
  assert (H2 : MasterTable.addToMasterTable MasterTableSpec.quietExports
      [MasterTableSpec.keyed "Wiener '48" ""; MasterTableSpec.keyed "hill '79" ""]
      [MasterTableSpec.keyed "Hill '79" ""]
    = (Js.Normal (MasterTable.mkStats 1 1 2),
       [MasterTableSpec.keyed "Hill '79" ""; MasterTableSpec.keyed "Wiener '48" ""]))
    by (vm_compute; reflexivity).
  split; [exact H1 |]. split; [exact H2 |].
  exact (store_merge_in_batches _ _ _ _ _ _ _ _ _ H1 H2).
Defined.

(** X9.  Records the store cannot compare are always stored: a record
    with neither a citation key nor a raw text is never a duplicate, so a
    merge of such records appends every one of them, also when the very same
    record is stored already or comes in twice; the call completes with
    these counts when the save of the resulting collection does, and throws
    the error of the save otherwise, the records being stored all the
    same. *)
Theorem store_always_adds_anonymous_records :
  forall (exports : MasterTable.Exporter) (newReferences : list Types.ExtractedReference)
         (table : MasterTable.Collection),
    (forall r, In r table -> MasterTableSpec.storable r) ->
    (forall r, In r newReferences -> MasterTableNotions.anonymous r) ->
    snd (MasterTable.addToMasterTable exports newReferences table)
    = table ++ newReferences /\
    fst (MasterTable.addToMasterTable exports newReferences table)
    = match MasterTable.saveMasterTable exports (table ++ newReferences) with
      | Js.Normal _ =>
          Js.Normal (MasterTable.mkStats (List.length newReferences) 0
                       (List.length table + List.length newReferences))
      | Js.Throw m => Js.Throw m
      end.
Proof.
  intros exports newReferences table Hs Ha. unfold MasterTable.addToMasterTable.
  destruct (MasterTableFacts.registerAll_total table Hs ([], [])) as (s0 & ->). simpl.
  rewrite (StoreFacts.mergeLoop_anonymous newReferences Ha). simpl.
  split; [reflexivity |].
  destruct (MasterTable.saveMasterTable exports (table ++ newReferences)) as [[] | m];
    simpl; [rewrite length_app |]; reflexivity.
Qed.

Lemma store_always_adds_anonymous_records_witness :
  let r := MasterTableNotions.anonymousReference in
  (forall e, In e [r] -> MasterTableSpec.storable e) /\
  (forall e, In e [r; r] -> MasterTableNotions.anonymous e) /\
  MasterTable.addToMasterTable MasterTableSpec.quietExports [r; r] [r]
  = (Js.Normal (MasterTable.mkStats 2 0 3), [r; r; r]) /\
  snd (MasterTable.addToMasterTable MasterTableSpec.failingExports [r; r] [r])
  = [r; r; r].
Proof.
  intros r.
  assert (Hs : forall e, In e [r] -> MasterTableSpec.storable e).
  { intros e [<- | []]. split; exact I. }
  assert (Ha : forall e, In e [r; r] -> MasterTableNotions.anonymous e).
  { intros e [<- | [<- | []]]; split; reflexivity. }
  split; [exact Hs |]. split; [exact Ha |].
  destruct (store_always_adds_anonymous_records MasterTableSpec.quietExports
              [r; r] [r] Hs Ha) as [S1 F1].
  destruct (store_always_adds_anonymous_records MasterTableSpec.failingExports
              [r; r] [r] Hs Ha) as [S2 _].
  split; [| exact S2].
  rewrite (surjective_pairing
             (MasterTable.addToMasterTable MasterTableSpec.quietExports [r; r] [r])).
  rewrite S1, F1. reflexivity.
Defined.

(** ** The record store: updates and statistics *)

Module StoreAdminFacts.
Import JsString Js Types MasterTable MasterTableSpec MasterTableAdmin MasterTableNotions
       EnhancementSpec StringFacts.

Lemma findIndex_found (l : list ExtractedReference) (lowered : string) :
  forall index,
    findIndex l lowered = Normal (Some index) ->
    exists before r after k,
      l = before ++ r :: after /\ List.length before = index /\
      citationKey r = JStr k /\ toLowerCase k = lowered /\
      Forall (otherKey lowered) before.
Proof.
  induction l as [| e l IH]; intros index H; simpl in H; [discriminate |].
  destruct (citationKey e) as [| | b | n | k | a | o] eqn:K; simpl in H; try discriminate.
  destruct (String.eqb (toLowerCase k) lowered) eqn:E.
  - injection H as <-. apply String.eqb_eq in E.
    exists [], e, l, k. repeat split; try assumption. constructor.
  - destruct (findIndex l lowered) as [[i |] | m] eqn:F; simpl in H; try discriminate.
    injection H as <-.
    destruct (IH i eq_refl) as (before & r & after & k' & -> & Hl & Hk & Hm & Hb).
    exists (e :: before), r, after, k'. simpl.
    repeat split; try assumption; [f_equal; exact Hl |].
    constructor; [| exact Hb]. exists k. split; [exact K |].
    apply String.eqb_neq. exact E.
Qed.

Lemma findIndex_missing (l : list ExtractedReference) (lowered : string) :
  findIndex l lowered = Normal None -> Forall (otherKey lowered) l.
Proof.
  induction l as [| e l IH]; intros H; simpl in H; [constructor |].
  destruct (citationKey e) as [| | b | n | k | a | o] eqn:K; simpl in H; try discriminate.
  destruct (String.eqb (toLowerCase k) lowered) eqn:E; [discriminate |].
  destruct (findIndex l lowered) as [[i |] | m] eqn:F; simpl in H; try discriminate.
  constructor; [| apply IH; reflexivity].
  exists k. split; [exact K | apply String.eqb_neq; exact E].
Qed.

Lemma findIndex_throws (l : list ExtractedReference) (lowered m : string) :
  findIndex l lowered = Throw m ->
  exists e, In e l /\ forall k, citationKey e <> JStr k.
Proof.
  induction l as [| e l IH]; intros H; simpl in H; [discriminate |].
  destruct (citationKey e) as [| | b | n | k | a | o] eqn:K; simpl in H;
    try (exists e; split; [left; reflexivity | intros k'; rewrite K; discriminate]).
  destruct (String.eqb (toLowerCase k) lowered); [discriminate |].
  destruct (findIndex l lowered) as [[i |] | m'] eqn:F; simpl in H; try discriminate.
  destruct (IH H) as (x & Hx & Hk). exists x. split; [right; exact Hx | exact Hk].
Qed.

Lemma assignAt_middle (f : ExtractedReference -> ExtractedReference)
    (before : list ExtractedReference) (r : ExtractedReference)
    (after : list ExtractedReference) :
  assignAt (List.length before) f (before ++ r :: after) = before ++ f r :: after.
Proof. induction before as [| e before IH]; simpl; [reflexivity | rewrite IH; reflexivity]. Qed.

Lemma spread_noUpdates (r : ExtractedReference) : spread r noUpdates = r.
Proof. destruct r; reflexivity. Qed.

(** Counting. *)
Lemma count_bound (test : ExtractedReference -> Completion bool)
    (l : list ExtractedReference) (n : nat) :
  count test l = Normal n -> n <= List.length l.
Proof.
  revert n. induction l as [| r l IH]; intros n H; simpl in H.
  - injection H as <-. simpl. lia.
  - destruct (test r) as [keep | m]; simpl in H; [| discriminate].
    destruct (count test l) as [k | m]; simpl in H; [| discriminate].
    injection H as <-. specialize (IH k eq_refl). simpl. destruct keep; lia.
Qed.

Lemma count_exclusive (p q : ExtractedReference -> Completion bool)
    (l : list ExtractedReference) :
  (forall r, In r l -> p r = Normal true -> q r = Normal true -> False) ->
  forall a b, count p l = Normal a -> count q l = Normal b -> a + b <= List.length l.
Proof.
  induction l as [| r l IH]; intros X a b Ha Hb; simpl in Ha, Hb.
  - injection Ha as <-. injection Hb as <-. simpl. lia.
  - destruct (p r) as [kp | m] eqn:P; simpl in Ha; [| discriminate].
    destruct (count p l) as [a' | m]; simpl in Ha; [| discriminate].
    destruct (q r) as [kq | m] eqn:Q; simpl in Hb; [| discriminate].
    destruct (count q l) as [b' | m]; simpl in Hb; [| discriminate].
    injection Ha as <-. injection Hb as <-.
    assert (L : a' + b' <= List.length l).
    { apply IH; [| reflexivity | reflexivity]. intros x Hx. apply X. right; exact Hx. }
    simpl. destruct kp, kq; try lia.
    exfalso. exact (X r (or_introl eq_refl) P Q).
Qed.

Lemma count_ext (p : ExtractedReference -> Completion bool)
    (l l' : list ExtractedReference) :
  Forall2 (fun r r' => p r = p r') l l' -> count p l = count p l'.
Proof. induction 1 as [| r r' l l' E _ IH]; simpl; [reflexivity | rewrite E, IH; reflexivity]. Qed.

Lemma count_throws (p : ExtractedReference -> Completion bool)
    (l : list ExtractedReference) :
  (exists m, count p l = Throw m) <-> exists r m, In r l /\ p r = Throw m.
Proof.
  induction l as [| r l IH]; simpl.
  - split; [intros (m & H); discriminate | intros (r & m & [] & _)].
  - destruct (p r) as [keep | m] eqn:P; simpl.
    + destruct (count p l) as [n | m] eqn:C; simpl.
      * split; [intros (m & H); discriminate |].
        intros (x & m & [<- | Hx] & Hm); [congruence |].
        destruct IH as [_ IH]. destruct IH as (m' & H); [eauto | discriminate].
      * split; [| eauto]. intros _.
        destruct IH as [IH _]. destruct IH as (x & m' & Hx & Hm); eauto 6.
    + split; [| eauto]. intros _. exists r, m. split; [left; reflexivity | exact P].
Qed.

Lemma includes_empty (needle : string) :
  needle <> EmptyString -> includes EmptyString needle = false.
Proof. destruct needle; [congruence | reflexivity]. Qed.

Lemma lacksNotes_no_email (r : ExtractedReference) :
  lacksNotes r = Normal true -> mentionsEmail r = Normal true -> False.
Proof.
  unfold lacksNotes, mentionsEmail.
  destruct (extraNotes r) as [| | b | n | s | a | o]; simpl; try discriminate.
  destruct s; simpl; discriminate.
Qed.

Lemma lacksNotes_no_institution (r : ExtractedReference) :
  lacksNotes r = Normal true -> mentionsInstitution r = Normal true -> False.
Proof.
  unfold lacksNotes, mentionsInstitution.
  destruct (extraNotes r) as [| | b | n | s | a | o]; simpl; try discriminate.
  destruct s; simpl; discriminate.
Qed.

Lemma opaqueNotes_throws (r : ExtractedReference) :
  opaqueNotes r <-> exists m, mentionsEmail r = Throw m.
Proof.
  unfold opaqueNotes, mentionsEmail.
  destruct (extraNotes r) as [| | b | n | s | a | o]; simpl;
    (split; [intros H; try destruct H; eauto | intros (m & H); try discriminate; exact I]).
Qed.

Lemma not_opaque_total (r : ExtractedReference) :
  ~ opaqueNotes r ->
  (exists b, mentionsEmail r = Normal b) /\
  (exists b, mentionsInstitution r = Normal b) /\
  (exists b, lacksNotes r = Normal b).
Proof.
  unfold opaqueNotes, mentionsEmail, mentionsInstitution, lacksNotes.
  destruct (extraNotes r) as [| | b | n | s | a | o]; simpl; intros H;
    try (exfalso; apply H; exact I);
    (split; [eauto | split; [| eauto]]); eauto;
    match goal with |- context [if ?c then _ else _] => destruct c; eauto end.
Qed.

Lemma count_total (p : ExtractedReference -> Completion bool)
    (l : list ExtractedReference) :
  (forall r, In r l -> exists b, p r = Normal b) -> exists n, count p l = Normal n.
Proof.
  induction l as [| r l IH]; intros H; simpl; [eauto |].
  destruct (H r (or_introl eq_refl)) as (b & ->).
  destruct IH as (n & ->); [intros x Hx; apply H; right; exact Hx |]. simpl. eauto.
Qed.

Lemma sameButAffiliation_notes (l l' : list ExtractedReference) :
  Forall2 sameButAffiliation l l' ->
  Forall2 (fun r r' => extraNotes r = extraNotes r') l l'.
Proof.
  intros H. eapply Forall2_impl; [| exact H].
  intros r r' S. unfold sameButAffiliation in S. tauto.
Qed.

Lemma getMasterTableStats_notes (l l' : list ExtractedReference) :
  Forall2 (fun r r' => extraNotes r = extraNotes r') l l' ->
  getMasterTableStats l = getMasterTableStats l'.
Proof.
  intros H. unfold getMasterTableStats.
  rewrite (count_ext mentionsEmail l l'),
          (count_ext mentionsInstitution l l'),
          (count_ext lacksNotes l l'), (Forall2_length H); [reflexivity | | |];
    (eapply Forall2_impl; [| exact H]); intros r r' E;
    unfold lacksNotes, mentionsInstitution, mentionsEmail; rewrite E; reflexivity.
Qed.

End StoreAdminFacts.

(** X10.  What [updateReference] does to the store.  When the key is
    found, exactly one record is replaced: the first one whose citation key
    equals the given key up to case, by itself overridden with the updates;
    the records before it have string keys that differ, and every other
    record is as before; the call then returns [true] when the save
    completes, and throws the error of the save otherwise, the updated
    collection being persisted all the same.  When no record has the key, it
    returns [false] and the store is untouched.  When a record met before any
    match has a citation key that is not a string, it throws and the store is
    untouched. *)
Theorem updateReference_outcomes :
  forall (exports : MasterTable.Exporter) (key : string)
         (updates : MasterTableAdmin.Updates) (table : MasterTable.Collection),
    (exists before r after k,
        table = before ++ r :: after /\
        Types.citationKey r = Js.JStr k /\
        JsString.toLowerCase k = JsString.toLowerCase key /\
        Forall (MasterTableNotions.otherKey (JsString.toLowerCase key)) before /\
        snd (MasterTableAdmin.updateReference exports key updates table)
        = before ++ MasterTableAdmin.spread r updates :: after /\
        fst (MasterTableAdmin.updateReference exports key updates table)
        = match exports (before ++ MasterTableAdmin.spread r updates :: after) with
          | Js.Normal _ => Js.Normal true
          | Js.Throw m => Js.Throw m
          end)
    \/
    (MasterTableAdmin.updateReference exports key updates table = (Js.Normal false, table) /\
     Forall (MasterTableNotions.otherKey (JsString.toLowerCase key)) table)
    \/
    (exists m e,
        MasterTableAdmin.updateReference exports key updates table = (Js.Throw m, table) /\
        In e table /\ forall k, Types.citationKey e <> Js.JStr k).
Proof.
  intros exports key updates table. unfold MasterTableAdmin.updateReference.
  destruct (MasterTableAdmin.findIndex table (JsString.toLowerCase key))
    as [[index |] | m] eqn:F.
  - left.
    destruct (StoreAdminFacts.findIndex_found _ _ _ F)
      as (before & r & after & k & -> & <- & Hk & Hm & Hb).
    exists before, r, after, k.
    cbv zeta. rewrite StoreAdminFacts.assignAt_middle. cbn [fst snd].
    split; [reflexivity |]. split; [exact Hk |]. split; [exact Hm |].
    split; [exact Hb |]. split; [reflexivity |].
    unfold MasterTable.saveMasterTable.
    destruct (before ++ MasterTableAdmin.spread r updates :: after) as [| x l] eqn:E.
    + destruct before; discriminate E.
    + destruct (exports (x :: l)) as [[] | m]; reflexivity.
  - right. left. split; [reflexivity | apply StoreAdminFacts.findIndex_missing; exact F].
  - right. right.
    destruct (StoreAdminFacts.findIndex_throws _ _ _ F) as (e & He & Hk).
    exists m, e. split; [reflexivity |]. split; [exact He | exact Hk].
Qed.

(** X11.  The statistics are consistent: when [getMasterTableStats]
    returns, [total] is the number of stored records, and a record counted
    as needing enhancement (no notes) is counted neither as having an e-mail
    nor as having an affiliation, so each of these two counts plus
    [needsEnhancement] is at most [total]. *)
Theorem getMasterTableStats_consistent :
  forall (table : MasterTable.Collection) (stats : MasterTableAdmin.Statistics),
    MasterTableAdmin.getMasterTableStats table = Js.Normal stats ->
    MasterTableAdmin.total stats = List.length table /\
    MasterTableAdmin.withEmails stats + MasterTableAdmin.needsEnhancement stats
    <= MasterTableAdmin.total stats /\
    MasterTableAdmin.withAffiliations stats + MasterTableAdmin.needsEnhancement stats
    <= MasterTableAdmin.total stats.
Proof.
  intros table stats H. unfold MasterTableAdmin.getMasterTableStats in H.
  destruct (MasterTableAdmin.count MasterTableAdmin.mentionsEmail table)
    as [e | m] eqn:E; simpl in H; [| discriminate].
  destruct (MasterTableAdmin.count MasterTableAdmin.mentionsInstitution table)
    as [a | m] eqn:A; simpl in H; [| discriminate].
  destruct (MasterTableAdmin.count MasterTableAdmin.lacksNotes table)
    as [n | m] eqn:N; simpl in H; [| discriminate].
  injection H as <-. simpl. split; [reflexivity |]. split.
  - apply (StoreAdminFacts.count_exclusive _ _ table
             (fun r _ P Q => StoreAdminFacts.lacksNotes_no_email r Q P) e n E N).
  - apply (StoreAdminFacts.count_exclusive _ _ table
             (fun r _ P Q => StoreAdminFacts.lacksNotes_no_institution r Q P) a n A N).
Qed.

Lemma getMasterTableStats_consistent_witness :
  let table := [MasterTableSpec.keyed "Hill '79" "";
                Types.mkReference (Js.JStr "Wiener '48") (Js.JStr "N. Wiener") (Js.JStr "")
                  (Js.JStr "Time") (Js.JStr "1948") (Js.JStr "") (Js.JStr "") (Js.JStr "")
                  (Js.JStr "MIT Institute, wiener@mit.edu") (Js.JStr "")
                  Js.JUndefined (Js.JStr "") (Js.JStr "high") (Js.JStr "llm")] in
  MasterTableAdmin.getMasterTableStats table
  = Js.Normal (MasterTableAdmin.mkStatistics 2 1 1 1) /\
  1 + 1 <= 2.
Proof.
  intros table.
  assert (H : MasterTableAdmin.getMasterTableStats table
              = Js.Normal (MasterTableAdmin.mkStatistics 2 1 1 1))
    by (vm_compute; reflexivity).
  split; [exact H |].
  exact (proj1 (proj2 (getMasterTableStats_consistent table _ H))).
Defined.

(** X12.  The statistics throw exactly when some stored record has notes
    that are a number, a boolean or an object: one such record makes
    [getMasterTableStats] throw for the whole store, and without any the
    statistics are returned. *)
Theorem getMasterTableStats_throws_iff :
  forall (table : MasterTable.Collection),
    (exists m, MasterTableAdmin.getMasterTableStats table = Js.Throw m) <->
    (exists r, In r table /\ MasterTableNotions.opaqueNotes r).
Proof.
  intros table. split.
  - intros (m & H).
    destruct (List.Exists_dec (fun r => MasterTableNotions.opaqueNotes r) table) as [Y | N].
    { intros r. unfold MasterTableNotions.opaqueNotes.
      destruct (Types.extraNotes r); (left; exact I) || (right; intros []). }
    + apply Exists_exists in Y. exact Y.
    + exfalso.
      assert (T : forall r, In r table -> ~ MasterTableNotions.opaqueNotes r).
      { intros r Hr O. apply N. apply Exists_exists. eauto. }
      unfold MasterTableAdmin.getMasterTableStats in H.
      destruct (StoreAdminFacts.count_total MasterTableAdmin.mentionsEmail table)
        as (e & E); [intros r Hr; apply (StoreAdminFacts.not_opaque_total r (T r Hr)) |].
      destruct (StoreAdminFacts.count_total MasterTableAdmin.mentionsInstitution table)
        as (a & A); [intros r Hr; apply (StoreAdminFacts.not_opaque_total r (T r Hr)) |].
      destruct (StoreAdminFacts.count_total MasterTableAdmin.lacksNotes table)
        as (n & Nn); [intros r Hr; apply (StoreAdminFacts.not_opaque_total r (T r Hr)) |].
      rewrite E, A, Nn in H. discriminate.
  - intros (r & Hr & O). apply StoreAdminFacts.opaqueNotes_throws in O.
    destruct O as (m & Hm).
    assert (C : exists m', MasterTableAdmin.count MasterTableAdmin.mentionsEmail table
                           = Js.Throw m').
    { apply StoreAdminFacts.count_throws. eauto. }
    destruct C as (m' & C). exists m'.
    unfold MasterTableAdmin.getMasterTableStats. rewrite C. reflexivity.
Qed.

(** X13.  An enhancement run never changes the statistics of the store:
    they are computed from the notes alone, and a run only writes
    affiliations.  In particular [withAffiliations] does not count the
    affiliations the enhancement found. *)
Theorem enhancement_leaves_statistics :
  forall (W : Type) (env : Enhancement.Env W) (id : string)
         (table0 : MasterTable.Collection) (w0 : W),
    MasterTableAdmin.getMasterTableStats
      (Enhancement.table (snd (Enhancement.startEnhancement env id table0 w0)))
    = MasterTableAdmin.getMasterTableStats table0.
Proof.
  intros W env id table0 w0.
  destruct (EnhancementFacts.startEnhancement_run env id table0 w0) as (T & _).
  simpl in T. rewrite T.
  destruct (EnhancementFacts.processEnhancement_frame env
              (Enhancement.newJob id (Enhancement.now env w0)) table0 w0) as (F & _).
  symmetry. apply StoreAdminFacts.getMasterTableStats_notes.
  apply StoreAdminFacts.sameButAffiliation_notes. exact F.
Qed.

(** ** Extraction jobs: outcomes *)

Module JobFacts.
Import JsString Js Types MasterTable LlmBatchExtractor ExtractorSpec Orchestrator
       OrchestratorFacts.

(** The ways [processExtraction] completes. *)
Lemma processExtraction_cases (depth : nat) (env : Env) (id : string)
    (request : ExtractionRequest) (w : World) (c : Completion unit) (w1 : World) :
  processExtraction depth env id request w = Some (c, w1) ->
  (exists m, c = Throw m /\ jobFiles w1 = jobFiles w /\
     ((masterTable w1 = masterTable w /\ tableSaves w1 = tableSaves w)
      \/
      (exists buffer pages refs,
         pdfBuffer request = Some buffer /\
         extractPdfSmart env buffer = Normal pages /\
         extractAllReferencesWithLLM depth (runtime env) (fullTextOf pages) (modelCalls w)
         = Some (refs, modelCalls w1) /\
         refs <> [] /\
         addToMasterTable (exportTable env) refs (masterTable w)
         = (Throw m, masterTable w1) /\
         saveMasterTable (exportTable env) (masterTable w1) = Throw m /\
         tableSaves w1 = (tableSaves w ++ [masterTable w1])%list)))
  \/
  (c = Normal tt /\
   exists buffer pages refs stats,
     pdfBuffer request = Some buffer /\
     extractPdfSmart env buffer = Normal pages /\
     extractAllReferencesWithLLM depth (runtime env) (fullTextOf pages) (modelCalls w)
     = Some (refs, modelCalls w1) /\
     refs <> [] /\
     addToMasterTable (exportTable env) refs (masterTable w)
     = (Normal stats, masterTable w1) /\
     tableSaves w1 = (tableSaves w ++ [masterTable w1])%list /\
     jobFiles w1
     = match loadFrom (jobFiles w) id with
       | Some job =>
           (jobId job,
            mkJob (jobId job) Job.completed 100 (total stats) refs (error job)
                  (createdAt job) (Some (now env))) :: jobFiles w
       | None => jobFiles w
       end /\
     getProgress w1 id = Some (mkProgress Job.completed 100 "done")).
Proof.
  unfold processExtraction.
  destruct (pdfBuffer request) as [buffer |] eqn:Hb.
  2:{ intros H. inversion H; subst. left. eexists. repeat split. left. split; reflexivity. }
  destruct (extractPdfSmart env buffer) as [pages | m] eqn:Hp.
  2:{ intros H. inversion H; subst. left. eexists. repeat split. left. split; reflexivity. }
  cbv zeta.
  destruct (extractAllReferencesWithLLM depth (runtime env) (fullTextOf pages) _)
    as [[refs log'] |] eqn:E; [| discriminate].
  assert (E' : extractAllReferencesWithLLM depth (runtime env) (fullTextOf pages)
                 (modelCalls w) = Some (refs, log')) by exact E.
  destruct refs as [| r refs].
  { intros H. inversion H; subst. left. eexists. repeat split. left. split; reflexivity. }
  cbn [masterTable updateJobProgress withModelCalls].
  destruct (MasterTableFacts.writes_cases (exportTable env) (r :: refs) (masterTable w))
    as [(W & m & A) | (W & stats0 & F)].
  - rewrite A, W. intros H. inversion H; subst. left. exists m.
    split; [reflexivity |]. split; [reflexivity |]. left. split; reflexivity.
  - rewrite W.
    destruct (addToMasterTable (exportTable env) (r :: refs) (masterTable w))
      as [[stats | m] table'] eqn:A; cbn [fst snd] in F.
    + intros H. inversion H; subst. right. split; [reflexivity |].
      exists buffer, pages, (r :: refs), stats.
      unfold getProgress, loadJob.
      cbn [jobFiles jobProgress masterTable tableSaves modelCalls
           updateJobProgress withModelCalls withMasterTable].
      destruct (loadFrom (jobFiles w) id) as [job |];
        cbn [jobFiles jobProgress masterTable tableSaves modelCalls saveJob jobId];
        rewrite loadFrom_head;
        (split; [reflexivity |]); (split; [exact Hp |]); (split; [exact E' |]);
        (split; [discriminate |]); (split; [exact A |]); repeat split.
    + intros H. inversion H; subst. left. exists m.
      split; [reflexivity |].
      cbn [jobFiles masterTable tableSaves modelCalls updateJobProgress withModelCalls
           withMasterTable].
      split; [reflexivity |]. right.
      exists buffer, pages, (r :: refs).
      split; [reflexivity |]. split; [exact Hp |]. split; [exact E' |].
      split; [discriminate |]. split; [exact A |]. split; [| reflexivity].
      destruct (saveMasterTable (exportTable env) table') as [[] | m'];
        [discriminate F | injection F as ->; reflexivity].
Qed.

(** The outcomes of a job. *)
Lemma startExtraction_outcomes (depth : nat) (env : Env) (request : ExtractionRequest)
    (w : World) :
  exists w',
    startExtraction (S (S depth)) env request w = Some (Normal (randomUUID env), w') /\
    ((exists m,
        getResult w' (randomUUID env)
        = Some (mkJob (randomUUID env) Job.failed 0 0 [] (Some m) (now env)
                      (Some (now env))) /\
        getProgress w' (randomUUID env) = Some (mkProgress Job.failed 100 "error") /\
        ((masterTable w' = masterTable w /\ tableSaves w' = tableSaves w)
         \/
         (exists buffer pages refs,
            pdfBuffer request = Some buffer /\
            extractPdfSmart env buffer = Normal pages /\
            extractAllReferencesWithLLM (S (S depth)) (runtime env) (fullTextOf pages)
              (modelCalls w) = Some (refs, modelCalls w') /\
            refs <> [] /\
            addToMasterTable (exportTable env) refs (masterTable w)
            = (Throw m, masterTable w') /\
            saveMasterTable (exportTable env) (masterTable w') = Throw m /\
            tableSaves w' = (tableSaves w ++ [masterTable w'])%list)))
     \/
     (exists buffer pages refs stats,
        pdfBuffer request = Some buffer /\
        extractPdfSmart env buffer = Normal pages /\
        extractAllReferencesWithLLM (S (S depth)) (runtime env) (fullTextOf pages)
          (modelCalls w) = Some (refs, modelCalls w') /\
        refs <> [] /\
        addToMasterTable (exportTable env) refs (masterTable w)
        = (Normal stats, masterTable w') /\
        tableSaves w' = (tableSaves w ++ [masterTable w'])%list /\
        getResult w' (randomUUID env)
        = Some (mkJob (randomUUID env) Job.completed 100 (total stats) refs None (now env)
                      (Some (now env))) /\
        getProgress w' (randomUUID env) = Some (mkProgress Job.completed 100 "done"))).
Proof.
  unfold startExtraction. cbv zeta.
  set (job0 := mkJob (randomUUID env) Job.processing 0 0 [] None (now env) None).
  set (w2 := updateJobProgress (randomUUID env) Job.processing 0 "initializing"
               (saveJob job0 w)).
  destruct (processExtraction_total depth env (randomUUID env) request w2)
    as (c & w1 & P).
  rewrite P.
  destruct (processExtraction_cases _ _ _ _ _ _ _ P)
    as [(m & -> & F & T) | (-> & buffer & pages & refs & stats & Hb & Hp & E & N & A & T & F & G)].
  - assert (L : loadJob (updateJobProgress (randomUUID env) Job.failed 100 "error" w1)
                        (randomUUID env) = Some job0).
    { unfold loadJob. cbn [jobFiles updateJobProgress]. rewrite F.
      unfold w2. cbn [jobFiles updateJobProgress saveJob jobId job0].
      apply loadFrom_head. }
    rewrite L. eexists. split; [reflexivity |]. left. exists m.
    unfold getResult, getProgress, loadJob.
    cbn [jobFiles jobProgress masterTable tableSaves modelCalls updateJobProgress saveJob
         jobId job0 progress totalReferences extractedReferences createdAt].
    rewrite !loadFrom_head.
    split; [reflexivity |]. split; [reflexivity |].
    destruct T as [[M T] | (buffer & pages & refs & Hb & Hp & E & N & A & Sv & T)].
    + left. rewrite M, T. unfold w2.
      cbn [masterTable tableSaves updateJobProgress saveJob]. split; reflexivity.
    + right. exists buffer, pages, refs.
      split; [exact Hb |]. split; [exact Hp |]. split; [exact E |]. split; [exact N |].
      split; [exact A |]. split; [exact Sv | exact T].
  - eexists. split; [reflexivity |]. right.
    exists buffer, pages, refs, stats.
    split; [exact Hb |]. split; [exact Hp |]. split; [exact E |]. split; [exact N |].
    split; [exact A |]. split; [exact T |]. split; [| exact G].
    unfold getResult, loadJob. rewrite F.
    unfold w2. cbn [jobFiles updateJobProgress saveJob jobId job0].
    rewrite loadFrom_head. cbn [jobId job0 error createdAt].
    rewrite loadFrom_head. reflexivity.
Qed.

Lemma filter_all {A} (f : A -> bool) (l : list A) :
  Forall (fun x => f x = true) l -> filter f l = l.
Proof. induction 1 as [| x l H _ IH]; simpl; [reflexivity | rewrite H, IH; reflexivity]. Qed.

Lemma filter_none {A} (f : A -> bool) (l : list A) :
  Forall (fun x => f x = false) l -> filter f l = [].
Proof. induction 1 as [| x l H _ IH]; simpl; [reflexivity | rewrite H, IH; reflexivity]. Qed.

Lemma loadFrom_without {A} (id : string) (entries : list (string * A)) :
  loadFrom (JobStorage.without id entries) id = None.
Proof.
  induction entries as [| [k v] entries IH]; simpl; [reflexivity |].
  destruct (String.eqb id k) eqn:E; [exact IH |]. simpl. rewrite E. exact IH.
Qed.

Lemma loadFrom_without_other {A} (id other : string) (entries : list (string * A)) :
  other <> id ->
  loadFrom (JobStorage.without id entries) other = loadFrom entries other.
Proof.
  intros N. induction entries as [| [k v] entries IH]; simpl; [reflexivity |].
  destruct (String.eqb id k) eqn:E.
  - apply String.eqb_eq in E. subst k.
    destruct (String.eqb other id) eqn:O; [apply String.eqb_eq in O; congruence | exact IH].
  - simpl. rewrite IH. reflexivity.
Qed.

End JobFacts.

(** X14.  Every job ends in a terminal state on which the job file, the
    progress entry and the status route agree.  Whatever the request, the
    collaborators and the model do, [startExtraction] returns the job
    identifier, and afterwards the stored job is either completed (progress
    100, no error, at least one extracted reference, step "done") or failed
    (an error message, no extracted reference, step "error"); it is never left
    "processing", and it has a completion time.  The job file of a failed job
    keeps progress 0 while its progress entry says 100. *)
Theorem extraction_job_ends_terminal :
  forall (depth : nat) (env : Orchestrator.Env) (request : Orchestrator.ExtractionRequest)
         (w : Orchestrator.World),
    exists w' job entry,
      Orchestrator.startExtraction (S (S depth)) env request w
      = Some (Js.Normal (Orchestrator.randomUUID env), w') /\
      Orchestrator.getResult w' (Orchestrator.randomUUID env) = Some job /\
      Orchestrator.getProgress w' (Orchestrator.randomUUID env) = Some entry /\
      Orchestrator.p_status entry = Orchestrator.status job /\
      Orchestrator.p_progress entry = 100 /\
      Orchestrator.completedAt job = Some (Orchestrator.now env) /\
      JobStorage.statusRoute w' (Orchestrator.randomUUID env)
      = JobStorage.Sent
          (JobStorage.mkStatusBody (Orchestrator.randomUUID env)
             (Orchestrator.status job) (Orchestrator.progress job)
             (Orchestrator.totalReferences job)
             (List.length (Orchestrator.extractedReferences job))
             (Orchestrator.currentStep entry) (Orchestrator.error job)) /\
      ((Orchestrator.status job = Job.completed /\
        Orchestrator.progress job = 100 /\
        Orchestrator.error job = None /\
        Orchestrator.extractedReferences job <> [] /\
        Orchestrator.currentStep entry = "done")
       \/
       (Orchestrator.status job = Job.failed /\
        Orchestrator.progress job = 0 /\
        Orchestrator.error job <> None /\
        Orchestrator.extractedReferences job = [] /\
        Orchestrator.totalReferences job = 0 /\
        Orchestrator.currentStep entry = "error")).
Proof.
  intros depth env request w.
  destruct (JobFacts.startExtraction_outcomes depth env request w)
    as (w' & S & [(m & R & G & _) | (buffer & pages & refs & stats & _ & _ & _ & N & _ & _ & R & G)]).
  - eexists w', _, _. split; [exact S |]. split; [exact R |]. split; [exact G |].
    unfold JobStorage.statusRoute.
    unfold Orchestrator.getResult in R. rewrite R, G. simpl.
    repeat split. right. repeat split. discriminate.
  - eexists w', _, _. split; [exact S |]. split; [exact R |]. split; [exact G |].
    unfold JobStorage.statusRoute.
    unfold Orchestrator.getResult in R. rewrite R, G. simpl.
    repeat split. left. repeat split. exact N.
Qed.

(** X15.  What a job does to the store.  A completed job saved the master
    table exactly once, the saved collection is the merge of the extracted
    references into the table as it was, and the job's [totalReferences] is
    the size of the whole table (not the number of references extracted).  A
    failed job either left the store as it was, or failed in the save of the
    merge: then the references the extractor returned are already merged into
    the persisted table, the exports threw the job's error message, and the
    job records none of these references. *)
Theorem extraction_job_store_effect :
  forall (depth : nat) (env : Orchestrator.Env) (request : Orchestrator.ExtractionRequest)
         (w : Orchestrator.World),
    exists w' job,
      Orchestrator.startExtraction (S (S depth)) env request w
      = Some (Js.Normal (Orchestrator.randomUUID env), w') /\
      Orchestrator.getResult w' (Orchestrator.randomUUID env) = Some job /\
      match Orchestrator.status job with
      | Job.completed =>
          Orchestrator.tableSaves w'
          = Orchestrator.tableSaves w ++ [Orchestrator.masterTable w'] /\
          Orchestrator.masterTable w'
          = snd (MasterTable.addToMasterTable (Orchestrator.exportTable env)
                   (Orchestrator.extractedReferences job) (Orchestrator.masterTable w)) /\
          MasterTable.saveMasterTable (Orchestrator.exportTable env)
            (Orchestrator.masterTable w') = Js.Normal tt /\
          Orchestrator.totalReferences job = List.length (Orchestrator.masterTable w')
      | _ =>
          Orchestrator.extractedReferences job = [] /\
          ((Orchestrator.tableSaves w' = Orchestrator.tableSaves w /\
            Orchestrator.masterTable w' = Orchestrator.masterTable w)
           \/
           (exists buffer pages refs m,
              Orchestrator.pdfBuffer request = Some buffer /\
              Orchestrator.extractPdfSmart env buffer = Js.Normal pages /\
              LlmBatchExtractor.extractAllReferencesWithLLM (S (S depth))
                (Orchestrator.runtime env) (Orchestrator.fullTextOf pages)
                (Orchestrator.modelCalls w)
              = Some (refs, Orchestrator.modelCalls w') /\
              refs <> [] /\
              Orchestrator.tableSaves w'
              = Orchestrator.tableSaves w ++ [Orchestrator.masterTable w'] /\
              Orchestrator.masterTable w'
              = snd (MasterTable.addToMasterTable (Orchestrator.exportTable env) refs
                       (Orchestrator.masterTable w)) /\
              MasterTable.saveMasterTable (Orchestrator.exportTable env)
                (Orchestrator.masterTable w') = Js.Throw m /\
              Orchestrator.error job = Some m))
      end.
Proof.
  intros depth env request w.
  destruct (JobFacts.startExtraction_outcomes depth env request w)
    as (w' & S & [(m & R & _ & T)
                 | (buffer & pages & refs & stats & _ & _ & _ & _ & A & T & R & _)]).
  - eexists w', _. split; [exact S |]. split; [exact R |].
    cbn [Orchestrator.status Orchestrator.extractedReferences Orchestrator.error].
    split; [reflexivity |].
    destruct T as [[M T] | (buffer & pages & refs & Hb & Hp & E & N & A & Sv & T)].
    + left. split; assumption.
    + right. exists buffer, pages, refs, m.
      split; [exact Hb |]. split; [exact Hp |]. split; [exact E |]. split; [exact N |].
      split; [exact T |]. split; [rewrite A; reflexivity |]. split; [exact Sv | reflexivity].
  - eexists w', _. split; [exact S |]. split; [exact R |].
    cbn [Orchestrator.status Orchestrator.extractedReferences Orchestrator.totalReferences].
    split; [exact T |]. rewrite A. cbn [snd]. split; [reflexivity |].
    destruct (MasterTableFacts.addToMasterTable_normal _ _ _ _ _ A)
      as (sets0 & st & _ & _ & Sv & -> & ->).
    split; [exact Sv | reflexivity].
Qed.

Lemma extraction_job_store_effect_witness :
  exists w' job,
    Orchestrator.startExtraction 2
      (JobNotions.unexportableEnv ExtractionSamples.hillRuntime JobNotions.hillText)
      ExtractionSamples.sampleRequest ExtractionSamples.emptyWorld
    = Some (Js.Normal "job-1", w') /\
    Orchestrator.getResult w' "job-1" = Some job /\
    Orchestrator.status job = Job.failed /\
    Orchestrator.error job
    = Some "Shared Formula master must exist above and or left of clone" /\
    Orchestrator.extractedReferences job = [] /\
    List.length (Orchestrator.masterTable w') = 1 /\
    Orchestrator.tableSaves w' = [Orchestrator.masterTable w'].
Proof.
  destruct (extraction_job_store_effect 0
              (JobNotions.unexportableEnv ExtractionSamples.hillRuntime JobNotions.hillText)
              ExtractionSamples.sampleRequest ExtractionSamples.emptyWorld)
    as (w' & job & S & R & _).
  exists w', job. split; [exact S |]. split; [exact R |].
  vm_compute in S. injection S as <-.
  vm_compute in R. injection R as <-.
  repeat split.
Defined.

(** X16.  A job that fails before the model is reached: without a PDF
    buffer, or when the page-text collaborator throws, the job is failed with
    that very message, no model call is made, and the store is untouched. *)
Theorem extraction_job_fails_before_model :
  forall (depth : nat) (env : Orchestrator.Env) (request : Orchestrator.ExtractionRequest)
         (w : Orchestrator.World) (message : string),
    (Orchestrator.pdfBuffer request = None /\ message = "No PDF buffer provided") \/
    (exists buffer, Orchestrator.pdfBuffer request = Some buffer /\
                    Orchestrator.extractPdfSmart env buffer = Js.Throw message) ->
    exists w',
      Orchestrator.startExtraction depth env request w
      = Some (Js.Normal (Orchestrator.randomUUID env), w') /\
      Orchestrator.getResult w' (Orchestrator.randomUUID env)
      = Some (Orchestrator.mkJob (Orchestrator.randomUUID env) Job.failed 0 0 []
                (Some message) (Orchestrator.now env) (Some (Orchestrator.now env))) /\
      Orchestrator.modelCalls w' = Orchestrator.modelCalls w /\
      Orchestrator.masterTable w' = Orchestrator.masterTable w /\
      Orchestrator.tableSaves w' = Orchestrator.tableSaves w.
Proof.
  intros depth env request w message H.
  unfold Orchestrator.startExtraction, Orchestrator.processExtraction.
  destruct H as [[Hb ->] | (buffer & Hb & Hp)]; rewrite Hb; [| rewrite Hp];
    (eexists; split; [reflexivity |]);
    unfold Orchestrator.getResult, Orchestrator.loadJob;
    repeat first
      [ rewrite OrchestratorFacts.loadFrom_head
      | progress cbn [Orchestrator.jobFiles Orchestrator.jobProgress
                      Orchestrator.updateJobProgress Orchestrator.saveJob
                      Orchestrator.jobId Orchestrator.masterTable Orchestrator.tableSaves
                      Orchestrator.modelCalls Orchestrator.progress
                      Orchestrator.totalReferences Orchestrator.extractedReferences
                      Orchestrator.createdAt] ];
    repeat split.
Qed.

Lemma extraction_job_fails_before_model_witness :
  exists w',
    Orchestrator.startExtraction 2
      (JobNotions.brokenEnv ExtractionSamples.hillRuntime "Invalid PDF structure")
      ExtractionSamples.sampleRequest ExtractionSamples.emptyWorld
    = Some (Js.Normal "job-1", w') /\
    Orchestrator.getResult w' "job-1"
    = Some (Orchestrator.mkJob "job-1" Job.failed 0 0 [] (Some "Invalid PDF structure")
              "2025-01-01T00:00:00.000Z" (Some "2025-01-01T00:00:00.000Z")) /\
    Orchestrator.modelCalls w' = [].
Proof.
  destruct (extraction_job_fails_before_model 2
              (JobNotions.brokenEnv ExtractionSamples.hillRuntime "Invalid PDF structure")
              ExtractionSamples.sampleRequest ExtractionSamples.emptyWorld
              "Invalid PDF structure"
              (or_intror (ex_intro _ "%PDF" (conj eq_refl eq_refl))))
    as (w' & S & R & C & _).
  exists w'. split; [exact S |]. split; [exact R | exact C].
Defined.

(** X17.  The statistics of a finished job: [getJobStats] counts every
    extracted reference as high confidence and none as medium or low, because
    the extractor overwrites the model's self-assessment; its
    [totalReferences] is the number of references the job extracted. *)
Theorem finished_job_statistics :
  forall (depth : nat) (env : Orchestrator.Env) (request : Orchestrator.ExtractionRequest)
         (w : Orchestrator.World),
    exists w' job,
      Orchestrator.startExtraction (S (S depth)) env request w
      = Some (Js.Normal (Orchestrator.randomUUID env), w') /\
      Orchestrator.getResult w' (Orchestrator.randomUUID env) = Some job /\
      JobStorage.getJobStats w' (Orchestrator.randomUUID env)
      = Some (JobStorage.mkJobStats
                (List.length (Orchestrator.extractedReferences job))
                (List.length (Orchestrator.extractedReferences job)) 0 0).
Proof.
  intros depth env request w.
  destruct (JobFacts.startExtraction_outcomes depth env request w)
    as (w' & S & [(m & R & _) | (buffer & pages & refs & stats & _ & _ & E & _ & _ & _ & R & _)]).
  - eexists w', _. split; [exact S |]. split; [exact R |].
    unfold JobStorage.getJobStats. unfold Orchestrator.getResult in R. rewrite R.
    reflexivity.
  - eexists w', _. split; [exact S |]. split; [exact R |].
    unfold JobStorage.getJobStats. unfold Orchestrator.getResult in R. rewrite R.
    cbn [Orchestrator.extractedReferences].
    assert (St : Forall ExtractorNotions.stamped refs).
    { eapply StampFacts.extractAll_Forall; [| exact E].
      intros ref index r. apply StampFacts.toReference_stamped. }
    rewrite (JobFacts.filter_all (JobStorage.confidenceIs "high") refs),
            (JobFacts.filter_none (JobStorage.confidenceIs "medium") refs),
            (JobFacts.filter_none (JobStorage.confidenceIs "low") refs); [reflexivity | | |];
      (eapply Forall_impl; [| exact St]);
      intros r (C & _); unfold JobStorage.confidenceIs; rewrite C; reflexivity.
Qed.

(** X18.  The two [deleteJob] functions are complementary, and neither
    removes a job entirely.  The one of the orchestrator forgets the progress
    entry and keeps the job file, so the result stays loadable and the status
    route still answers, with step "unknown".  The one of the storage removes
    the job file and keeps the progress entry, so the status route answers
    "Job not found" while a poll still finds the job; deleting a job that has
    no file throws. *)
Theorem deleteJob_removes_half :
  forall (w : Orchestrator.World) (id : string),
    (let w' := snd (ProgressTracker.deleteJob id w) in
     Orchestrator.getProgress w' id = None /\
     Orchestrator.getResult w' id = Orchestrator.getResult w id /\
     (forall job, Orchestrator.getResult w id = Some job ->
        exists body, JobStorage.statusRoute w' id = JobStorage.Sent body /\
                     JobStorage.s_currentStep body = "unknown") /\
     (forall other, other <> id ->
        Orchestrator.getProgress w' other = Orchestrator.getProgress w other)) /\
    (match JobStorage.deleteJob id w with
     | (Js.Normal _, w') =>
         Orchestrator.getResult w id <> None /\
         Orchestrator.getResult w' id = None /\
         JobStorage.statusRoute w' id = JobStorage.NotFound "Job not found" /\
         Orchestrator.getProgress w' id = Orchestrator.getProgress w id /\
         (forall other, other <> id ->
            Orchestrator.getResult w' other = Orchestrator.getResult w other)
     | (Js.Throw _, w') => Orchestrator.getResult w id = None /\ w' = w
     end).
Proof.
  intros w id. split.
  - cbv zeta. unfold ProgressTracker.deleteJob, Orchestrator.getProgress,
      Orchestrator.getResult, Orchestrator.loadJob, JobStorage.statusRoute,
      Orchestrator.getProgress, Orchestrator.loadJob.
    cbn [snd Orchestrator.jobProgress Orchestrator.jobFiles].
    rewrite JobFacts.loadFrom_without.
    split; [reflexivity |]. split; [reflexivity |]. split.
    + intros job ->. eexists. split; reflexivity.
    + intros other N. apply JobFacts.loadFrom_without_other. exact N.
  - unfold JobStorage.deleteJob, Orchestrator.getResult, JobStorage.statusRoute.
    destruct (Orchestrator.loadJob w id) as [job |] eqn:L.
    + unfold Orchestrator.loadJob, Orchestrator.getProgress.
      cbn [Orchestrator.jobProgress Orchestrator.jobFiles].
      rewrite JobFacts.loadFrom_without.
      split; [discriminate |].
      split; [reflexivity |]. split; [reflexivity |]. split; [reflexivity |].
      intros other N. apply JobFacts.loadFrom_without_other. exact N.
    + split; reflexivity.
Qed.

(** ** Enhancement runs: resolver calls, counters and untouched records *)

Module EnhancementRunFacts.
Import JsString Js Types AffiliationFinder Enhancement EnhancementSpec EnhancementNotions
       EnhancementFacts.

Lemma nth_same (l l' : list ExtractedReference) :
  Forall2 sameButAffiliation l l' ->
  forall t, sameButAffiliation (nth t l placeholder) (nth t l' placeholder).
Proof.
  induction 1 as [| r r' l l' S _ IH]; intros t; destruct t; simpl;
    try apply sameButAffiliation_refl; [exact S | apply IH].
Qed.

Lemma lookupAt_same (l l' : list ExtractedReference) (t : nat) :
  Forall2 sameButAffiliation l l' -> lookupAt l' t = lookupAt l t.
Proof.
  intros F. pose proof (nth_same l l' F t) as S.
  unfold lookupAt, lookupOf, sameButAffiliation in *.
  destruct S as (_ & A & _ & T & Y & _). rewrite A, T, Y. reflexivity.
Qed.

Lemma enhanceOne_calls {W} (env : Env W) (n i target : nat) (st : LoopState W) :
  match enhanceOne env n i target st with
  | (Normal _, st') => calls st' = calls st ++ [lookupAt (references st) target]
  | (Throw _, st') => st' = st
  end.
Proof.
  unfold enhanceOne.
  destruct (progressLabel _); [| reflexivity].
  destruct (findAffiliation env _ _ _ _) as [result w'].
  destruct (match affiliation result with Some _ => _ | None => _ end) as [refs' e'].
  reflexivity.
Qed.

(** The resolver calls of the loop: one per target met, in order, with the
    fields the records had when the collection was loaded. *)
Lemma enhanceLoop_calls {W} (env : Env W) (n : nat) (table0 : list ExtractedReference)
    (targets : list nat) :
  forall (i : nat) (st : LoopState W),
    Forall2 sameButAffiliation table0 (references st) ->
    exists met rest,
      targets = met ++ rest /\
      calls (snd (enhanceLoop env n i targets st))
      = calls st ++ map (lookupAt table0) met /\
      (forall u, fst (enhanceLoop env n i targets st) = Normal u -> rest = []).
Proof.
  induction targets as [| t targets IH]; intros i st F; simpl.
  - exists [], []. simpl. rewrite app_nil_r.
    split; [reflexivity |]. split; [reflexivity | intros; reflexivity].
  - pose proof (enhanceOne_calls env n i t st) as C.
    pose proof (enhanceOne_frame env n i t st) as F1.
    destruct (enhanceOne env n i t st) as [[u | m] st']; simpl in *.
    + destruct (IH (S i) st' (Forall2_same_trans _ _ _ F F1)) as (met & rest & -> & E & N).
      exists (t :: met), rest. split; [reflexivity |]. split; [| exact N].
      rewrite E, C, <- app_assoc. simpl.
      rewrite (lookupAt_same table0 (references st) t F). reflexivity.
    + subst st'. exists [], (t :: targets). simpl. rewrite app_nil_r.
      split; [reflexivity |]. split; [reflexivity |]. intros u H. discriminate.
Qed.

Lemma needs_lookups (pre l : list ExtractedReference) :
  map (lookupAt (pre ++ l)) (needsEnhancementFrom (List.length pre) l)
  = map lookupOf (filter needs l).
Proof.
  revert pre. induction l as [| r l IH]; intros pre; simpl; [reflexivity |].
  assert (E : pre ++ r :: l = (pre ++ [r]) ++ l) by (rewrite <- app_assoc; reflexivity).
  assert (L : S (List.length pre) = List.length (pre ++ [r]))
    by (rewrite length_app; simpl; lia).
  destruct (needs r); simpl.
  - f_equal.
    + unfold lookupAt. rewrite app_nth2 by lia. rewrite Nat.sub_diag. reflexivity.
    + rewrite E, L. apply IH.
  - rewrite E, L. apply IH.
Qed.

Lemma needs_count (i : nat) (l : list ExtractedReference) :
  List.length (needsEnhancementFrom i l) = List.length (filter needs l).
Proof.
  revert i. induction l as [| r l IH]; intros i; simpl; [reflexivity |].
  destruct (needs r); simpl; rewrite IH; reflexivity.
Qed.

(** The counters. *)
Lemma enhanceOne_counted {W} (env : Env W) (n i target totalLoaded : nat)
    (st : LoopState W) :
  counted totalLoaded i st ->
  match enhanceOne env n i target st with
  | (Normal _, st') => counted totalLoaded (S i) st'
  | (Throw _, st') => st' = st
  end.
Proof.
  intros (P & C & E & L & T & St & R). unfold enhanceOne.
  destruct (progressLabel _); [| reflexivity].
  destruct (findAffiliation env _ _ _ _) as [result w'].
  assert (G : forall refs' e', e' <= S i ->
              counted totalLoaded (S i)
                (mkLoop refs' e'
                   (setProgress (job st) (S i) e' (percent env (S i) n))
                   (calls st ++ [(firstAuthor (nth target (references st) placeholder),
                                  title (nth target (references st) placeholder),
                                  year (nth target (references st) placeholder))]) w')).
  { intros refs' e' Le. unfold counted. simpl. rewrite length_app. simpl.
    repeat split; try assumption; lia. }
  destruct (affiliation result) as [found |]; [| apply G; lia].
  destruct (nonEmpty found); [| apply G; lia].
  destruct (findIndexFrom _ _ _ _); apply G; lia.
Qed.

Lemma enhanceLoop_counted {W} (env : Env W) (n totalLoaded : nat) (targets : list nat) :
  forall (i : nat) (st : LoopState W),
    counted totalLoaded i st ->
    exists k,
      counted totalLoaded (i + k) (snd (enhanceLoop env n i targets st)) /\
      k <= List.length targets /\
      (forall u, fst (enhanceLoop env n i targets st) = Normal u ->
                 k = List.length targets).
Proof.
  induction targets as [| t targets IH]; intros i st C; simpl.
  - exists 0. rewrite Nat.add_0_r.
    split; [exact C |]. split; [lia | intros; reflexivity].
  - pose proof (enhanceOne_counted env n i t totalLoaded st C) as C1.
    destruct (enhanceOne env n i t st) as [[u | m] st']; simpl in *.
    + destruct (IH (S i) st' C1) as (k & Ck & Le & N).
      exists (S k). rewrite <- plus_n_Sm. split; [exact Ck |]. split; [lia |].
      intros u' H. rewrite (N u' H). reflexivity.
    + subst st'. exists 0. rewrite Nat.add_0_r. split; [exact C |]. split; [lia |].
      intros u H. discriminate.
Qed.

(** Records without a citation key. *)
Lemma findIndexFrom_keyed (ref : ExtractedReference) (target : nat)
    (l : list ExtractedReference) :
  forall i k,
    findIndexFrom i target ref l = Some k ->
    i <= k /\ exists r, nth_error l (k - i) = Some r /\ truthy (citationKey r) = true.
Proof.
  induction l as [| r l IH]; intros i k H; simpl in H; [discriminate |].
  destruct (truthy (citationKey r) && truthy (citationKey ref)
            && strictEquals (i =? target)%nat (citationKey r) (citationKey ref)) eqn:E.
  - injection H as <-. split; [lia |]. rewrite Nat.sub_diag. exists r.
    split; [reflexivity |].
    apply andb_true_iff in E. destruct E as [E _].
    apply andb_true_iff in E. destruct E as [E _]. exact E.
  - destruct (IH (S i) k H) as (Le & x & Hx & Tx). split; [lia |].
    exists x. split; [| exact Tx].
    replace (k - i) with (S (k - S i)) by lia. exact Hx.
Qed.

Lemma assignAffiliation_elsewhere (a : JsValue) (l : list ExtractedReference) :
  forall k j, j <> k -> nth_error (assignAffiliation k a l) j = nth_error l j.
Proof.
  induction l as [| r l IH]; intros k j N; destruct k; simpl; try reflexivity.
  - destruct j; [congruence | reflexivity].
  - destruct j; [reflexivity |]. simpl. apply IH. congruence.
Qed.

Lemma enhanceOne_keyless {W} (env : Env W) (n i target : nat) (st : LoopState W)
    (j : nat) (r : ExtractedReference) :
  nth_error (references st) j = Some r ->
  truthy (citationKey r) = false ->
  nth_error (references (snd (enhanceOne env n i target st))) j = Some r.
Proof.
  intros H K. unfold enhanceOne.
  destruct (progressLabel _); [| exact H].
  destruct (findAffiliation env _ _ _ _) as [result w'].
  destruct (affiliation result) as [found |]; [| exact H].
  destruct (nonEmpty found); [| exact H].
  destruct (findIndexFrom 0 target _ (references st)) as [k |] eqn:F; [| exact H].
  simpl. rewrite assignAffiliation_elsewhere; [exact H |].
  intros ->. destruct (findIndexFrom_keyed _ _ _ _ _ F) as (_ & x & Hx & Tx).
  rewrite Nat.sub_0_r in Hx. congruence.
Qed.

Lemma enhanceLoop_keyless {W} (env : Env W) (n : nat) (targets : list nat)
    (j : nat) (r : ExtractedReference) :
  truthy (citationKey r) = false ->
  forall (i : nat) (st : LoopState W),
    nth_error (references st) j = Some r ->
    nth_error (references (snd (enhanceLoop env n i targets st))) j = Some r.
Proof.
  intros K. induction targets as [| t targets IH]; intros i st H; simpl; [exact H |].
  pose proof (enhanceOne_keyless env n i t st j r H K) as H1.
  destruct (enhanceOne env n i t st) as [[u | m] st']; simpl in *; [apply IH |]; exact H1.
Qed.

End EnhancementRunFacts.

(** X19.  The resolver calls of an enhancement run.  The resolver is
    called for the records that had a first author and no affiliation when
    the store was loaded, in the order of the store, at most once each, with
    the first author, title and year they had then; a job that completes has
    called it for every one of them. *)
Theorem enhancement_resolver_calls :
  forall (W : Type) (env : Enhancement.Env W) (id : string)
         (table0 : MasterTable.Collection) (w0 : W),
    let run := snd (Enhancement.startEnhancement env id table0 w0) in
    exists rest,
      map EnhancementNotions.lookupOf (filter Enhancement.needs table0)
      = Enhancement.resolverCalls run ++ rest /\
      (Enhancement.status (Enhancement.finalJob run) = Job.completed -> rest = []).
Proof.
  intros W env id table0 w0. cbv zeta.
  unfold Enhancement.startEnhancement, Enhancement.processEnhancement.
  destruct table0 as [| r0 l0].
  { simpl. exists []. split; [reflexivity | reflexivity]. }
  cbv beta iota zeta. set (refs := r0 :: l0).
  pose proof (EnhancementRunFacts.needs_lookups [] refs) as NL. simpl app in NL.
  change (List.length (@nil Types.ExtractedReference)) with 0 in NL.
  fold (Enhancement.needsEnhancement refs) in NL.
  destruct (Enhancement.needsEnhancement refs) as [| t ts] eqn:N.
  { rewrite <- NL. exists []. split; reflexivity. }
  cbv iota.
  destruct (EnhancementRunFacts.enhanceLoop_calls env (List.length (t :: ts)) refs (t :: ts) 0
              (Enhancement.mkLoop refs 0
                 (Enhancement.setTotal (Enhancement.newJob id (Enhancement.now env w0))
                                       (List.length refs)) [] w0)
              (EnhancementFacts.Forall2_same_refl refs))
    as (met & rest & Ts & C & Nn).
  destruct (Enhancement.enhanceLoop env (List.length (t :: ts)) 0 (t :: ts) _)
    as [[u | m] st]; cbn [snd fst Enhancement.calls] in *.
  - rewrite (Nn u eq_refl), app_nil_r in Ts. subst met.
    exists []. rewrite app_nil_r.
    destruct (MasterTable.saveMasterTable (Enhancement.exportTable env)
                (Enhancement.references st));
      cbn [Enhancement.completion Enhancement.resolverCalls snd Enhancement.finalJob];
      (split; [rewrite C, NL; reflexivity | reflexivity]).
  - cbn [Enhancement.completion Enhancement.resolverCalls snd Enhancement.finalJob
         Enhancement.markFailed Enhancement.status].
    exists (map (EnhancementNotions.lookupAt refs) rest).
    split; [| discriminate].
    rewrite C. cbn [app]. rewrite <- map_app, <- Ts. symmetry. exact NL.
Qed.

(** X20.  The counters of an enhancement job after its run:
    [totalReferences] is the size of the store, [processedReferences] the
    number of resolver calls made, [enhancedReferences] at most that, and
    [processedReferences] at most the number of records that needed an
    affiliation.  The job is completed or failed, with a completion time; a
    completed job has progress 100 and no error and processed every record
    that needed an affiliation; a failed job has an error message. *)
Theorem enhancement_job_counters :
  forall (W : Type) (env : Enhancement.Env W) (id : string)
         (table0 : MasterTable.Collection) (w0 : W),
    let run := snd (Enhancement.startEnhancement env id table0 w0) in
    let job := Enhancement.finalJob run in
    Enhancement.totalReferences job = List.length table0 /\
    Enhancement.processedReferences job = List.length (Enhancement.resolverCalls run) /\
    Enhancement.enhancedReferences job <= Enhancement.processedReferences job /\
    Enhancement.processedReferences job
    <= List.length (filter Enhancement.needs table0) /\
    Enhancement.completedAt job <> None /\
    ((Enhancement.status job = Job.completed /\
      Enhancement.progress job = 100 /\
      Enhancement.error job = None /\
      Enhancement.processedReferences job
      = List.length (filter Enhancement.needs table0))
     \/
     (Enhancement.status job = Job.failed /\ Enhancement.error job <> None)).
Proof.
  intros W env id table0 w0. cbv zeta.
  unfold Enhancement.startEnhancement, Enhancement.processEnhancement.
  destruct table0 as [| r0 l0].
  { simpl. repeat split; try lia; try discriminate. right. split; [reflexivity | discriminate]. }
  cbv beta iota zeta. set (refs := r0 :: l0).
  pose proof (EnhancementRunFacts.needs_count 0 refs) as NC.
  fold (Enhancement.needsEnhancement refs) in NC.
  destruct (Enhancement.needsEnhancement refs) as [| t ts] eqn:N.
  { rewrite <- NC. simpl.
    repeat split; try lia; try discriminate. left. repeat split. }
  cbv iota.
  assert (C0 : EnhancementNotions.counted (List.length refs) 0
                 (Enhancement.mkLoop refs 0
                    (Enhancement.setTotal (Enhancement.newJob id (Enhancement.now env w0))
                                          (List.length refs)) [] w0)).
  { unfold EnhancementNotions.counted. simpl. repeat split; lia. }
  destruct (EnhancementRunFacts.enhanceLoop_counted env (List.length (t :: ts))
              (List.length refs) (t :: ts) 0 _ C0) as (k & Ck & Le & Nn).
  rewrite <- NC.
  destruct (Enhancement.enhanceLoop env (List.length (t :: ts)) 0 (t :: ts) _)
    as [[u | m] st]; cbn [snd fst] in *;
    destruct Ck as (P & Cl & E & L & T & St & R); simpl in P, Cl, L.
  - specialize (Nn u eq_refl). subst k. subst refs.
    destruct (MasterTable.saveMasterTable (Enhancement.exportTable env)
                (Enhancement.references st)); simpl in *.
    + repeat split; try lia; try discriminate. left. repeat split; [exact R | lia].
    + repeat split; try lia; try discriminate.
      right. split; [reflexivity | discriminate].
  - subst refs. simpl in *. repeat split; try lia; try discriminate.
    right. split; [reflexivity | discriminate].
Qed.

(** X21.  A record without a citation key is never enhanced: an
    enhancement run leaves every stored record whose citation key is absent or
    empty exactly as it was, whatever the resolver finds for it, so such a
    record with a first author stays in need of an affiliation after every
    run. *)
Theorem enhancement_skips_keyless_records :
  forall (W : Type) (env : Enhancement.Env W) (id : string)
         (table0 : MasterTable.Collection) (w0 : W)
         (index : nat) (r : Types.ExtractedReference),
    nth_error table0 index = Some r ->
    Js.truthy (Types.citationKey r) = false ->
    nth_error (Enhancement.table (snd (Enhancement.startEnhancement env id table0 w0)))
              index
    = Some r.
Proof.
  intros W env id table0 w0 index r H K.
  destruct (EnhancementFacts.startEnhancement_run env id table0 w0) as (T & _).
  simpl in T. rewrite T. unfold Enhancement.processEnhancement.
  destruct table0 as [| r0 l0]; [exact H |].
  cbv beta iota zeta. set (refs := r0 :: l0) in *.
  destruct (Enhancement.needsEnhancement refs) as [| t ts]; [exact H |].
  cbv iota.
  pose proof (EnhancementRunFacts.enhanceLoop_keyless env (List.length (t :: ts)) (t :: ts)
                index r K 0
                (Enhancement.mkLoop refs 0
                   (Enhancement.setTotal (Enhancement.newJob id (Enhancement.now env w0))
                                         (List.length refs)) [] w0) H) as L.
  destruct (Enhancement.enhanceLoop env (List.length (t :: ts)) 0 (t :: ts) _)
    as [[u | m] st]; cbn [snd Enhancement.table] in *; [| exact H].
  destruct (MasterTable.saveMasterTable (Enhancement.exportTable env)
              (Enhancement.references st)); exact L.
Qed.

Lemma enhancement_skips_keyless_records_witness :
  let run := snd (Enhancement.startEnhancement EnhancementSpec.mitEnv "job-1"
                    [EnhancementNotions.keylessReference] tt) in
  Enhancement.needs EnhancementNotions.keylessReference = true /\
  List.length (Enhancement.resolverCalls run) = 1 /\
  Enhancement.status (Enhancement.finalJob run) = Job.completed /\
  nth_error (Enhancement.table run) 0 = Some EnhancementNotions.keylessReference.
Proof.
  cbv zeta. split; [reflexivity |]. split; [reflexivity |]. split; [reflexivity |].
  apply (enhancement_skips_keyless_records unit EnhancementSpec.mitEnv "job-1"
           [EnhancementNotions.keylessReference] tt 0 EnhancementNotions.keylessReference);
    reflexivity.
Defined.

(** ** The affiliation resolver: results, requests and name matching *)

Module ResolverRunFacts.
Import JsString AffiliationFinder ResolverNotions StringFacts.

Lemma truthyResult_some (r : option string) :
  truthyResult r = true -> exists a, r = Some a /\ a <> EmptyString.
Proof.
  destruct r as [a |]; simpl; [| discriminate].
  intros H. exists a. split; [reflexivity |]. apply nonEmpty_true_iff. exact H.
Qed.

Lemma authorDetails_log (net : Network) (authorId : option string) (log : NetLog) :
  exists details,
    snd (getSemanticScholarAuthorAffiliation net authorId log) = log ++ details /\
    Forall isAuthorFetch details.
Proof.
  unfold getSemanticScholarAuthorAffiliation.
  destruct authorId as [id |]; [| exists []; rewrite app_nil_r; split; [reflexivity | constructor]].
  destruct (nonEmpty id); [| exists []; rewrite app_nil_r; split; [reflexivity | constructor]].
  exists [Fetch (SemanticScholarAuthor id)].
  split; [| constructor; [exists id; reflexivity | constructor]].
  destruct (authorDetails net log id) as [| st | | [[| first others] |]]; reflexivity.
Qed.

Lemma scanAuthors_log (net : Network) (authorName : string) (authors : list S2Author) :
  forall log,
    exists details,
      snd (scanAuthors net authorName authors log) = log ++ details /\
      Forall isAuthorFetch details.
Proof.
  induction authors as [| author rest IH]; intros log; simpl.
  - exists []. rewrite app_nil_r. split; [reflexivity | constructor].
  - destruct (authorsMatch authorName (orEmpty (s2_name author))); [| apply IH].
    destruct (authorDetails_log net (s2_authorId author) log) as (d1 & E1 & F1).
    destruct (getSemanticScholarAuthorAffiliation net (s2_authorId author) log)
      as [[a |] log1]; simpl in E1; subst log1.
    + destruct (nonEmpty a); [exists d1; split; [reflexivity | exact F1] |].
      destruct (IH (log ++ d1)) as (d2 & E2 & F2).
      exists (d1 ++ d2). rewrite E2, app_assoc.
      split; [reflexivity | apply Forall_app; split; assumption].
    + destruct (IH (log ++ d1)) as (d2 & E2 & F2).
      exists (d1 ++ d2). rewrite E2, app_assoc.
      split; [reflexivity | apply Forall_app; split; assumption].
Qed.

Lemma scanPapers_log (net : Network) (authorName year : string) (papers : list S2Paper) :
  forall log,
    exists details,
      snd (scanPapers net authorName year papers log) = log ++ details /\
      Forall isAuthorFetch details.
Proof.
  induction papers as [| paper rest IH]; intros log; simpl.
  - exists []. rewrite app_nil_r. split; [reflexivity | constructor].
  - destruct (yearMismatch year (s2_year paper)); [apply IH |].
    destruct (s2_authors paper) as [authors |]; [| apply IH].
    destruct (scanAuthors_log net authorName authors log) as (d1 & E1 & F1).
    destruct (scanAuthors net authorName authors log) as [[a |] log1];
      simpl in E1; subst log1.
    + exists d1. split; [reflexivity | exact F1].
    + destruct (IH (log ++ d1)) as (d2 & E2 & F2).
      exists (d1 ++ d2). rewrite E2, app_assoc.
      split; [reflexivity | apply Forall_app; split; assumption].
Qed.

Lemma searchSemanticScholar_log (net : Network) (authorName title year : string)
    (log : NetLog) :
  exists details,
    snd (searchSemanticScholar net authorName title year log)
    = log ++ Delay 1000 :: Fetch (SemanticScholarSearch (substring 0 200 (cleanText title)))
          :: details /\
    Forall isAuthorFetch details.
Proof.
  unfold searchSemanticScholar. cbv zeta.
  assert (E : forall d,
             ((log ++ [Delay 1000])
                ++ [Fetch (SemanticScholarSearch (substring 0 200 (cleanText title)))]) ++ d
             = log ++ Delay 1000
                   :: Fetch (SemanticScholarSearch (substring 0 200 (cleanText title))) :: d).
  { intros d. rewrite <- !app_assoc. reflexivity. }
  destruct (paperSearch net (log ++ [Delay 1000]) (substring 0 200 (cleanText title)))
    as [| st | | [papers |]];
    try (exists []; rewrite <- E, app_nil_r; split; [reflexivity | constructor]).
  destruct (scanPapers_log net authorName year papers
              ((log ++ [Delay 1000])
                 ++ [Fetch (SemanticScholarSearch (substring 0 200 (cleanText title)))]))
    as (d & Ed & Fd).
  exists d. rewrite Ed, E. split; [reflexivity | exact Fd].
Qed.

Lemma searchOpenAlex_log (net : Network) (authorName title year : string) (log : NetLog) :
  snd (searchOpenAlex net authorName title year log)
  = log ++ [Fetch (OpenAlexWorks (cleanText title)
                                 (if nonEmpty year then Some year else None))].
Proof.
  unfold searchOpenAlex. cbv zeta.
  destruct (worksSearch net log (cleanText title) _) as [| st | | [[| work others] |]];
    reflexivity.
Qed.

(** The year check on integers that are doubles themselves. *)
Lemma toDouble_safe (z : Z) : (Z.abs z <= 2 ^ 53)%Z -> toDouble z = Finite z.
Proof.
  intros H. unfold toDouble. cbv zeta.
  apply Z.leb_le in H. rewrite H. reflexivity.
Qed.

Lemma exceedsOne_toDouble (d : Z) : exceedsOne (toDouble d) = (1 <? Z.abs d)%Z.
Proof.
  unfold toDouble. cbv zeta.
  destruct (Z.abs d <=? 2 ^ 53)%Z eqn:Small; [reflexivity |].
  apply Z.leb_gt in Small.
  pose proof (Z.pow_le_mono_r 2 1 53 ltac:(lia) ltac:(lia)) as P53.
  rewrite Z.pow_1_r in P53.
  assert (A : (1 <? Z.abs d)%Z = true) by (apply Z.ltb_lt; lia).
  rewrite A.
  assert (L : (53 <= Z.log2 (Z.abs d))%Z).
  { apply Z.log2_le_pow2; lia. }
  assert (E : (2 <= 2 ^ (Z.log2 (Z.abs d) - 52))%Z).
  { pose proof (Z.pow_le_mono_r 2 1 (Z.log2 (Z.abs d) - 52) ltac:(lia) ltac:(lia)) as P.
    rewrite Z.pow_1_r in P. exact P. }
  assert (Q : (1 <= Z.abs d / 2 ^ (Z.log2 (Z.abs d) - 52))%Z).
  { apply Z.div_le_lower_bound; [lia |]. rewrite Z.mul_1_r.
    transitivity (2 ^ Z.log2 (Z.abs d))%Z.
    - apply Z.pow_le_mono_r; lia.
    - apply Z.log2_spec. lia. }
  match goal with
  | |- context [Z.mul (if ?c then ?x else ?y) _] =>
      assert (Q' : (1 <= (if c then x else y))%Z) by (destruct c; lia);
      generalize dependent (if c then x else y)
  end.
  intros q' Q'.
  destruct (2 ^ 1024 <=? q' * 2 ^ (Z.log2 (Z.abs d) - 52))%Z;
    [destruct (d <? 0)%Z; reflexivity |].
  unfold exceedsOne. apply Z.ltb_lt.
  destruct (d <? 0)%Z; [rewrite Z.abs_opp |]; nia.
Qed.

Lemma yearMismatch_safe (year : string) (y p : Z) :
  year <> EmptyString ->
  parseInt year = Some y ->
  p <> 0%Z ->
  (Z.abs y <= 2 ^ 53)%Z ->
  (Z.abs p <= 2 ^ 53)%Z ->
  yearMismatch year (Some p) = (1 <? Z.abs (y - p))%Z.
Proof.
  intros N P NZ Y Pp. unfold yearMismatch.
  apply nonEmpty_true_iff in N. rewrite N, P.
  unfold truthyNumber, asDouble.
  destruct (Z.eqb_spec p 0) as [-> | _]; [congruence |].
  rewrite (toDouble_safe y Y), (toDouble_safe p Pp).
  cbn [andb negb subtract]. apply exceedsOne_toDouble.
Qed.

(** What tier 1 returns comes from a listed author whose name matches. *)
Lemma scanAuthors_found (net : Network) (authorName : string) (authors : list S2Author)
    (found : string) :
  forall log,
    fst (scanAuthors net authorName authors log) = Some found ->
    exists author id logAt others,
      In author authors /\
      authorsMatch authorName (orEmpty (s2_name author)) = true /\
      s2_authorId author = Some id /\
      authorDetails net logAt id = Body (Some (found :: others)) /\
      found <> EmptyString.
Proof.
  induction authors as [| author rest IH]; intros log H; simpl in H; [discriminate |].
  assert (Later : forall log1,
             fst (scanAuthors net authorName rest log1) = Some found ->
             exists author0 id logAt others,
               In author0 (author :: rest) /\
               authorsMatch authorName (orEmpty (s2_name author0)) = true /\
               s2_authorId author0 = Some id /\
               authorDetails net logAt id = Body (Some (found :: others)) /\
               found <> EmptyString).
  { intros log1 H1. destruct (IH log1 H1) as (x & id & la & others & Hin & R).
    exists x, id, la, others. split; [right; exact Hin | exact R]. }
  destruct (authorsMatch authorName (orEmpty (s2_name author))) eqn:M;
    [| apply (Later log); exact H].
  unfold getSemanticScholarAuthorAffiliation in H.
  destruct (s2_authorId author) as [id |] eqn:I; [| apply (Later log); exact H].
  destruct (nonEmpty id); [| apply (Later log); exact H].
  destruct (authorDetails net log id) as [| st | | [[| first others] |]] eqn:D;
    cbv beta iota in H;
    try (apply (Later (log ++ [Fetch (SemanticScholarAuthor id)])); exact H).
  destruct (nonEmpty first) eqn:N;
    [| apply (Later (log ++ [Fetch (SemanticScholarAuthor id)])); exact H].
  simpl in H. injection H as <-.
  exists author, id, log, others.
  split; [left; reflexivity |]. split; [exact M |]. split; [exact I |].
  split; [exact D |]. apply nonEmpty_true_iff. exact N.
Qed.

Lemma scanPapers_found (net : Network) (authorName year : string) (papers : list S2Paper)
    (found : string) :
  forall log,
    fst (scanPapers net authorName year papers log) = Some found ->
    exists paper authors author id logAt others,
      In paper papers /\
      yearMismatch year (s2_year paper) = false /\
      s2_authors paper = Some authors /\
      In author authors /\
      authorsMatch authorName (orEmpty (s2_name author)) = true /\
      s2_authorId author = Some id /\
      authorDetails net logAt id = Body (Some (found :: others)) /\
      found <> EmptyString.
Proof.
  induction papers as [| paper rest IH]; intros log H; simpl in H; [discriminate |].
  assert (Later : forall log1,
             fst (scanPapers net authorName year rest log1) = Some found ->
             exists paper0 authors author id logAt others,
               In paper0 (paper :: rest) /\
               yearMismatch year (s2_year paper0) = false /\
               s2_authors paper0 = Some authors /\
               In author authors /\
               authorsMatch authorName (orEmpty (s2_name author)) = true /\
               s2_authorId author = Some id /\
               authorDetails net logAt id = Body (Some (found :: others)) /\
               found <> EmptyString).
  { intros log1 H1.
    destruct (IH log1 H1) as (p & aus & au & id & la & others & Hin & R).
    exists p, aus, au, id, la, others. split; [right; exact Hin | exact R]. }
  destruct (yearMismatch year (s2_year paper)) eqn:Y; [apply (Later log); exact H |].
  destruct (s2_authors paper) as [authors |] eqn:A; [| apply (Later log); exact H].
  destruct (scanAuthors net authorName authors log) as [[a |] log1] eqn:S.
  - simpl in H. injection H as ->.
    assert (S' : fst (scanAuthors net authorName authors log) = Some found)
      by (rewrite S; reflexivity).
    destruct (scanAuthors_found _ _ _ _ _ S') as (au & id & la & others & R).
    exists paper, authors, au, id, la, others.
    split; [left; reflexivity |]. split; [exact Y |]. split; [exact A | exact R].
  - apply (Later log1). exact H.
Qed.

(** Name matching. *)
Lemma includes_nothing (s : string) : includes s EmptyString = true.
Proof. destruct s; reflexivity. Qed.

End ResolverRunFacts.

(** X22.  The shape of every result of [findAffiliation].  An
    affiliation that is returned is a non-empty string, with source
    "semantic-scholar" and confidence high, or source "perplexity" and
    confidence high (only when the API key is configured), or source
    "openalex" and confidence medium.  When none is returned the confidence
    is low and the source is "openalex" or "skipped-historical".  The declared
    sources "none" and "error" are never returned. *)
Theorem findAffiliation_result_shape :
  forall (cfg : AffiliationFinder.Config) (net : AffiliationFinder.Network)
         (authorName paperTitle year : string) (log : AffiliationFinder.NetLog),
    let result := fst (AffiliationFinder.findAffiliation cfg net authorName paperTitle
                                                         year log) in
    match AffiliationFinder.affiliation result with
    | Some found =>
        found <> EmptyString /\
        ((AffiliationFinder.source result = AffiliationFinder.SemanticScholar /\
          AffiliationFinder.confidence result = AffiliationFinder.high) \/
         (AffiliationFinder.source result = AffiliationFinder.Perplexity /\
          AffiliationFinder.confidence result = AffiliationFinder.high /\
          AffiliationFinder.PERPLEXITY_API_KEY cfg <> EmptyString) \/
         (AffiliationFinder.source result = AffiliationFinder.OpenAlex /\
          AffiliationFinder.confidence result = AffiliationFinder.medium))
    | None =>
        AffiliationFinder.confidence result = AffiliationFinder.low /\
        (AffiliationFinder.source result = AffiliationFinder.OpenAlex \/
         AffiliationFinder.source result = AffiliationFinder.SkippedHistorical)
    end.
Proof.
  intros cfg net a t y log. cbv zeta. unfold AffiliationFinder.findAffiliation.
  destruct (negb (JsString.nonEmpty a) || negb (JsString.nonEmpty t)); [simpl; auto |].
  destruct (AffiliationFinder.truthyNumber (AffiliationFinder.parseInt y) && _);
    [simpl; auto |].
  destruct (AffiliationFinder.searchSemanticScholar net a t y log) as [r1 log1].
  destruct (AffiliationFinder.truthyResult r1) eqn:T1.
  { destruct (ResolverRunFacts.truthyResult_some _ T1) as (f & -> & N). simpl. auto. }
  destruct (JsString.nonEmpty (AffiliationFinder.PERPLEXITY_API_KEY cfg)) eqn:K.
  - destruct (AffiliationFinder.searchPerplexity cfg net a t y log1) as [r2 log2].
    destruct (AffiliationFinder.truthyResult r2) eqn:T2.
    { destruct (ResolverRunFacts.truthyResult_some _ T2) as (f & -> & N). simpl.
      split; [exact N |]. right. left. repeat split.
      apply StringFacts.nonEmpty_true_iff. exact K. }
    destruct (AffiliationFinder.searchOpenAlex net a t y log2) as [r3 log3].
    destruct (AffiliationFinder.truthyResult r3) eqn:T3; [| simpl; auto].
    destruct (ResolverRunFacts.truthyResult_some _ T3) as (f & -> & N). simpl. auto.
  - simpl.
    destruct (AffiliationFinder.searchOpenAlex net a t y log1) as [r3 log3].
    destruct (AffiliationFinder.truthyResult r3) eqn:T3; [| simpl; auto].
    destruct (ResolverRunFacts.truthyResult_some _ T3) as (f & -> & N). simpl. auto.
Qed.

(** X23.  The requests of one lookup, in order.  Either nothing is
    requested (an empty author name or title, or a historical year), or the
    lookup waits one second, sends one paper search to Semantic Scholar for
    the cleaned title cut at 200 characters, then author-detail requests
    only, and then depending on the tier that answered: nothing more when
    tier 1 answered; one Perplexity request when tier 2 answered; otherwise
    one Perplexity request, only if the API key is configured, followed by
    one OpenAlex request.  No tier is asked twice and no later tier is asked
    once a tier answered. *)
Theorem findAffiliation_requests :
  forall (cfg : AffiliationFinder.Config) (net : AffiliationFinder.Network)
         (authorName paperTitle year : string) (log : AffiliationFinder.NetLog),
    let out := AffiliationFinder.findAffiliation cfg net authorName paperTitle year log in
    (snd out = log /\
     AffiliationFinder.affiliation (fst out) = None /\
     (authorName = EmptyString \/ paperTitle = EmptyString \/
      AffiliationFinder.source (fst out) = AffiliationFinder.SkippedHistorical))
    \/
    (authorName <> EmptyString /\ paperTitle <> EmptyString /\
     exists details,
       snd out
       = log ++ AffiliationFinder.Delay 1000
             :: AffiliationFinder.Fetch
                  (AffiliationFinder.SemanticScholarSearch
                     (JsString.substring 0 200 (AffiliationFinder.cleanText paperTitle)))
             :: details
             ++ ResolverNotions.laterRequests cfg (AffiliationFinder.source (fst out))
                  authorName paperTitle year /\
       Forall ResolverNotions.isAuthorFetch details).
Proof.
  intros cfg net a t y log. cbv zeta. unfold AffiliationFinder.findAffiliation.
  destruct (JsString.nonEmpty a) eqn:Na.
  2:{ left. simpl. split; [reflexivity |]. split; [reflexivity |]. left.
      apply StringFacts.nonEmpty_false_iff. exact Na. }
  destruct (JsString.nonEmpty t) eqn:Nt.
  2:{ left. simpl. split; [reflexivity |]. split; [reflexivity |]. right. left.
      apply StringFacts.nonEmpty_false_iff. exact Nt. }
  cbn [negb orb].
  destruct (AffiliationFinder.truthyNumber (AffiliationFinder.parseInt y) && _).
  { left. simpl. auto. }
  right.
  split; [apply StringFacts.nonEmpty_true_iff; exact Na |].
  split; [apply StringFacts.nonEmpty_true_iff; exact Nt |].
  destruct (ResolverRunFacts.searchSemanticScholar_log net a t y log) as (d & E1 & F1).
  destruct (AffiliationFinder.searchSemanticScholar net a t y log) as [r1 log1].
  simpl in E1. subst log1.
  exists d. split; [| exact F1].
  destruct (AffiliationFinder.truthyResult r1).
  { simpl. rewrite app_nil_r. reflexivity. }
  unfold AffiliationFinder.searchPerplexity.
  destruct (JsString.nonEmpty (AffiliationFinder.PERPLEXITY_API_KEY cfg)) eqn:K.
  - destruct (AffiliationFinder.truthyResult _).
    + simpl. rewrite <- app_assoc. reflexivity.
    + pose proof (ResolverRunFacts.searchOpenAlex_log net a t y
                    ((log ++ AffiliationFinder.Delay 1000
                          :: AffiliationFinder.Fetch
                               (AffiliationFinder.SemanticScholarSearch
                                  (JsString.substring 0 200 (AffiliationFinder.cleanText t)))
                          :: d) ++ [AffiliationFinder.Fetch
                                      (AffiliationFinder.PerplexityChat a t y)])) as E3.
      destruct (AffiliationFinder.searchOpenAlex net a t y _) as [r3 log3].
      simpl in E3. subst log3.
      destruct (AffiliationFinder.truthyResult r3); simpl; rewrite K;
        rewrite <- !app_assoc; reflexivity.
  - simpl.
    pose proof (ResolverRunFacts.searchOpenAlex_log net a t y
                  (log ++ AffiliationFinder.Delay 1000
                       :: AffiliationFinder.Fetch
                            (AffiliationFinder.SemanticScholarSearch
                               (JsString.substring 0 200 (AffiliationFinder.cleanText t)))
                       :: d)) as E3.
    destruct (AffiliationFinder.searchOpenAlex net a t y _) as [r3 log3].
    simpl in E3. subst log3.
    destruct (AffiliationFinder.truthyResult r3); simpl; rewrite K;
      rewrite <- !app_assoc; reflexivity.
Qed.

(** X24.  Name matching is symmetric and reflexive: [authorsMatch]
    gives the same answer with its two arguments exchanged, and every name
    matches itself. *)
Theorem authorsMatch_symmetric :
  forall name1 name2 : string,
    AffiliationFinder.authorsMatch name1 name2 = AffiliationFinder.authorsMatch name2 name1 /\
    AffiliationFinder.authorsMatch name1 name1 = true.
Proof.
  intros name1 name2. unfold AffiliationFinder.authorsMatch. cbv zeta. split.
  - rewrite (String.eqb_sym (AffiliationFinder.normalizeAuthorName name2)
                            (AffiliationFinder.normalizeAuthorName name1)).
    destruct (String.eqb _ _); [reflexivity |].
    rewrite (orb_comm (JsString.includes (AffiliationFinder.normalizeAuthorName name2) _)).
    destruct (_ || _); [reflexivity |].
    rewrite (String.eqb_sym
               (AffiliationFinder.lastPart
                  (JsString.split " " (AffiliationFinder.normalizeAuthorName name2)))).
    destruct (negb _); [reflexivity |].
    rewrite (String.eqb_sym
               (AffiliationFinder.firstInitial
                  (JsString.split " " (AffiliationFinder.normalizeAuthorName name2)))).
    rewrite (andb_comm
               (JsString.nonEmpty
                  (AffiliationFinder.firstInitial
                     (JsString.split " " (AffiliationFinder.normalizeAuthorName name2))))).
    reflexivity.
  - rewrite String.eqb_refl. reflexivity.
Qed.

(** X25.  A name without letters or digits matches every name: when a
    name normalizes to the empty string (an author listed without a name is
    read as the empty string), [authorsMatch] answers [true] against any
    other name, in both argument orders. *)
Theorem authorsMatch_nameless :
  forall nameless other : string,
    AffiliationFinder.normalizeAuthorName nameless = EmptyString ->
    AffiliationFinder.authorsMatch other nameless = true /\
    AffiliationFinder.authorsMatch nameless other = true.
Proof.
  intros nameless other H. unfold AffiliationFinder.authorsMatch. cbv zeta.
  rewrite H. split.
  - destruct (String.eqb _ _); [reflexivity |].
    rewrite ResolverRunFacts.includes_nothing. reflexivity.
  - destruct (String.eqb _ _); [reflexivity |].
    rewrite ResolverRunFacts.includes_nothing, orb_true_r. reflexivity.
Qed.

Lemma authorsMatch_nameless_witness :
  AffiliationFinder.normalizeAuthorName "?!" = EmptyString /\
  AffiliationFinder.authorsMatch "Norbert Wiener" "?!" = true /\
  AffiliationFinder.authorsMatch "?!" "Norbert Wiener" = true.
Proof.
  assert (H : AffiliationFinder.normalizeAuthorName "?!" = EmptyString)
    by (vm_compute; reflexivity).
  split; [exact H |].
  exact (authorsMatch_nameless "?!" "Norbert Wiener" H).
Defined.

(** X26.  Whatever tier 1 returns comes from a matching author of a
    paper that passes the year check: when [searchSemanticScholar] returns an
    affiliation, the reply to the paper search lists a paper that
    [yearMismatch] accepts for the given year, with an author whose name
    matches the target under [authorsMatch], and the affiliation is the first
    one, non-empty, of that author's detail record.  The year check is made on
    doubles: when the given year is not empty, is read by [parseInt] as an
    integer of magnitude at most [2^53], and the paper's year is a non-zero
    integer of magnitude at most [2^53], the two years differ by at most
    one. *)
Theorem searchSemanticScholar_requires_name_match :
  forall (net : AffiliationFinder.Network) (authorName title year : string)
         (log : AffiliationFinder.NetLog) (found : string),
    fst (AffiliationFinder.searchSemanticScholar net authorName title year log)
    = Some found ->
    exists papers paper authors author id logAt others,
      AffiliationFinder.paperSearch net (log ++ [AffiliationFinder.Delay 1000])
        (JsString.substring 0 200 (AffiliationFinder.cleanText title))
      = AffiliationFinder.Body (Some papers) /\
      In paper papers /\
      AffiliationFinder.yearMismatch year (AffiliationFinder.s2_year paper) = false /\
      (forall y p : Z,
         year <> EmptyString ->
         AffiliationFinder.parseInt year = Some y ->
         AffiliationFinder.s2_year paper = Some p ->
         p <> 0%Z ->
         (Z.abs y <= 2 ^ 53)%Z ->
         (Z.abs p <= 2 ^ 53)%Z ->
         (Z.abs (y - p) <= 1)%Z) /\
      AffiliationFinder.s2_authors paper = Some authors /\
      In author authors /\
      AffiliationFinder.authorsMatch authorName
        (AffiliationFinder.orEmpty (AffiliationFinder.s2_name author)) = true /\
      AffiliationFinder.s2_authorId author = Some id /\
      AffiliationFinder.authorDetails net logAt id
      = AffiliationFinder.Body (Some (found :: others)) /\
      found <> EmptyString.
Proof.
  intros net a t y log found. unfold AffiliationFinder.searchSemanticScholar. cbv zeta.
  destruct (AffiliationFinder.paperSearch net (log ++ [AffiliationFinder.Delay 1000])
              (JsString.substring 0 200 (AffiliationFinder.cleanText t)))
    as [| st | | [papers |]] eqn:R; simpl; try discriminate.
  intros H.
  destruct (ResolverRunFacts.scanPapers_found _ _ _ _ _ _ H)
    as (p & aus & au & id & la & others & Hin & Hy & Hr).
  exists papers, p, aus, au, id, la, others.
  split; [reflexivity |]. split; [exact Hin |]. split; [exact Hy |]. split; [| exact Hr].
  intros yn pn N P Sy NZ Yb Pb. rewrite Sy in Hy.
  rewrite (ResolverRunFacts.yearMismatch_safe y yn pn N P NZ Yb Pb) in Hy.
  apply Z.ltb_ge in Hy. exact Hy.
Qed.

Lemma searchSemanticScholar_requires_name_match_witness :
  AffiliationFinder.yearMismatch "1950" (Some 1948%Z) = true /\
  AffiliationFinder.yearMismatch "9007199254740993" (Some 9007199254740991%Z) = false /\
  fst (AffiliationFinder.searchSemanticScholar ResolverNotions.scholarNetwork
         "N. Wiener" "Cybernetics" "1948" []) = Some "MIT" /\
  exists papers paper authors author id logAt others,
    AffiliationFinder.paperSearch ResolverNotions.scholarNetwork
      ([] ++ [AffiliationFinder.Delay 1000])
      (JsString.substring 0 200 (AffiliationFinder.cleanText "Cybernetics"))
    = AffiliationFinder.Body (Some papers) /\
    In paper papers /\
    AffiliationFinder.yearMismatch "1948" (AffiliationFinder.s2_year paper) = false /\
    (forall y p : Z,
       "1948" <> EmptyString ->
       AffiliationFinder.parseInt "1948" = Some y ->
       AffiliationFinder.s2_year paper = Some p ->
       p <> 0%Z ->
       (Z.abs y <= 2 ^ 53)%Z ->
       (Z.abs p <= 2 ^ 53)%Z ->
       (Z.abs (y - p) <= 1)%Z) /\
    AffiliationFinder.s2_authors paper = Some authors /\
    In author authors /\
    AffiliationFinder.authorsMatch "N. Wiener"
      (AffiliationFinder.orEmpty (AffiliationFinder.s2_name author)) = true /\
    AffiliationFinder.s2_authorId author = Some id /\
    AffiliationFinder.authorDetails ResolverNotions.scholarNetwork logAt id
    = AffiliationFinder.Body (Some ("MIT" :: others)) /\
    "MIT" <> EmptyString.
Proof.
  assert (H : fst (AffiliationFinder.searchSemanticScholar ResolverNotions.scholarNetwork
                     "N. Wiener" "Cybernetics" "1948" []) = Some "MIT")
    by (vm_compute; reflexivity).
  split; [vm_compute; reflexivity |]. split; [vm_compute; reflexivity |].
  split; [exact H |].
  exact (searchSemanticScholar_requires_name_match ResolverNotions.scholarNetwork
           "N. Wiener" "Cybernetics" "1948" [] "MIT" H).
Defined.

(** ** Normal forms of author names and search texts *)

Module NormalFormFacts.
Import JsString AffiliationFinder TextNotions.

Lemma toLowerChar_idempotent (c : ascii) : toLowerChar (toLowerChar c) = toLowerChar c.
Proof. destruct c as [[] [] [] [] [] [] [] []]; reflexivity. Qed.

Lemma blank_lowerWordOrSpace : lowerWordOrSpace " "%char = true.
Proof. reflexivity. Qed.

Lemma whiteSpace_lower (c : ascii) : isWhiteSpace c = true -> toLowerChar c = c.
Proof. destruct c as [[] [] [] [] [] [] [] []]; intros H; try reflexivity; discriminate H. Qed.

Lemma collapseFrom_loose (s : string) :
  forall b, loose b (collapseFrom b s) = true.
Proof.
  induction s as [| c r IH]; intros b; simpl; [reflexivity |].
  destruct (isWhiteSpace c) eqn:W.
  - destruct b; [apply IH |]. simpl. apply IH.
  - simpl. rewrite W. apply IH.
Qed.

Lemma trimStart_loose (s : string) :
  forall b, loose b s = true -> loose true (trimStart s) = true.
Proof.
  induction s as [| c r IH]; intros b H; simpl in *; [reflexivity |].
  destruct (isWhiteSpace c) eqn:W.
  - apply andb_true_iff in H. destruct H as [_ H]. apply (IH true H).
  - simpl. rewrite W. exact H.
Qed.

Lemma trimEnd_spaced (s : string) :
  forall b, loose b s = true -> spaced b (trimEnd s) = true.
Proof.
  induction s as [| c r IH]; intros b H; simpl in *; [reflexivity |].
  destruct (isWhiteSpace c) eqn:W.
  - apply andb_true_iff in H. destruct H as [H1 H2].
    specialize (IH true H2).
    destruct (trimEnd r) as [| c' r'] eqn:T; [reflexivity |].
    simpl. rewrite W, H1. exact IH.
  - specialize (IH false H).
    destruct (trimEnd r) as [| c' r'] eqn:T; simpl; rewrite W; [reflexivity | exact IH].
Qed.

Lemma trim_collapse_tidy (s : string) : tidy (trim (collapseWhiteSpace s)) = true.
Proof.
  unfold tidy, trim, collapseWhiteSpace.
  apply trimEnd_spaced. eapply trimStart_loose. apply collapseFrom_loose.
Qed.

Lemma spaced_collapse (s : string) :
  forall p b, spaced p s = true -> p = true \/ b = false -> collapseFrom b s = s.
Proof.
  induction s as [| c r IH]; intros p b H Hb; simpl in *; [reflexivity |].
  destruct (isWhiteSpace c) eqn:W.
  - apply andb_true_iff in H. destruct H as [H H4].
    apply andb_true_iff in H. destruct H as [H H3].
    apply andb_true_iff in H. destruct H as [H1 H2].
    apply Ascii.eqb_eq in H1. subst c.
    destruct p; [discriminate |]. destruct Hb as [Hb | ->]; [discriminate |].
    rewrite (IH true true H4 (or_introl eq_refl)). reflexivity.
  - rewrite (IH false false H (or_intror eq_refl)). reflexivity.
Qed.

Lemma spaced_trimStart (s : string) : spaced true s = true -> trimStart s = s.
Proof.
  destruct s as [| c r]; simpl; [reflexivity |].
  destruct (isWhiteSpace c); [| reflexivity].
  rewrite andb_false_r. simpl. discriminate.
Qed.

Lemma spaced_trimEnd (s : string) : forall p, spaced p s = true -> trimEnd s = s.
Proof.
  induction s as [| c r IH]; intros p H; simpl in *; [reflexivity |].
  destruct (isWhiteSpace c) eqn:W.
  - apply andb_true_iff in H. destruct H as [H H4].
    apply andb_true_iff in H. destruct H as [_ H3].
    rewrite (IH true H4). destruct r; [discriminate | reflexivity].
  - rewrite (IH false H). destruct r; reflexivity.
Qed.

Lemma tidy_fixed (s : string) :
  tidy s = true -> trim (collapseWhiteSpace s) = s.
Proof.
  intros H. unfold trim, collapseWhiteSpace.
  rewrite (spaced_collapse s true false H (or_introl eq_refl)).
  rewrite (spaced_trimStart s H). apply (spaced_trimEnd s true H).
Qed.

(** Character classes. *)
Lemma allChars_collapse (p : ascii -> bool) (s : string) :
  p " "%char = true -> allChars p s = true ->
  forall b, allChars p (collapseFrom b s) = true.
Proof.
  intros Hp. induction s as [| c r IH]; intros H b; simpl in *; [reflexivity |].
  apply andb_true_iff in H. destruct H as [Hc Hr].
  destruct (isWhiteSpace c).
  - destruct b; [apply IH; exact Hr |]. simpl. rewrite Hp. apply IH. exact Hr.
  - simpl. rewrite Hc. apply IH. exact Hr.
Qed.

Lemma allChars_trimStart (p : ascii -> bool) (s : string) :
  allChars p s = true -> allChars p (trimStart s) = true.
Proof.
  induction s as [| c r IH]; intros H; simpl in *; [reflexivity |].
  destruct (isWhiteSpace c); [| exact H].
  apply andb_true_iff in H. destruct H as [_ H]. apply IH. exact H.
Qed.

Lemma allChars_trimEnd (p : ascii -> bool) (s : string) :
  allChars p s = true -> allChars p (trimEnd s) = true.
Proof.
  induction s as [| c r IH]; intros H; simpl in *; [reflexivity |].
  apply andb_true_iff in H. destruct H as [Hc Hr]. specialize (IH Hr).
  destruct (trimEnd r) as [| c' r'].
  - destruct (isWhiteSpace c); [reflexivity |]. simpl. rewrite Hc. reflexivity.
  - simpl in *. rewrite Hc. exact IH.
Qed.

Lemma allChars_trim_collapse (p : ascii -> bool) (s : string) :
  p " "%char = true -> allChars p s = true ->
  allChars p (trim (collapseWhiteSpace s)) = true.
Proof.
  intros Hp H. unfold trim, collapseWhiteSpace.
  apply allChars_trimEnd, allChars_trimStart, allChars_collapse; assumption.
Qed.

Lemma allChars_removeAll (s : string) :
  allChars lowerWordOrSpace
    (removeAll (fun c => negb (isWordChar c || isWhiteSpace c)) (toLowerCase s)) = true.
Proof.
  induction s as [| c r IH]; simpl; [reflexivity |].
  destruct (isWordChar (toLowerChar c) || isWhiteSpace (toLowerChar c)) eqn:K; simpl;
    [| exact IH].
  rewrite IH, andb_true_r. unfold lowerWordOrSpace, wordOrSpace.
  rewrite K, toLowerChar_idempotent. simpl. apply Ascii.eqb_refl.
Qed.

Lemma allChars_blankAll (s : string) :
  allChars wordOrSpace
    (blankAll (fun c => negb (isWordChar c || isWhiteSpace c)) s) = true.
Proof.
  induction s as [| c r IH]; simpl; [reflexivity |].
  rewrite IH, andb_true_r. unfold wordOrSpace.
  destruct (isWordChar c || isWhiteSpace c) eqn:K; simpl; [exact K | reflexivity].
Qed.

Lemma removeAll_fixed (s : string) :
  allChars wordOrSpace s = true ->
  removeAll (fun c => negb (isWordChar c || isWhiteSpace c)) s = s.
Proof.
  induction s as [| c r IH]; intros H; simpl in *; [reflexivity |].
  apply andb_true_iff in H. destruct H as [Hc Hr].
  unfold wordOrSpace in Hc. rewrite Hc. simpl. rewrite (IH Hr). reflexivity.
Qed.

Lemma blankAll_fixed (s : string) :
  allChars wordOrSpace s = true ->
  blankAll (fun c => negb (isWordChar c || isWhiteSpace c)) s = s.
Proof.
  induction s as [| c r IH]; intros H; simpl in *; [reflexivity |].
  apply andb_true_iff in H. destruct H as [Hc Hr].
  unfold wordOrSpace in Hc. rewrite Hc. simpl. rewrite (IH Hr). reflexivity.
Qed.

Lemma toLowerCase_fixed (s : string) :
  allChars lowerWordOrSpace s = true -> toLowerCase s = s.
Proof.
  induction s as [| c r IH]; intros H; simpl in *; [reflexivity |].
  apply andb_true_iff in H. destruct H as [Hc Hr].
  unfold lowerWordOrSpace in Hc. apply andb_true_iff in Hc. destruct Hc as [_ Hc].
  apply Ascii.eqb_eq in Hc. rewrite Hc, (IH Hr). reflexivity.
Qed.

Lemma allChars_weaken (p q : ascii -> bool) (s : string) :
  (forall c, p c = true -> q c = true) -> allChars p s = true -> allChars q s = true.
Proof.
  intros Hpq. induction s as [| c r IH]; intros H; simpl in *; [reflexivity |].
  apply andb_true_iff in H. destruct H as [Hc Hr].
  rewrite (Hpq c Hc), (IH Hr). reflexivity.
Qed.

Lemma normalizeAuthorName_shape (name : string) :
  tidy (normalizeAuthorName name) = true /\
  allChars lowerWordOrSpace (normalizeAuthorName name) = true.
Proof.
  unfold normalizeAuthorName. split.
  - apply trim_collapse_tidy.
  - apply allChars_trim_collapse; [reflexivity | apply allChars_removeAll].
Qed.

Lemma normalizeAuthorName_fixed (s : string) :
  tidy s = true -> allChars lowerWordOrSpace s = true -> normalizeAuthorName s = s.
Proof.
  intros T A. unfold normalizeAuthorName.
  rewrite (toLowerCase_fixed s A).
  rewrite removeAll_fixed; [apply tidy_fixed; exact T |].
  eapply allChars_weaken; [| exact A].
  intros c H. unfold lowerWordOrSpace in H. apply andb_true_iff in H. tauto.
Qed.

Lemma cleanText_shape (text : string) :
  tidy (cleanText text) = true /\ allChars wordOrSpace (cleanText text) = true.
Proof.
  unfold cleanText. split.
  - apply trim_collapse_tidy.
  - apply allChars_trim_collapse; [reflexivity | apply allChars_blankAll].
Qed.

Lemma cleanText_fixed (s : string) :
  tidy s = true -> allChars wordOrSpace s = true -> cleanText s = s.
Proof.
  intros T A. unfold cleanText. rewrite (blankAll_fixed s A). apply tidy_fixed. exact T.
Qed.

End NormalFormFacts.

(** X27.  Normalized author names are in normal form.  The result of
    [normalizeAuthorName] holds only lower-case word characters and single
    blanks between them; normalizing it again changes nothing; and
    [authorsMatch] depends on its arguments through their normalized form
    only. *)
Theorem normalizeAuthorName_normal_form :
  forall name other : string,
    TextNotions.tidy (AffiliationFinder.normalizeAuthorName name) = true /\
    TextNotions.allChars TextNotions.lowerWordOrSpace
      (AffiliationFinder.normalizeAuthorName name) = true /\
    AffiliationFinder.normalizeAuthorName (AffiliationFinder.normalizeAuthorName name)
    = AffiliationFinder.normalizeAuthorName name /\
    AffiliationFinder.authorsMatch (AffiliationFinder.normalizeAuthorName name) other
    = AffiliationFinder.authorsMatch name other /\
    AffiliationFinder.authorsMatch other (AffiliationFinder.normalizeAuthorName name)
    = AffiliationFinder.authorsMatch other name.
Proof.
  intros name other.
  destruct (NormalFormFacts.normalizeAuthorName_shape name) as [T A].
  pose proof (NormalFormFacts.normalizeAuthorName_fixed _ T A) as F.
  split; [exact T |]. split; [exact A |]. split; [exact F |].
  unfold AffiliationFinder.authorsMatch. rewrite F. split; reflexivity.
Qed.

(** X28.  Cleaned search texts are in normal form.  The result of
    [cleanText] holds only word characters and single blanks between them, and
    cleaning it again changes nothing; so the title-based tiers send the same
    requests and return the same result for a title and for its cleaned
    form. *)
Theorem cleanText_normal_form :
  forall (net : AffiliationFinder.Network) (authorName title year : string)
         (log : AffiliationFinder.NetLog),
    TextNotions.tidy (AffiliationFinder.cleanText title) = true /\
    TextNotions.allChars TextNotions.wordOrSpace (AffiliationFinder.cleanText title) = true /\
    AffiliationFinder.cleanText (AffiliationFinder.cleanText title)
    = AffiliationFinder.cleanText title /\
    AffiliationFinder.searchSemanticScholar net authorName
      (AffiliationFinder.cleanText title) year log
    = AffiliationFinder.searchSemanticScholar net authorName title year log /\
    AffiliationFinder.searchOpenAlex net authorName
      (AffiliationFinder.cleanText title) year log
    = AffiliationFinder.searchOpenAlex net authorName title year log.
Proof.
  intros net authorName title year log.
  destruct (NormalFormFacts.cleanText_shape title) as [T A].
  pose proof (NormalFormFacts.cleanText_fixed _ T A) as F.
  split; [exact T |]. split; [exact A |]. split; [exact F |].
  unfold AffiliationFinder.searchSemanticScholar, AffiliationFinder.searchOpenAlex.
  rewrite F. split; reflexivity.
Qed.

(** ** Page texts *)

Module OcrFacts.
Import JsString Js Ocr OcrNotions.

Lemma split_nonempty (sep : ascii) (s : string) : split sep s <> [].
Proof.
  destruct s as [| c r]; simpl; [discriminate |].
  destruct (Ascii.eqb c sep); [discriminate |].
  destruct (split sep r); discriminate.
Qed.

Lemma extractPages_numbers (tools : Tools) (pdfBuffer : string) (parts : list string) :
  forall i,
    map Orchestrator.page (extractPages tools pdfBuffer i parts)
    = seq (i + 1) (List.length parts).
Proof.
  induction parts as [| part rest IH]; intros i; simpl; [reflexivity |].
  rewrite (IH (S i)). f_equal.
  unfold extractPage. destruct (below _ _); reflexivity.
Qed.

Lemma extractPages_length (tools : Tools) (pdfBuffer : string) (parts : list string) :
  forall i, List.length (extractPages tools pdfBuffer i parts) = List.length parts.
Proof. induction parts as [| part rest IH]; intros i; simpl; [| rewrite IH]; reflexivity. Qed.

Lemma extractPages_each (tools : Tools) (pdfBuffer : string)
    (P : string -> Orchestrator.Page -> Prop) (parts : list string) :
  (forall i part, P part (extractPage tools pdfBuffer i part)) ->
  forall i, Forall2 P parts (extractPages tools pdfBuffer i parts).
Proof.
  intros H. induction parts as [| part rest IH]; intros i; simpl; constructor;
    [apply H | apply IH].
Qed.

(** Trimming. *)
Lemma trimStart_startsClean (s : string) : startsClean (trimStart s) = true.
Proof.
  induction s as [| c r IH]; simpl; [reflexivity |].
  destruct (isWhiteSpace c) eqn:W; [exact IH |]. simpl. rewrite W. reflexivity.
Qed.

Lemma trimEnd_startsClean (s : string) :
  startsClean s = true -> startsClean (trimEnd s) = true.
Proof.
  destruct s as [| c r]; simpl; [reflexivity |].
  intros H. destruct (isWhiteSpace c) eqn:W; [discriminate |].
  destruct (trimEnd r); simpl; rewrite W; reflexivity.
Qed.

Lemma startsClean_trimStart (s : string) : startsClean s = true -> trimStart s = s.
Proof.
  destruct s as [| c r]; simpl; [reflexivity |].
  destruct (isWhiteSpace c); [discriminate | reflexivity].
Qed.

Lemma trimEnd_idempotent (s : string) : trimEnd (trimEnd s) = trimEnd s.
Proof.
  induction s as [| c r IH]; simpl; [reflexivity |].
  destruct (trimEnd r) as [| c' r'] eqn:T.
  - destruct (isWhiteSpace c) eqn:W; [reflexivity |]. simpl. rewrite W. reflexivity.
  - simpl in *. rewrite IH. reflexivity.
Qed.

Lemma trim_idempotent (s : string) : trim (trim s) = trim s.
Proof.
  unfold trim.
  rewrite (startsClean_trimStart (trimEnd (trimStart s))).
  - apply trimEnd_idempotent.
  - apply trimEnd_startsClean, trimStart_startsClean.
Qed.

(** Blanks. *)
Lemma singleBlanks_weaken (s : string) :
  forall b, singleBlanks b s = true -> singleBlanks false s = true.
Proof.
  destruct s as [| c r]; intros b H; simpl in *; [reflexivity |].
  destruct (isBlank c); [| exact H].
  apply andb_true_iff in H. destruct H as [_ H]. exact H.
Qed.

Lemma singleBlanks_flush (p : Pending) (c : ascii) (rest : string) :
  isBlank c = false ->
  singleBlanks false rest = true ->
  singleBlanks false (flushBlanks p ++ String c rest) = true.
Proof.
  intros Hc Hr. destruct p as [| d |]; simpl.
  - rewrite Hc. exact Hr.
  - destruct (isBlank d); simpl; rewrite Hc; exact Hr.
  - rewrite Hc. exact Hr.
Qed.

Lemma collapseBlanks_single (s : string) :
  forall p, singleBlanks false (collapseBlanks p s) = true.
Proof.
  induction s as [| c r IH]; intros p; simpl.
  - destruct p as [| d |]; simpl; [reflexivity | destruct (isBlank d); reflexivity | reflexivity].
  - destruct (isBlank c) eqn:B; [apply IH |].
    apply singleBlanks_flush; [exact B | apply IH].
Qed.

Lemma trimStart_single (s : string) :
  singleBlanks false s = true -> singleBlanks false (trimStart s) = true.
Proof.
  induction s as [| c r IH]; intros H; simpl in *; [reflexivity |].
  destruct (isWhiteSpace c) eqn:W.
  - apply IH. destruct (isBlank c); [| exact H].
    simpl in H. apply (singleBlanks_weaken r true H).
  - simpl. exact H.
Qed.

Lemma trimEnd_single (s : string) :
  forall b, singleBlanks b s = true -> singleBlanks b (trimEnd s) = true.
Proof.
  induction s as [| c r IH]; intros b H; simpl in *; [reflexivity |].
  destruct (isBlank c) eqn:B.
  - apply andb_true_iff in H. destruct H as [Hb Hr]. specialize (IH true Hr).
    destruct (trimEnd r) as [| c' r'].
    + destruct (isWhiteSpace c); [reflexivity |]. simpl. rewrite B, Hb. reflexivity.
    + simpl in *. rewrite B, Hb. exact IH.
  - specialize (IH false H).
    destruct (trimEnd r) as [| c' r'].
    + destruct (isWhiteSpace c); [reflexivity |]. simpl. rewrite B. reflexivity.
    + simpl in *. rewrite B. exact IH.
Qed.

Lemma normalize_shape (text : string) :
  trim (normalize text) = normalize text /\ singleBlanks false (normalize text) = true.
Proof.
  unfold normalize. split; [apply trim_idempotent |].
  unfold trim. apply trimEnd_single, trimStart_single, collapseBlanks_single.
Qed.

Lemma extractPage_text (tools : Tools) (pdfBuffer : string) (i : nat) (part : string) :
  exists source, Orchestrator.text (extractPage tools pdfBuffer i part) = normalize source.
Proof.
  unfold extractPage. destruct (below _ _); simpl; eauto.
Qed.

End OcrFacts.

(** X29.  The pages of [extractPdfSmart].  A rejection of the PDF
    parser is the rejection of the extraction; a failing text recognition
    never is.  Otherwise there is at least one page, the pages are numbered
    1, 2, ... in order, one per form-feed separated part of the parsed text; a
    page is marked as recognized exactly when [isScannedPDF] holds of its part
    with 15 characters per line; the text of a page that is not is the
    normalized part, and the text of one that is is the normalized recognized
    text, or the normalized part when the recognition failed or found
    nothing. *)
Theorem extractPdfSmart_pages :
  forall (tools : Ocr.Tools) (pdfBuffer : string),
    match Ocr.pdfParse tools pdfBuffer with
    | Js.Throw m => Ocr.extractPdfSmart tools pdfBuffer = Js.Throw m
    | Js.Normal data =>
        exists pages,
          Ocr.extractPdfSmart tools pdfBuffer = Js.Normal pages /\
          pages <> [] /\
          map Orchestrator.page pages = seq 1 (List.length pages) /\
          Forall2
            (fun part p =>
               Orchestrator.isOcr p = Ocr.isScannedPDF part 15 /\
               (Orchestrator.isOcr p = false ->
                Orchestrator.text p = Ocr.normalize part) /\
               (Orchestrator.isOcr p = true ->
                match Ocr.recognize tools pdfBuffer (Orchestrator.page p) with
                | Js.Normal (String c recognized) =>
                    Orchestrator.text p = Ocr.normalize (String c recognized)
                | _ => Orchestrator.text p = Ocr.normalize part
                end))
            (JsString.split Ocr.FF (OcrNotions.textOf data)) pages
    end.
Proof.
  intros tools pdfBuffer. unfold Ocr.extractPdfSmart.
  destruct (Ocr.pdfParse tools pdfBuffer) as [data | m]; simpl; [| reflexivity].
  fold (OcrNotions.textOf data).
  set (parts := JsString.split Ocr.FF (OcrNotions.textOf data)).
  exists (Ocr.extractPages tools pdfBuffer 0 parts).
  split; [reflexivity |]. split.
  { pose proof (OcrFacts.split_nonempty Ocr.FF (OcrNotions.textOf data)) as N.
    fold parts in N. destruct parts; [congruence | discriminate]. }
  split.
  { rewrite OcrFacts.extractPages_numbers, OcrFacts.extractPages_length. reflexivity. }
  apply OcrFacts.extractPages_each.
  intros i part. unfold Ocr.extractPage, Ocr.isScannedPDF.
  destruct (Ocr.below (Ocr.charDensity part) 15); simpl.
  - split; [reflexivity |]. split; [discriminate |]. intros _.
    unfold Ocr.ocrPage.
    destruct (Ocr.recognize tools pdfBuffer (i + 1)) as [[| c recognized] | m]; reflexivity.
  - split; [reflexivity |]. split; [reflexivity | discriminate].
Qed.

(** X30.  Page texts are in normal form: every text that
    [extractPdfSmart] returns for a page, recognized or not, has no white
    space at either end and no two blanks in a row (a blank being white space
    other than a line feed or a carriage return), whatever the parser and the
    recognition produced. *)
Theorem extractPdfSmart_texts_normalized :
  forall (tools : Ocr.Tools) (pdfBuffer : string),
    match Ocr.extractPdfSmart tools pdfBuffer with
    | Js.Normal pages =>
        Forall (fun p =>
                  JsString.trim (Orchestrator.text p) = Orchestrator.text p /\
                  OcrNotions.singleBlanks false (Orchestrator.text p) = true)
               pages
    | Js.Throw _ => True
    end.
Proof.
  intros tools pdfBuffer. unfold Ocr.extractPdfSmart.
  destruct (Ocr.pdfParse tools pdfBuffer) as [data | m]; simpl; [| exact I].
  generalize 0 as i.
  induction (JsString.split Ocr.FF match data with Some t => t | None => EmptyString end)
    as [| part rest IH]; intros i; simpl; constructor; [| apply IH].
  destruct (OcrFacts.extractPage_text tools pdfBuffer i part) as (source & ->).
  apply OcrFacts.normalize_shape.
Qed.
